(** * threejs3d: the 3D Tiles streaming core (Tileset.js) and isDataUri

    A shallow embedding of the load pipeline, the frame update, the
    command-list arrangement, the hierarchy loader, the tile index and the
    configuration setters of [src/renderer/3dtiles/Tileset.js], of
    [isDataUri], and of [createFeatures] of
    [src/scene/Batched3DModel3DTileContent.js].

    Conventions.
    - JS numbers used as counters and byte lengths are [Z]; numbers that
      carry measurements (priorities, screen-space error, densities, the
      memory budget) are exact rationals [Q].
    - Objects shared by reference (tiles) live in a store indexed by
      [TileRef]; arrays of tiles are lists of references.
    - Objects used as maps are finite maps; a node object of the tileset
      JSON is referred to by its position in the document.
    - Collaborators whose source is not available here
      (Tile, Cesium3DTilesetCache, Cesium3DTilesetStatistics, Check,
      Cesium3DTilesetTraversal) are modelled from the specification and
      marked as such. *)

From Stdlib Require Import ZArith NArith QArith Lqa Lia Bool String Ascii.
From Stdlib Require Import Sorting.Sorted Sorting.Permutation.
From stdpp Require Import base list gmap.
From Equations Require Import Equations.

Local Open Scope Z_scope.

(* ===================================================================== *)
(** * isDataUri                                                           *)
(* ===================================================================== *)

Module IsDataUri.

(** A JS string is a sequence of UTF-16 code units. *)
Definition CodeUnit := N.
Definition JSString := list CodeUnit.

Definition codeUnits (s : string) : JSString :=
  List.map N_of_ascii (list_ascii_of_string s).

(** The fragment of regular-expression syntax that [/^data:/i] uses:
  the start-of-input assertion and single pattern characters. *)
Inductive Term :=
| AssertStart
| PatternChar (c : CodeUnit).

Record RegExp := mkRegExp {
  pattern : list Term;
  ignoreCase : bool
}.

Section Matcher.
(** Upper-casing of a code unit outside ASCII is given by the Unicode
    tables; the matcher is correct for any such table. *)
Variable unicodeUpper : CodeUnit -> CodeUnit.

Definition asciiUpper (ch : CodeUnit) : CodeUnit :=
  if ((97 <=? ch) && (ch <=? 122))%N then (ch - 32)%N else ch.

(** ECMAScript [Canonicalize] (ignoreCase, no unicode flag): a code unit
    at or above 128 is never folded onto an ASCII one. *)
Definition Canonicalize (r : RegExp) (ch : CodeUnit) : CodeUnit :=
  if ignoreCase r then
    if (ch <? 128)%N then asciiUpper ch
    else let cu := unicodeUpper ch in
         if (cu <? 128)%N then ch else cu
  else ch.

Fixpoint matchTerms (r : RegExp) (ts : list Term) (input : JSString)
    (index : nat) : bool :=
  match ts with
  | [] => true
  | AssertStart :: ts' =>
      Nat.eqb index 0 && matchTerms r ts' input index
  | PatternChar c :: ts' =>
      match input !! index with
      | Some ch =>
          N.eqb (Canonicalize r ch) (Canonicalize r c)
          && matchTerms r ts' input (S index)
      | None => false
      end
  end.

(** [RegExp.prototype.test] on a regex without the global flag: the
    pattern is tried at every start index from 0. *)
Definition test (r : RegExp) (input : JSString) : bool :=
  existsb (matchTerms r (pattern r) input) (seq 0 (S (length input))).

(** [var dataUriRegex = /^data:/i;] *)
Definition dataUriRegex : RegExp :=
  mkRegExp
    [AssertStart; PatternChar 100%N; PatternChar 97%N; PatternChar 116%N;
     PatternChar 97%N; PatternChar 58%N]
    true.

(** [isDataUri(uri)]; the argument is a string, so the debug type check
    passes. *)
Definition isDataUri (uri : JSString) : bool := test dataUriRegex uri.

(** The claim's reading: the first five code units are [d a t a :] up to
    ASCII letter case. *)
Definition asciiLower (ch : CodeUnit) : CodeUnit :=
  if ((65 <=? ch) && (ch <=? 90))%N then (ch + 32)%N else ch.

Definition beginsWithDataColon (uri : JSString) : Prop :=
  exists c0 c1 c2 c3 c4 rest,
    uri = c0 :: c1 :: c2 :: c3 :: c4 :: rest /\
    List.map asciiLower [c0; c1; c2; c3; c4] = codeUnits "data:".

End Matcher.

End IsDataUri.

(* ===================================================================== *)
(** * Data model of Tileset.js                                            *)
(* ===================================================================== *)

(** ** Completions: normal return or a thrown error, with the state left
    behind in both cases. *)

Inductive JSError :=
| DeveloperError (message : string)
| RuntimeError (message : string)
| ReferenceError (message : string)
| TypeError (message : string)
| RangeError (message : string).

Inductive Outcome (V St : Type) :=
| Returned (v : V) (s : St)
| Thrown (e : JSError) (s : St).
Arguments Returned {V St} v s.
Arguments Thrown {V St} e s.

Definition finalState {V St : Type} (o : Outcome V St) : St :=
  match o with Returned _ s => s | Thrown _ s => s end.

(** ** Module scope.  A module binds the names it imports and the names
    it declares at its top level.  Evaluating any other identifier (one
    that is not a global of the language either) throws a ReferenceError. *)

Definition resolveIdentifier (scope : list string) (name : string) : option JSError :=
  if existsb (String.eqb name) scope then None
  else Some (ReferenceError (name ++ " is not defined")).

(** ** Comparison of numbers: [a < b]. *)

Definition Qlt_bool (a b : Q) : bool := negb (Qle_bool b a).

(** ** Loops. [for (i = start; i < start + count; ++i) body] and
    [for (i = count - 1; i >= 0; --i) body]. *)

Fixpoint forUpTo {St : Type} (count start : nat) (body : nat -> St -> St) (s : St) : St :=
  match count with
  | O => s
  | S c => forUpTo c (S start) body (body start s)
  end.

Fixpoint forDownFrom {St : Type} (count : nat) (body : nat -> St -> St) (s : St) : St :=
  match count with
  | O => s
  | S i => forDownFrom i body (body i s)
  end.

(** ** Tiles, referenced by handle. *)

Definition TileRef := nat.

Inductive Cesium3DTileContentState :=
| UNLOADED | LOADING | PROCESSING | READY | EXPIRED | FAILED.

Definition contentState_eqb (a b : Cesium3DTileContentState) : bool :=
  match a, b with
  | UNLOADED, UNLOADED | LOADING, LOADING | PROCESSING, PROCESSING
  | READY, READY | EXPIRED, EXPIRED | FAILED, FAILED => true
  | _, _ => false
  end.

Inductive Cesium3DTileRefine := ADD | REPLACE.

Definition refine_eqb (a b : Cesium3DTileRefine) : bool :=
  match a, b with
  | ADD, ADD | REPLACE, REPLACE => true
  | _, _ => false
  end.

(** The byte sizes a content object reports. *)
Record Content := mkContent {
  geometryByteLength : Z;
  texturesByteLength : Z;
  batchTableByteLength : Z
}.

(** The continuations that [requestContent] attaches to a tile's two
    promises; each closes over the tileset and the tile. *)
Inductive Continuation :=
| AddToProcessingQueue (tile : TileRef)
| HandleTileSuccess (tile : TileRef)
| HandleTileFailure (tile : TileRef).

(** Modelled from the spec: Tile.js is not among the available sources.  A tile
    carries its content state machine (section 3), the two completion
    points of a load (section 6) as promises with the callbacks attached
    to them, the priority scalar written by the traversal, and its
    ordered children. *)
Record Tile := mkTile {
  hasEmptyContent : bool;
  hasTilesetContent : bool;
  _contentState : Cesium3DTileContentState;
  _priority : Q;
  content : Content;
  _contentResource_url : string;
  childrenTile : list TileRef;
  contentReadyToProcessPromise : list Continuation;
  contentReadyPromise : list (Continuation * Continuation)
}.

Definition contentExpired (t : Tile) : bool :=
  contentState_eqb (_contentState t) EXPIRED.

Definition with_contentState (s : Cesium3DTileContentState) (t : Tile) : Tile :=
  mkTile (hasEmptyContent t) (hasTilesetContent t) s (_priority t) (content t)
    (_contentResource_url t) (childrenTile t)
    (contentReadyToProcessPromise t) (contentReadyPromise t).

Definition with_priority (p : Q) (t : Tile) : Tile :=
  mkTile (hasEmptyContent t) (hasTilesetContent t) (_contentState t) p (content t)
    (_contentResource_url t) (childrenTile t)
    (contentReadyToProcessPromise t) (contentReadyPromise t).

Definition with_promises (rtp : list Continuation)
    (rdy : list (Continuation * Continuation)) (t : Tile) : Tile :=
  mkTile (hasEmptyContent t) (hasTilesetContent t) (_contentState t) (_priority t)
    (content t) (_contentResource_url t) (childrenTile t) rtp rdy.

Definition with_content (c : Content) (t : Tile) : Tile :=
  mkTile (hasEmptyContent t) (hasTilesetContent t) (_contentState t) (_priority t)
    c (_contentResource_url t) (childrenTile t)
    (contentReadyToProcessPromise t) (contentReadyPromise t).

(** ** Statistics. *)

(** Modelled from the spec: Cesium3DTilesetStatistics.js is not among the
    available sources.  Section 3 lists the counters and the three byte totals. *)
Record Cesium3DTilesetStatistics := mkStatistics {
  selected : Z;
  numberOfCommands : Z;
  numberOfAttemptedRequests : Z;
  numberOfPendingRequests : Z;
  numberOfTilesProcessing : Z;
  numberOfTilesWithContentReady : Z;
  numberOfTilesTotal : Z;
  stat_geometryByteLength : Z;
  stat_texturesByteLength : Z;
  stat_batchTableByteLength : Z
}.

Definition emptyStatistics : Cesium3DTilesetStatistics :=
  mkStatistics 0 0 0 0 0 0 0 0 0 0.

Definition add_selected (d : Z) (s : Cesium3DTilesetStatistics) :=
  mkStatistics (selected s + d) (numberOfCommands s) (numberOfAttemptedRequests s)
    (numberOfPendingRequests s) (numberOfTilesProcessing s)
    (numberOfTilesWithContentReady s) (numberOfTilesTotal s)
    (stat_geometryByteLength s) (stat_texturesByteLength s) (stat_batchTableByteLength s).

Definition set_numberOfCommands (n : Z) (s : Cesium3DTilesetStatistics) :=
  mkStatistics (selected s) n (numberOfAttemptedRequests s)
    (numberOfPendingRequests s) (numberOfTilesProcessing s)
    (numberOfTilesWithContentReady s) (numberOfTilesTotal s)
    (stat_geometryByteLength s) (stat_texturesByteLength s) (stat_batchTableByteLength s).

Definition add_numberOfAttemptedRequests (d : Z) (s : Cesium3DTilesetStatistics) :=
  mkStatistics (selected s) (numberOfCommands s) (numberOfAttemptedRequests s + d)
    (numberOfPendingRequests s) (numberOfTilesProcessing s)
    (numberOfTilesWithContentReady s) (numberOfTilesTotal s)
    (stat_geometryByteLength s) (stat_texturesByteLength s) (stat_batchTableByteLength s).

Definition add_numberOfPendingRequests (d : Z) (s : Cesium3DTilesetStatistics) :=
  mkStatistics (selected s) (numberOfCommands s) (numberOfAttemptedRequests s)
    (numberOfPendingRequests s + d) (numberOfTilesProcessing s)
    (numberOfTilesWithContentReady s) (numberOfTilesTotal s)
    (stat_geometryByteLength s) (stat_texturesByteLength s) (stat_batchTableByteLength s).

Definition add_numberOfTilesProcessing (d : Z) (s : Cesium3DTilesetStatistics) :=
  mkStatistics (selected s) (numberOfCommands s) (numberOfAttemptedRequests s)
    (numberOfPendingRequests s) (numberOfTilesProcessing s + d)
    (numberOfTilesWithContentReady s) (numberOfTilesTotal s)
    (stat_geometryByteLength s) (stat_texturesByteLength s) (stat_batchTableByteLength s).

Definition add_numberOfTilesWithContentReady (d : Z) (s : Cesium3DTilesetStatistics) :=
  mkStatistics (selected s) (numberOfCommands s) (numberOfAttemptedRequests s)
    (numberOfPendingRequests s) (numberOfTilesProcessing s)
    (numberOfTilesWithContentReady s + d) (numberOfTilesTotal s)
    (stat_geometryByteLength s) (stat_texturesByteLength s) (stat_batchTableByteLength s).

Definition add_numberOfTilesTotal (d : Z) (s : Cesium3DTilesetStatistics) :=
  mkStatistics (selected s) (numberOfCommands s) (numberOfAttemptedRequests s)
    (numberOfPendingRequests s) (numberOfTilesProcessing s)
    (numberOfTilesWithContentReady s) (numberOfTilesTotal s + d)
    (stat_geometryByteLength s) (stat_texturesByteLength s) (stat_batchTableByteLength s).

(** Modelled from the spec: the byte totals are kept incrementally, added
    to on load and subtracted from on eviction (section 3). *)
Definition addLoadCounts (sign : Z) (c : Content) (s : Cesium3DTilesetStatistics) :=
  mkStatistics (selected s) (numberOfCommands s) (numberOfAttemptedRequests s)
    (numberOfPendingRequests s) (numberOfTilesProcessing s)
    (numberOfTilesWithContentReady s) (numberOfTilesTotal s)
    (stat_geometryByteLength s + sign * geometryByteLength c)
    (stat_texturesByteLength s + sign * texturesByteLength c)
    (stat_batchTableByteLength s + sign * batchTableByteLength c).

Definition incrementLoadCounts := addLoadCounts 1.
Definition decrementLoadCounts := addLoadCounts (-1).

(** ** The resident cache. *)

(** Modelled from the spec: Cesium3DTilesetCache.js is not among the
    available sources.  An entry is a tile reference with the frame of its
    last touch (section 3); the list is kept least-recently-used first. *)
Record CacheEntry := mkCacheEntry {
  cachedTile : TileRef;
  lastTouched : nat
}.

Record Cesium3DTilesetCache := mkCache {
  entries : list CacheEntry;
  cacheFrame : nat
}.

Definition Cache_contains (t : TileRef) (c : Cesium3DTilesetCache) : bool :=
  existsb (fun e => Nat.eqb (cachedTile e) t) (entries c).

Definition Cache_without (t : TileRef) (c : Cesium3DTilesetCache) : list CacheEntry :=
  List.filter (fun e => negb (Nat.eqb (cachedTile e) t)) (entries c).

(** Modelled from the spec: [add] registers a tile as most recently used
    and does nothing for a tile already present (section 4.4). *)
Definition Cache_add (t : TileRef) (c : Cesium3DTilesetCache) : Cesium3DTilesetCache :=
  if Cache_contains t c then c
  else mkCache (entries c ++ [mkCacheEntry t (cacheFrame c)]) (cacheFrame c).

(** Modelled from the spec: [touch] moves a resident tile to the
    most-recently-used end (section 4.4). *)
Definition Cache_touch (t : TileRef) (c : Cesium3DTilesetCache) : Cesium3DTilesetCache :=
  if Cache_contains t c
  then mkCache (Cache_without t c ++ [mkCacheEntry t (cacheFrame c)]) (cacheFrame c)
  else c.

Definition Cache_remove (t : TileRef) (c : Cesium3DTilesetCache) : Cesium3DTilesetCache :=
  mkCache (Cache_without t c) (cacheFrame c).

Definition Cache_startFrame (n : nat) (c : Cesium3DTilesetCache) : Cesium3DTilesetCache :=
  mkCache (entries c) n.

(** ** Render commands. *)

Inductive Command :=
| ClearCommand (stencil pass : Z)
| DrawCommand (owner : TileRef) (id : nat)
| undefined.

(** [var stencilClearCommand = new ClearCommand({stencil : 0, pass : 4});] *)
Definition stencilClearCommand : Command := ClearCommand 0 4.

(** Array element read and write as JS does them: a read past the end
    gives [undefined], a write past the end extends the array. *)
Definition arrayGet (l : list Command) (i : nat) : Command :=
  default undefined (l !! i).

Definition arraySet (i : nat) (v : Command) (l : list Command) : list Command :=
  if Nat.ltb i (length l) then <[i := v]> l
  else l ++ replicate (i - length l)%nat undefined ++ [v].

(** [a.length += n] *)
Definition arrayGrow (n : nat) (l : list Command) : list Command :=
  l ++ replicate n undefined.

(** ** The tileset object: the fields of [this] that the modelled
    functions read or write. *)

Record Tileset := mkTileset {
  _root : option TileRef;
  visible : bool;
  _basePath : option string;
  _cache : Cesium3DTilesetCache;
  _processingQueue : list TileRef;
  _selectedTiles : list TileRef;
  _emptyTiles : list TileRef;
  _requestedTiles : list TileRef;
  _cullWithChildrenBounds : bool;
  _allTilesAdditive : bool;
  _hasMixedContent : bool;
  _backfaceCommands : list Command;
  _maximumScreenSpaceError : Q;
  _maximumMemoryUsage : Q;
  _statistics : Cesium3DTilesetStatistics;
  dynamicScreenSpaceErrorDensity : Q;
  dynamicScreenSpaceErrorFactor : Q;
  dynamicScreenSpaceErrorHeightFalloff : Q;
  _dynamicScreenSpaceErrorComputedDensity : Q;
  _skipLevelOfDetail : bool;
  tileFailed_numberOfListeners : nat;
  debugShowGeometricError : bool;
  debugShowRenderingStatistics : bool;
  debugShowMemoryUsage : bool;
  debugShowUrl : bool;
  _tileDebugLabels : bool
}.

Definition with_basePath (v : option string) (ts : Tileset) : Tileset :=
  mkTileset (_root ts) (visible ts) v (_cache ts) (_processingQueue ts)
    (_selectedTiles ts) (_emptyTiles ts) (_requestedTiles ts)
    (_cullWithChildrenBounds ts) (_allTilesAdditive ts) (_hasMixedContent ts)
    (_backfaceCommands ts) (_maximumScreenSpaceError ts) (_maximumMemoryUsage ts)
    (_statistics ts) (dynamicScreenSpaceErrorDensity ts)
    (dynamicScreenSpaceErrorFactor ts) (dynamicScreenSpaceErrorHeightFalloff ts)
    (_dynamicScreenSpaceErrorComputedDensity ts) (_skipLevelOfDetail ts)
    (tileFailed_numberOfListeners ts) (debugShowGeometricError ts)
    (debugShowRenderingStatistics ts) (debugShowMemoryUsage ts) (debugShowUrl ts)
    (_tileDebugLabels ts).

Definition with_cache (v : Cesium3DTilesetCache) (ts : Tileset) : Tileset :=
  mkTileset (_root ts) (visible ts) (_basePath ts) v (_processingQueue ts)
    (_selectedTiles ts) (_emptyTiles ts) (_requestedTiles ts)
    (_cullWithChildrenBounds ts) (_allTilesAdditive ts) (_hasMixedContent ts)
    (_backfaceCommands ts) (_maximumScreenSpaceError ts) (_maximumMemoryUsage ts)
    (_statistics ts) (dynamicScreenSpaceErrorDensity ts)
    (dynamicScreenSpaceErrorFactor ts) (dynamicScreenSpaceErrorHeightFalloff ts)
    (_dynamicScreenSpaceErrorComputedDensity ts) (_skipLevelOfDetail ts)
    (tileFailed_numberOfListeners ts) (debugShowGeometricError ts)
    (debugShowRenderingStatistics ts) (debugShowMemoryUsage ts) (debugShowUrl ts)
    (_tileDebugLabels ts).

Definition with_processingQueue (v : list TileRef) (ts : Tileset) : Tileset :=
  mkTileset (_root ts) (visible ts) (_basePath ts) (_cache ts) v (_selectedTiles ts)
    (_emptyTiles ts) (_requestedTiles ts) (_cullWithChildrenBounds ts)
    (_allTilesAdditive ts) (_hasMixedContent ts) (_backfaceCommands ts)
    (_maximumScreenSpaceError ts) (_maximumMemoryUsage ts) (_statistics ts)
    (dynamicScreenSpaceErrorDensity ts) (dynamicScreenSpaceErrorFactor ts)
    (dynamicScreenSpaceErrorHeightFalloff ts)
    (_dynamicScreenSpaceErrorComputedDensity ts) (_skipLevelOfDetail ts)
    (tileFailed_numberOfListeners ts) (debugShowGeometricError ts)
    (debugShowRenderingStatistics ts) (debugShowMemoryUsage ts) (debugShowUrl ts)
    (_tileDebugLabels ts).

Definition with_selectedTiles (v : list TileRef) (ts : Tileset) : Tileset :=
  mkTileset (_root ts) (visible ts) (_basePath ts) (_cache ts) (_processingQueue ts) v
    (_emptyTiles ts) (_requestedTiles ts) (_cullWithChildrenBounds ts)
    (_allTilesAdditive ts) (_hasMixedContent ts) (_backfaceCommands ts)
    (_maximumScreenSpaceError ts) (_maximumMemoryUsage ts) (_statistics ts)
    (dynamicScreenSpaceErrorDensity ts) (dynamicScreenSpaceErrorFactor ts)
    (dynamicScreenSpaceErrorHeightFalloff ts)
    (_dynamicScreenSpaceErrorComputedDensity ts) (_skipLevelOfDetail ts)
    (tileFailed_numberOfListeners ts) (debugShowGeometricError ts)
    (debugShowRenderingStatistics ts) (debugShowMemoryUsage ts) (debugShowUrl ts)
    (_tileDebugLabels ts).

Definition with_emptyTiles (v : list TileRef) (ts : Tileset) : Tileset :=
  mkTileset (_root ts) (visible ts) (_basePath ts) (_cache ts) (_processingQueue ts)
    (_selectedTiles ts) v (_requestedTiles ts) (_cullWithChildrenBounds ts)
    (_allTilesAdditive ts) (_hasMixedContent ts) (_backfaceCommands ts)
    (_maximumScreenSpaceError ts) (_maximumMemoryUsage ts) (_statistics ts)
    (dynamicScreenSpaceErrorDensity ts) (dynamicScreenSpaceErrorFactor ts)
    (dynamicScreenSpaceErrorHeightFalloff ts)
    (_dynamicScreenSpaceErrorComputedDensity ts) (_skipLevelOfDetail ts)
    (tileFailed_numberOfListeners ts) (debugShowGeometricError ts)
    (debugShowRenderingStatistics ts) (debugShowMemoryUsage ts) (debugShowUrl ts)
    (_tileDebugLabels ts).

Definition with_requestedTiles (v : list TileRef) (ts : Tileset) : Tileset :=
  mkTileset (_root ts) (visible ts) (_basePath ts) (_cache ts) (_processingQueue ts)
    (_selectedTiles ts) (_emptyTiles ts) v (_cullWithChildrenBounds ts)
    (_allTilesAdditive ts) (_hasMixedContent ts) (_backfaceCommands ts)
    (_maximumScreenSpaceError ts) (_maximumMemoryUsage ts) (_statistics ts)
    (dynamicScreenSpaceErrorDensity ts) (dynamicScreenSpaceErrorFactor ts)
    (dynamicScreenSpaceErrorHeightFalloff ts)
    (_dynamicScreenSpaceErrorComputedDensity ts) (_skipLevelOfDetail ts)
    (tileFailed_numberOfListeners ts) (debugShowGeometricError ts)
    (debugShowRenderingStatistics ts) (debugShowMemoryUsage ts) (debugShowUrl ts)
    (_tileDebugLabels ts).

Definition with_allTilesAdditive (v : bool) (ts : Tileset) : Tileset :=
  mkTileset (_root ts) (visible ts) (_basePath ts) (_cache ts) (_processingQueue ts)
    (_selectedTiles ts) (_emptyTiles ts) (_requestedTiles ts)
    (_cullWithChildrenBounds ts) v (_hasMixedContent ts) (_backfaceCommands ts)
    (_maximumScreenSpaceError ts) (_maximumMemoryUsage ts) (_statistics ts)
    (dynamicScreenSpaceErrorDensity ts) (dynamicScreenSpaceErrorFactor ts)
    (dynamicScreenSpaceErrorHeightFalloff ts)
    (_dynamicScreenSpaceErrorComputedDensity ts) (_skipLevelOfDetail ts)
    (tileFailed_numberOfListeners ts) (debugShowGeometricError ts)
    (debugShowRenderingStatistics ts) (debugShowMemoryUsage ts) (debugShowUrl ts)
    (_tileDebugLabels ts).

Definition with_hasMixedContent (v : bool) (ts : Tileset) : Tileset :=
  mkTileset (_root ts) (visible ts) (_basePath ts) (_cache ts) (_processingQueue ts)
    (_selectedTiles ts) (_emptyTiles ts) (_requestedTiles ts)
    (_cullWithChildrenBounds ts) (_allTilesAdditive ts) v (_backfaceCommands ts)
    (_maximumScreenSpaceError ts) (_maximumMemoryUsage ts) (_statistics ts)
    (dynamicScreenSpaceErrorDensity ts) (dynamicScreenSpaceErrorFactor ts)
    (dynamicScreenSpaceErrorHeightFalloff ts)
    (_dynamicScreenSpaceErrorComputedDensity ts) (_skipLevelOfDetail ts)
    (tileFailed_numberOfListeners ts) (debugShowGeometricError ts)
    (debugShowRenderingStatistics ts) (debugShowMemoryUsage ts) (debugShowUrl ts)
    (_tileDebugLabels ts).

Definition with_backfaceCommands (v : list Command) (ts : Tileset) : Tileset :=
  mkTileset (_root ts) (visible ts) (_basePath ts) (_cache ts) (_processingQueue ts)
    (_selectedTiles ts) (_emptyTiles ts) (_requestedTiles ts)
    (_cullWithChildrenBounds ts) (_allTilesAdditive ts) (_hasMixedContent ts) v
    (_maximumScreenSpaceError ts) (_maximumMemoryUsage ts) (_statistics ts)
    (dynamicScreenSpaceErrorDensity ts) (dynamicScreenSpaceErrorFactor ts)
    (dynamicScreenSpaceErrorHeightFalloff ts)
    (_dynamicScreenSpaceErrorComputedDensity ts) (_skipLevelOfDetail ts)
    (tileFailed_numberOfListeners ts) (debugShowGeometricError ts)
    (debugShowRenderingStatistics ts) (debugShowMemoryUsage ts) (debugShowUrl ts)
    (_tileDebugLabels ts).

Definition with_maximumScreenSpaceError (v : Q) (ts : Tileset) : Tileset :=
  mkTileset (_root ts) (visible ts) (_basePath ts) (_cache ts) (_processingQueue ts)
    (_selectedTiles ts) (_emptyTiles ts) (_requestedTiles ts)
    (_cullWithChildrenBounds ts) (_allTilesAdditive ts) (_hasMixedContent ts)
    (_backfaceCommands ts) v (_maximumMemoryUsage ts) (_statistics ts)
    (dynamicScreenSpaceErrorDensity ts) (dynamicScreenSpaceErrorFactor ts)
    (dynamicScreenSpaceErrorHeightFalloff ts)
    (_dynamicScreenSpaceErrorComputedDensity ts) (_skipLevelOfDetail ts)
    (tileFailed_numberOfListeners ts) (debugShowGeometricError ts)
    (debugShowRenderingStatistics ts) (debugShowMemoryUsage ts) (debugShowUrl ts)
    (_tileDebugLabels ts).

Definition with_maximumMemoryUsage (v : Q) (ts : Tileset) : Tileset :=
  mkTileset (_root ts) (visible ts) (_basePath ts) (_cache ts) (_processingQueue ts)
    (_selectedTiles ts) (_emptyTiles ts) (_requestedTiles ts)
    (_cullWithChildrenBounds ts) (_allTilesAdditive ts) (_hasMixedContent ts)
    (_backfaceCommands ts) (_maximumScreenSpaceError ts) v (_statistics ts)
    (dynamicScreenSpaceErrorDensity ts) (dynamicScreenSpaceErrorFactor ts)
    (dynamicScreenSpaceErrorHeightFalloff ts)
    (_dynamicScreenSpaceErrorComputedDensity ts) (_skipLevelOfDetail ts)
    (tileFailed_numberOfListeners ts) (debugShowGeometricError ts)
    (debugShowRenderingStatistics ts) (debugShowMemoryUsage ts) (debugShowUrl ts)
    (_tileDebugLabels ts).

Definition with_statistics (v : Cesium3DTilesetStatistics) (ts : Tileset) : Tileset :=
  mkTileset (_root ts) (visible ts) (_basePath ts) (_cache ts) (_processingQueue ts)
    (_selectedTiles ts) (_emptyTiles ts) (_requestedTiles ts)
    (_cullWithChildrenBounds ts) (_allTilesAdditive ts) (_hasMixedContent ts)
    (_backfaceCommands ts) (_maximumScreenSpaceError ts) (_maximumMemoryUsage ts) v
    (dynamicScreenSpaceErrorDensity ts) (dynamicScreenSpaceErrorFactor ts)
    (dynamicScreenSpaceErrorHeightFalloff ts)
    (_dynamicScreenSpaceErrorComputedDensity ts) (_skipLevelOfDetail ts)
    (tileFailed_numberOfListeners ts) (debugShowGeometricError ts)
    (debugShowRenderingStatistics ts) (debugShowMemoryUsage ts) (debugShowUrl ts)
    (_tileDebugLabels ts).

Definition with_dynamicScreenSpaceErrorComputedDensity (v : Q) (ts : Tileset) : Tileset :=
  mkTileset (_root ts) (visible ts) (_basePath ts) (_cache ts) (_processingQueue ts)
    (_selectedTiles ts) (_emptyTiles ts) (_requestedTiles ts)
    (_cullWithChildrenBounds ts) (_allTilesAdditive ts) (_hasMixedContent ts)
    (_backfaceCommands ts) (_maximumScreenSpaceError ts) (_maximumMemoryUsage ts)
    (_statistics ts) (dynamicScreenSpaceErrorDensity ts)
    (dynamicScreenSpaceErrorFactor ts) (dynamicScreenSpaceErrorHeightFalloff ts) v
    (_skipLevelOfDetail ts) (tileFailed_numberOfListeners ts)
    (debugShowGeometricError ts) (debugShowRenderingStatistics ts)
    (debugShowMemoryUsage ts) (debugShowUrl ts) (_tileDebugLabels ts).

Definition with_tileDebugLabels (v : bool) (ts : Tileset) : Tileset :=
  mkTileset (_root ts) (visible ts) (_basePath ts) (_cache ts) (_processingQueue ts)
    (_selectedTiles ts) (_emptyTiles ts) (_requestedTiles ts)
    (_cullWithChildrenBounds ts) (_allTilesAdditive ts) (_hasMixedContent ts)
    (_backfaceCommands ts) (_maximumScreenSpaceError ts) (_maximumMemoryUsage ts)
    (_statistics ts) (dynamicScreenSpaceErrorDensity ts)
    (dynamicScreenSpaceErrorFactor ts) (dynamicScreenSpaceErrorHeightFalloff ts)
    (_dynamicScreenSpaceErrorComputedDensity ts) (_skipLevelOfDetail ts)
    (tileFailed_numberOfListeners ts) (debugShowGeometricError ts)
    (debugShowRenderingStatistics ts) (debugShowMemoryUsage ts) (debugShowUrl ts) v.

(** ** The world: the tile store, the tileset, and what has been observed.

    [raised] records, in order, the notifications delivered to listeners,
    the console lines written and the calls made to a tile's own
    [requestContent].  [pendingLog] is a history variable: every
    change of [numberOfPendingRequests] is recorded with the tile whose
    request or continuation made it. *)

Inductive Notification :=
| TileLoad (tile : TileRef)
| TileUnload (tile : TileRef)
| TileFailed (url message : string)
| TileVisible (tile : TileRef)
| ConsoleLog (line : string)
| RequestIssued (tile : TileRef) (granted : bool).

Record World := mkWorld {
  tiles : TileRef -> Tile;
  tileset : Tileset;
  raised : list Notification;
  pendingLog : list (TileRef * Z)
}.

Definition with_tileset (f : Tileset -> Tileset) (w : World) : World :=
  mkWorld (tiles w) (f (tileset w)) (raised w) (pendingLog w).

Definition with_tile (t : TileRef) (f : Tile -> Tile) (w : World) : World :=
  mkWorld (fun r => if Nat.eqb r t then f (tiles w r) else tiles w r)
    (tileset w) (raised w) (pendingLog w).

Definition raiseEvent (n : Notification) (w : World) : World :=
  mkWorld (tiles w) (tileset w) (raised w ++ [n]) (pendingLog w).

Definition with_statistics_of
    (f : Cesium3DTilesetStatistics -> Cesium3DTilesetStatistics) (w : World) : World :=
  with_tileset (fun ts => with_statistics (f (_statistics ts)) ts) w.

(** [++statistics.numberOfPendingRequests] and its decrement, made on
    behalf of tile [t]. *)
Definition changePendingRequests (t : TileRef) (d : Z) (w : World) : World :=
  let w' := with_statistics_of (add_numberOfPendingRequests d) w in
  mkWorld (tiles w') (tileset w') (raised w') (pendingLog w' ++ [(t, d)]).

(** ** What the frame and the collaborators supply. *)

Record FrameState := mkFrameState {
  frameNumber : nat;
  commandList : list Command;
  context_stencilBuffer : bool
}.

Definition with_commandList (l : list Command) (fs : FrameState) : FrameState :=
  mkFrameState (frameNumber fs) l (context_stencilBuffer fs).

Record LoadError := mkLoadError {
  error_message : option string;
  error_toString : string
}.

(** Modelled from the spec: what one traversal hands back (sections 2 and
    4.2): the tiles to request with their priority scalars, the selected
    and the empty tiles, the tiles it touched in the cache, the tiles it
    found expired, and whether it saw mixed content. *)
Record TraversalResult := mkTraversalResult {
  tr_requested : list (TileRef * Q);
  tr_selected : list TileRef;
  tr_empty : list TileRef;
  tr_touched : list TileRef;
  tr_expired : list TileRef;
  tr_hasMixedContent : bool
}.

Inductive ProcessOutcome :=
| StillProcessing
| ContentComplete (c : Content)
| ContentError (e : LoadError).

(** The decisions taken outside Tileset.js: the traversal, the request
    layer's concurrency cap, the content processor, the commands a
    tile's update submits (front-face commands pushed on the frame's
    command list, back-face commands pushed on the tileset's list), and
    the listeners of the tile-loaded event, which are code of the
    application and may throw: [tileLoadListener] gives what a listener
    throws, if one does. *)
Record Collaborators := mkCollaborators {
  traverse : World -> FrameState -> TraversalResult;
  requestSlotFree : World -> TileRef -> bool;
  processOutcome : World -> FrameState -> TileRef -> ProcessOutcome;
  tileUpdate : World -> FrameState -> TileRef -> list Command * list Command;
  tileLoadListener : World -> TileRef -> option LoadError
}.

(* ===================================================================== *)
(** * The load pipeline                                                   *)
(* ===================================================================== *)

(** [Array.prototype.indexOf] on an array of tile references. *)
Fixpoint indexOfFrom (l : list TileRef) (t : TileRef) (i : Z) : Z :=
  match l with
  | [] => -1
  | x :: l' => if Nat.eqb x t then i else indexOfFrom l' t (i + 1)
  end.

Definition indexOf (l : list TileRef) (t : TileRef) : Z := indexOfFrom l t 0.

(** [addToProcessingQueue(tileset, tile)], the returned closure. *)
Definition addToProcessingQueue (tile : TileRef) (w : World) : World :=
  let w := with_tileset
             (fun ts => with_processingQueue (_processingQueue ts ++ [tile]) ts) w in
  let w := changePendingRequests tile (-1) w in
  with_statistics_of (add_numberOfTilesProcessing 1) w.

(** [handleTileSuccess(tileset, tile)], the returned closure: the state
    it leaves, and what it throws when a listener of [tileLoad] throws.
    The event is raised last, so all the bookkeeping is done by then. *)
Definition handleTileSuccess (ext : Collaborators) (tile : TileRef) (w : World)
    : World * option LoadError :=
  let w := with_statistics_of (add_numberOfTilesProcessing (-1)) w in
  let w :=
    if negb (hasTilesetContent (tiles w tile)) then
      let w := with_statistics_of (incrementLoadCounts (content (tiles w tile))) w in
      let w := with_statistics_of (add_numberOfTilesWithContentReady 1) w in
      with_tileset (fun ts => with_cache (Cache_add tile (_cache ts)) ts) w
    else w in
  (raiseEvent (TileLoad tile) w, tileLoadListener ext w tile).

(** [handleTileFailure(tileset, tile)], the returned closure. *)
Definition handleTileFailure (tile : TileRef) (error : LoadError) (w : World) : World :=
  let w :=
    if 0 <=? indexOf (_processingQueue (tileset w)) tile
    then (* Failed during processing *)
      with_statistics_of (add_numberOfTilesProcessing (-1)) w
    else (* Failed when making request *)
      changePendingRequests tile (-1) w in
  let url := _contentResource_url (tiles w tile) in
  let message :=
    match error_message error with
    | Some m => m
    | None => error_toString error
    end in
  if Nat.ltb 0 (tileFailed_numberOfListeners (tileset w))
  then raiseEvent (TileFailed url message) w
  else raiseEvent (ConsoleLog ("Error: " ++ message))
         (raiseEvent (ConsoleLog ("A 3D tile failed to load: " ++ url)) w).

(** How a promise settles, and the call of an attached continuation: the
    state the continuation leaves and what it throws, if it throws. *)
Inductive Settlement :=
| Resolved
| Rejected (error : LoadError).

Definition runContinuation (ext : Collaborators) (how : Settlement) (w : World)
    (c : Continuation) : World * option LoadError :=
  match c, how with
  | AddToProcessingQueue t, _ => (addToProcessingQueue t w, None)
  | HandleTileSuccess t, _ => handleTileSuccess ext t w
  | HandleTileFailure t, Rejected error => (handleTileFailure t error w, None)
  | HandleTileFailure t, Resolved => (w, None)
  end.

(** [promise.then(onFulfilled).otherwise(onRejected)], as line 217 chains
    the two handlers: [otherwise] is attached to the promise that [then]
    returns.  When the promise resolves, [onFulfilled] runs, and if it
    throws, [onRejected] runs with what it threw; when the promise
    rejects, [onRejected] runs alone. *)
Definition settleChain (ext : Collaborators) (how : Settlement) (w : World)
    (chain : Continuation * Continuation) : World :=
  match how with
  | Resolved =>
      let '(w, thrown) := runContinuation ext Resolved w (fst chain) in
      match thrown with
      | Some error => fst (runContinuation ext (Rejected error) w (snd chain))
      | None => w
      end
  | Rejected error => fst (runContinuation ext (Rejected error) w (snd chain))
  end.

(** Modelled from the spec: Tile.requestContent (section 4.1).  It starts
    a load, [UNLOADED -> LOADING] or the forced reload of an [EXPIRED]
    tile, when the request layer has a free slot, and returns false
    otherwise; a started load has fresh promises.  The old content of an
    expired tile stays in place (section 3).  The call and its answer are
    recorded in [raised]. *)
Definition Tile_requestContent (ext : Collaborators) (t : TileRef) (w : World)
    : bool * World :=
  let st := _contentState (tiles w t) in
  let granted :=
    (contentState_eqb st UNLOADED || contentState_eqb st EXPIRED)
    && requestSlotFree ext w t in
  let w := raiseEvent (RequestIssued t granted) w in
  if granted
  then (true, with_tile t (fun x => with_promises [] [] (with_contentState LOADING x)) w)
  else (false, w).

(** [requestContent(tileset, tile)] *)
Definition requestContent (ext : Collaborators) (tile : TileRef) (w : World) : World :=
  if hasEmptyContent (tiles w tile) then w
  else
    let expired := contentExpired (tiles w tile) in
    let '(requested, w) := Tile_requestContent ext tile w in
    if negb requested then
      with_statistics_of (add_numberOfAttemptedRequests 1) w
    else
      let w :=
        if expired then
          if hasTilesetContent (tiles w tile) then
            (* //destroySubtree(tileset, tile); *)
            w
          else
            let w := with_statistics_of (decrementLoadCounts (content (tiles w tile))) w in
            with_statistics_of (add_numberOfTilesWithContentReady (-1)) w
        else w in
      let w := changePendingRequests tile 1 w in
      let w := with_tile tile
                 (fun x => with_promises
                             (contentReadyToProcessPromise x ++ [AddToProcessingQueue tile])
                             (contentReadyPromise x) x) w in
      with_tile tile
        (fun x => with_promises
                    (contentReadyToProcessPromise x)
                    (contentReadyPromise x
                       ++ [(HandleTileSuccess tile, HandleTileFailure tile)]) x) w.

(** [sortRequestByPriority(a, b)] *)
Definition sortRequestByPriority (w : World) (a b : TileRef) : Q :=
  (_priority (tiles w a) - _priority (tiles w b))%Q.

(** [Array.prototype.sort] with a comparator, as a stable insertion sort:
    [x] goes in front of the first [y] with [cmp x y <= 0]. *)
Fixpoint sortInsert (cmp : TileRef -> TileRef -> Q) (x : TileRef) (l : list TileRef)
    : list TileRef :=
  match l with
  | [] => [x]
  | y :: l' =>
      if Qle_bool (cmp x y) 0 then x :: y :: l' else y :: sortInsert cmp x l'
  end.

Definition Array_sort (cmp : TileRef -> TileRef -> Q) (l : list TileRef) : list TileRef :=
  List.fold_right (sortInsert cmp) [] l.

(** [requestTiles(tileset)] *)
Definition requestTiles (ext : Collaborators) (w : World) : World :=
  let length := length (_requestedTiles (tileset w)) in
  let w := with_tileset
             (fun ts => with_requestedTiles
                          (Array_sort (sortRequestByPriority w) (_requestedTiles ts)) ts) w in
  forUpTo length 0
    (fun i w =>
       match _requestedTiles (tileset w) !! i with
       | Some tile => requestContent ext tile w
       | None => w
       end) w.

(** One iteration of the compaction loop of [filterProcessingQueue], on
    the array and [removeCount]. *)
Definition filterStep (w : World) (i : nat) (st : list TileRef * nat)
    : list TileRef * nat :=
  let '(tiles_, removeCount) := st in
  match tiles_ !! i with
  | Some tile =>
      if negb (contentState_eqb (_contentState (tiles w tile)) PROCESSING)
      then (tiles_, S removeCount)
      else if Nat.ltb 0 removeCount
      then (<[(i - removeCount)%nat := tile]> tiles_, removeCount)
      else (tiles_, removeCount)
  | None => (tiles_, removeCount)
  end.

(** [filterProcessingQueue(tileset)] *)
Definition filterProcessingQueue (w : World) : World :=
  let tiles_ := _processingQueue (tileset w) in
  let length := length tiles_ in
  let '(tiles_, removeCount) := forUpTo length 0 (filterStep w) (tiles_, O) in
  with_tileset
    (fun ts => with_processingQueue
                 (take (List.length tiles_ - removeCount)%nat tiles_) ts) w.

(** The same by the obvious filter. *)
Definition isProcessing (w : World) (t : TileRef) : bool :=
  contentState_eqb (_contentState (tiles w t)) PROCESSING.

Definition filterProcessingQueue_naive (w : World) : World :=
  with_tileset
    (fun ts => with_processingQueue (List.filter (isProcessing w) (_processingQueue ts)) ts) w.

(** ** Completions of a load, on the tile's side. *)

(** Modelled from the spec: the first completion point (sections 4.3 and
    6).  Raw content arrives for a [LOADING] tile: the tile becomes
    [PROCESSING] and the ready-to-process promise resolves. *)
Definition contentAvailable (ext : Collaborators) (t : TileRef) (w : World) : World :=
  let w := with_tile t (with_contentState PROCESSING) w in
  fold_left (fun w c => fst (runContinuation ext Resolved w c))
    (contentReadyToProcessPromise (tiles w t)) w.

(** Modelled from the spec: the second completion point, success
    (section 4.1).  The tile becomes [READY] with its new content and the
    ready promise resolves. *)
Definition contentReady (ext : Collaborators) (t : TileRef) (c : Content) (w : World)
    : World :=
  let w := with_tile t (fun x => with_content c (with_contentState READY x)) w in
  fold_left (settleChain ext Resolved) (contentReadyPromise (tiles w t)) w.

(** Modelled from the spec: failure of a load, in flight or in processing
    (sections 3 and 4.1), cancellation by the request layer included
    (section 5).  The tile becomes [FAILED] and both promises reject; the
    ready-to-process promise has no rejection callback attached. *)
Definition contentFailed (ext : Collaborators) (t : TileRef) (error : LoadError)
    (w : World) : World :=
  let w := with_tile t (with_contentState FAILED) w in
  fold_left (settleChain ext (Rejected error)) (contentReadyPromise (tiles w t)) w.

(** Modelled from the spec: Tile.process (section 4.1) advances a
    [PROCESSING] tile, completing or failing it when the content processor
    says so. *)
Definition Tile_process (ext : Collaborators) (fs : FrameState) (t : TileRef)
    (w : World) : World :=
  if contentState_eqb (_contentState (tiles w t)) PROCESSING then
    match processOutcome ext w fs t with
    | StillProcessing => w
    | ContentComplete c => contentReady ext t c w
    | ContentError e => contentFailed ext t e w
    end
  else w.

(** [processTiles(tileset, frameState)] *)
Definition processTiles (ext : Collaborators) (fs : FrameState) (w : World) : World :=
  let w := filterProcessingQueue w in
  let length := length (_processingQueue (tileset w)) in
  forUpTo length 0
    (fun i w =>
       match _processingQueue (tileset w) !! i with
       | Some tile => Tile_process ext fs tile w
       | None => w
       end) w.

(** ** Eviction. *)

(** Modelled from the spec: Tile.unloadContent releases the content and
    returns the tile to [UNLOADED] (section 8, round trip). *)
Definition Tile_unloadContent (t : TileRef) (w : World) : World :=
  with_tile t (fun x => with_content (mkContent 0 0 0) (with_contentState UNLOADED x)) w.

(** [unloadTile(tileset, tile)] *)
Definition unloadTile (tile : TileRef) (w : World) : World :=
  let w := raiseEvent (TileUnload tile) w in
  let w := with_statistics_of (decrementLoadCounts (content (tiles w tile))) w in
  let w := with_statistics_of (add_numberOfTilesWithContentReady (-1)) w in
  Tile_unloadContent tile w.

(** [get totalMemoryUsageInBytes()] *)
Definition totalMemoryUsageInBytes (ts : Tileset) : Z :=
  let statistics := _statistics ts in
  stat_texturesByteLength statistics + stat_geometryByteLength statistics
  + stat_batchTableByteLength statistics.

Definition overBudget (w : World) : bool :=
  Qlt_bool (_maximumMemoryUsage (tileset w))
    (inject_Z (totalMemoryUsageInBytes (tileset w))).

Definition touchedThisFrame (c : Cesium3DTilesetCache) (e : CacheEntry) : bool :=
  Nat.leb (cacheFrame c) (lastTouched e).

(** Modelled from the spec: the eviction policy of section 4.4.  While the
    resident bytes exceed the budget and the least-recently-used entry was
    not touched in the current frame, that entry leaves the cache and the
    unload callback runs on its tile. *)
Fixpoint Cache_unloadTiles_from (candidates : list CacheEntry)
    (unloadCallback : TileRef -> World -> World) (w : World) : World :=
  match candidates with
  | [] => w
  | e :: rest =>
      if overBudget w && negb (touchedThisFrame (_cache (tileset w)) e) then
        let w := with_tileset
                   (fun ts => with_cache (Cache_remove (cachedTile e) (_cache ts)) ts) w in
        Cache_unloadTiles_from rest unloadCallback (unloadCallback (cachedTile e) w)
      else w
  end.

Definition Cache_unloadTiles (unloadCallback : TileRef -> World -> World) (w : World)
    : World :=
  Cache_unloadTiles_from (entries (_cache (tileset w))) unloadCallback w.

(** [unloadTiles(tileset)] *)
Definition unloadTiles (w : World) : World :=
  Cache_unloadTiles unloadTile w.

(** What the claim on eviction asks of the state a frame leaves behind:
    under budget, or the least-recently-used entry was touched this frame
    (so only this-frame-touched tiles remain). *)
Definition evictionSettled (w : World) : Prop :=
  overBudget w = false \/
  match entries (_cache (tileset w)) with
  | [] => True
  | e :: _ => touchedThisFrame (_cache (tileset w)) e = true
  end.

(** ** The frame update. *)

Definition expireTile (w : World) (t : TileRef) : World :=
  with_tile t
    (fun x => if contentState_eqb (_contentState x) READY
              then with_contentState EXPIRED x else x) w.

Definition pushRequested (w : World) (r : TileRef * Q) : World :=
  let w := with_tile (fst r) (with_priority (snd r)) w in
  with_tileset (fun ts => with_requestedTiles (_requestedTiles ts ++ [fst r]) ts) w.

(** Modelled from the spec: Cesium3DTilesetTraversal.selectTiles
    (sections 2 and 4.2).  The traversal tells the cache which frame it is,
    marks the tiles it found expired, touches the tiles it used, leaves the
    selected and the empty tiles on the tileset, and appends the tiles to
    request, each with its priority. *)
Definition selectTiles (ext : Collaborators) (fs : FrameState) (w : World) : World :=
  let r := traverse ext w fs in
  let w := with_tileset
             (fun ts => with_cache (Cache_startFrame (frameNumber fs) (_cache ts)) ts) w in
  let w := fold_left expireTile (tr_expired r) w in
  let w := fold_left
             (fun w t => with_tileset (fun ts => with_cache (Cache_touch t (_cache ts)) ts) w)
             (tr_touched r) w in
  let w := with_tileset
             (fun ts => with_hasMixedContent (tr_hasMixedContent r)
                          (with_emptyTiles (tr_empty r)
                             (with_selectedTiles (tr_selected r) ts))) w in
  fold_left pushRequested (tr_requested r) w.

(** [get ready()] *)
Definition ready (ts : Tileset) : bool :=
  match _root ts with Some _ => true | None => false end.

(** [updateFixedFrame(frameState)].  The calls to [updateTiles] and
    [unloadTiles] are commented out in the source. *)
Definition updateFixedFrame (ext : Collaborators) (fs : FrameState) (w : World) : World :=
  if negb (ready (tileset w)) || negb (visible (tileset w)) then w
  else
    let outOfCore := true in
    let w := with_tileset (with_requestedTiles []) w in
    let w := selectTiles ext fs w in
    if outOfCore then
      let w := requestTiles ext w in
      processTiles ext fs w
    else w.

(* ===================================================================== *)
(** * updateTiles: the frame's command list                               *)
(* ===================================================================== *)

(** Modelled from the spec: Tile.update submits the tile's draw commands
    (section 6): front-face commands are pushed on the frame's command
    list, back-face commands of unresolved tiles on the tileset's list. *)
Definition Tile_update (ext : Collaborators) (t : TileRef) (st : FrameState * World)
    : FrameState * World :=
  let '(fs, w) := st in
  let '(front, back) := tileUpdate ext w fs t in
  (with_commandList (commandList fs ++ front) fs,
   with_tileset (fun ts => with_backfaceCommands (_backfaceCommands ts ++ back) ts) w).

(** Modelled from the spec: [statistics.incrementSelectionCounts] adds to
    per-frame selection counters (features, points, triangles) that are
    not among the counters of section 3; none of the modelled fields
    changes. *)
Definition incrementSelectionCounts (c : Content) (s : Cesium3DTilesetStatistics)
    : Cesium3DTilesetStatistics := s.

(** The body of the loop over the selected tiles. *)
Definition updateSelectedTile (ext : Collaborators) (tile : TileRef)
    (st : FrameState * World) : FrameState * World :=
  (* Raise the tileVisible event before update *)
  let w := raiseEvent (TileVisible tile) (snd st) in
  let '(fs, w) := Tile_update ext tile (fst st, w) in
  let w := with_statistics_of (incrementSelectionCounts (content (tiles w tile))) w in
  (fs, with_statistics_of (add_selected 1) w).

(** The two copy loops that make room for the back-face commands at
    [lengthBeforeUpdate] and put them there. *)
Definition insertBackfaceCommands (lengthBeforeUpdate addedCommandsLength : nat)
    (backfaceCommands commandList_ : list Command) : list Command :=
  let backfaceCommandsLength := length backfaceCommands in
  let cl := arrayGrow backfaceCommandsLength commandList_ in
  (* copy commands to the back of the commandList *)
  let cl :=
    forDownFrom addedCommandsLength
      (fun i cl =>
         arraySet (lengthBeforeUpdate + backfaceCommandsLength + i)%nat
           (arrayGet cl (lengthBeforeUpdate + i)%nat) cl) cl in
  (* move backface commands to the front of the commandList *)
  forUpTo backfaceCommandsLength 0
    (fun i cl =>
       arraySet (lengthBeforeUpdate + i)%nat (arrayGet backfaceCommands i) cl) cl.

(** [updateTiles(tileset, frameState)] *)
Definition updateTiles (ext : Collaborators) (fs : FrameState) (w : World)
    : FrameState * World :=
  let numberOfInitialCommands := length (commandList fs) in
  let selectedLength := length (_selectedTiles (tileset w)) in
  let emptyLength := length (_emptyTiles (tileset w)) in
  let bivariateVisibilityTest :=
    _skipLevelOfDetail (tileset w) && _hasMixedContent (tileset w)
    && context_stencilBuffer fs && Nat.ltb 0 selectedLength in
  let w := with_tileset (with_backfaceCommands []) w in
  let fs :=
    if bivariateVisibilityTest
    then with_commandList (commandList fs ++ [stencilClearCommand]) fs
    else fs in
  let lengthBeforeUpdate := length (commandList fs) in
  let st :=
    forUpTo selectedLength 0
      (fun i st =>
         match _selectedTiles (tileset (snd st)) !! i with
         | Some tile => updateSelectedTile ext tile st
         | None => st
         end) (fs, w) in
  let st :=
    forUpTo emptyLength 0
      (fun i st =>
         match _emptyTiles (tileset (snd st)) !! i with
         | Some tile => Tile_update ext tile st
         | None => st
         end) st in
  let '(fs, w) := st in
  let lengthAfterUpdate := length (commandList fs) in
  let addedCommandsLength := (lengthAfterUpdate - lengthBeforeUpdate)%nat in
  let fs :=
    if bivariateVisibilityTest then
      with_commandList
        (insertBackfaceCommands lengthBeforeUpdate addedCommandsLength
           (_backfaceCommands (tileset w)) (commandList fs)) fs
    else fs in
  let w := with_statistics_of
             (set_numberOfCommands
                (Z.of_nat (length (commandList fs)) - Z.of_nat numberOfInitialCommands)) w in
  let w :=
    if debugShowGeometricError (tileset w) || debugShowRenderingStatistics (tileset w)
       || debugShowMemoryUsage (tileset w) || debugShowUrl (tileset w)
    then w
    else with_tileset (with_tileDebugLabels false) w in
  (fs, w).

(** The state in which [updateTiles] starts the tile updates, and the
    state the updates of the selected and then of the empty tiles leave. *)
Definition beforeUpdates (fs : FrameState) (w : World) (stencil : bool)
    : FrameState * World :=
  ((if stencil then with_commandList (commandList fs ++ [stencilClearCommand]) fs else fs),
   with_tileset (with_backfaceCommands []) w).

Definition afterUpdates (ext : Collaborators) (fs : FrameState) (w : World)
    (stencil : bool) : FrameState * World :=
  fold_left (fun st tile => Tile_update ext tile st) (_emptyTiles (tileset w))
    (fold_left (fun st tile => updateSelectedTile ext tile st)
       (_selectedTiles (tileset w)) (beforeUpdates fs w stencil)).

(** The condition under which the bivariate visibility test is active. *)
Definition bivariateVisibilityTest (fs : FrameState) (w : World) : bool :=
  _skipLevelOfDetail (tileset w) && _hasMixedContent (tileset w)
  && context_stencilBuffer fs && Nat.ltb 0 (length (_selectedTiles (tileset w))).

(* ===================================================================== *)
(** * loadTileset: building the tile hierarchy                            *)
(* ===================================================================== *)

(** A tile header of the tileset JSON: its [refine] member and its
    [children] member, either of which may be absent. *)
Inductive TileHeader :=
| mkTileHeader (refineName : option string) (headerChildren : option (list TileHeader)).

Definition headerChildren (h : TileHeader) : option (list TileHeader) :=
  match h with mkTileHeader _ c => c end.

Definition childHeaders (h : TileHeader) : list TileHeader :=
  match headerChildren h with Some l => l | None => [] end.

Fixpoint headerSize (h : TileHeader) : nat :=
  match h with
  | mkTileHeader _ None => 1
  | mkTileHeader _ (Some l) =>
      S ((fix sizes (l : list TileHeader) : nat :=
            match l with
            | [] => O
            | c :: l' => (headerSize c + sizes l')%nat
            end) l)
  end.

Definition headersSize (l : list TileHeader) : nat :=
  list_sum (List.map headerSize l).

(** Every header of the hierarchy: the header itself and all headers
    reachable through the children lists. *)
Fixpoint allHeaders (h : TileHeader) : list TileHeader :=
  h :: match h with
       | mkTileHeader _ None => []
       | mkTileHeader _ (Some l) =>
           (fix all (l : list TileHeader) : list TileHeader :=
              match l with
              | [] => []
              | c :: l' => allHeaders c ++ all l'
              end) l
       end.

Record Asset := mkAsset {
  version : string;
  tilesetVersion : option string
}.

Record TilesetJson := mkTilesetJson {
  asset : option Asset;
  root : TileHeader
}.

(** A tile as [loadTileset] sees it: header, refine mode, depth, and
    parent.  The [childrenTile] arrays are kept as the list of
    parent-child links [childrenTileLinks], in push order.  The scene
    graph of THREE.Object3D, which the [add] calls write, is not part of
    the state. *)
Record NewTile := mkNewTile {
  _header : TileHeader;
  refine : Cesium3DTileRefine;
  _depth : Z;
  parent : option nat
}.

Definition with_depth (d : Z) (t : NewTile) : NewTile :=
  mkNewTile (_header t) (refine t) d (parent t).

Record LoadState := mkLoadState {
  arena : list NewTile;
  childrenTileLinks : list (nat * nat);
  loading : Tileset
}.

Section LoadTileset.

(** The Tile constructor decides the refine mode of a new tile from its
    header and its parent; Tile.js is not available, so the decision is a
    parameter. *)
Variable tileRefine : TileHeader -> option NewTile -> Cesium3DTileRefine.

(** [new Tile(this, resource, header, parent)] *)
Definition Tile_new (header : TileHeader) (parentTile : option (nat * NewTile)) : NewTile :=
  mkNewTile header (tileRefine header (snd <$> parentTile)) 0 (fst <$> parentTile).

(** The body of the [for] loop over [children]: create the child, link
    it to [tile], set its depth, push it. *)
Definition pushChild (tile : nat * NewTile) (acc : LoadState * list (nat * NewTile))
    (childHeader : TileHeader) : LoadState * list (nat * NewTile) :=
  let '(st, pushed) := acc in
  let childIndex := length (arena st) in
  let childTile := Tile_new childHeader (Some tile) in
  let childTile := with_depth (_depth (snd tile) + 1) childTile in
  (mkLoadState (arena st ++ [childTile])
     (childrenTileLinks st ++ [(fst tile, childIndex)])
     (loading st),
   pushed ++ [(childIndex, childTile)]).

(** One turn of the [while] loop on the popped [tile]; the second
    component lists the children pushed on the stack, in push order.
    [checkChildrenWithinParent] writes a flag on the tile that is not part
    of this model. *)
Definition loadStep (tile : nat * NewTile) (st : LoadState)
    : LoadState * list (nat * NewTile) :=
  let ts := loading st in
  let ts := with_statistics (add_numberOfTilesTotal 1 (_statistics ts)) ts in
  let ts := with_allTilesAdditive
              (_allTilesAdditive ts && refine_eqb (refine (snd tile)) ADD) ts in
  let st := mkLoadState (arena st) (childrenTileLinks st) ts in
  match headerChildren (_header (snd tile)) with
  | Some children_ => fold_left (pushChild tile) children_ (st, [])
  | None => (st, [])
  end.

Definition stackHeaders (stack : list (nat * NewTile)) : list TileHeader :=
  List.map (fun e => _header (snd e)) stack.

Definition stackSize (stack : list (nat * NewTile)) : nat :=
  headersSize (stackHeaders stack).

Lemma headerSize_children (h : TileHeader) :
  headerSize h = S (headersSize (childHeaders h)).
Proof.
  destruct h as [r [l|]]; unfold childHeaders, headersSize; simpl; [|reflexivity].
  f_equal. induction l as [|c l IH]; simpl; [reflexivity|]. now rewrite IH.
Qed.

Lemma headersSize_app (l1 l2 : list TileHeader) :
  headersSize (l1 ++ l2) = (headersSize l1 + headersSize l2)%nat.
Proof.
  unfold headersSize. rewrite List.map_app.
  induction (List.map headerSize l1) as [|x xs IH]; simpl; [reflexivity|].
  rewrite IH. lia.
Qed.

Lemma headersSize_rev (l : list TileHeader) : headersSize (rev l) = headersSize l.
Proof.
  induction l as [|h l IH]; [reflexivity|].
  simpl rev. rewrite headersSize_app, IH. unfold headersSize. simpl. lia.
Qed.

Lemma pushChild_headers (tile : nat * NewTile) (l : list TileHeader)
    (acc : LoadState * list (nat * NewTile)) :
  stackHeaders (snd (fold_left (pushChild tile) l acc)) = stackHeaders (snd acc) ++ l.
Proof.
  revert acc. induction l as [|h l IH]; intros [st pushed]; simpl.
  - now rewrite List.app_nil_r.
  - rewrite IH. simpl. unfold stackHeaders. rewrite List.map_app. simpl.
    now rewrite <- List.app_assoc.
Qed.

Lemma loadStep_headers (tile : nat * NewTile) (st : LoadState) :
  stackHeaders (snd (loadStep tile st)) = childHeaders (_header (snd tile)).
Proof.
  unfold loadStep, childHeaders.
  destruct (headerChildren (_header (snd tile))) as [l|]; [|reflexivity].
  now rewrite pushChild_headers.
Qed.

Lemma loadStep_decreases (tile : nat * NewTile) (stack : list (nat * NewTile))
    (st : LoadState) :
  (stackSize (rev (snd (loadStep tile st)) ++ stack) < stackSize (tile :: stack))%nat.
Proof.
  unfold stackSize, stackHeaders.
  rewrite List.map_app, List.map_rev, headersSize_app, headersSize_rev.
  fold (stackHeaders (snd (loadStep tile st))). rewrite loadStep_headers.
  simpl. unfold headersSize at 3. simpl. rewrite (headerSize_children (_header tile.2)).
  fold (headersSize (List.map (fun e => _header e.2) stack)). lia.
Qed.

(** The [while (stack.length > 0)] loop.  The stack is kept with its top
    at the head of the list: [stack.pop()] takes the head, and the children
    pushed during a turn end up above the rest, last pushed on top. *)
Equations loadLoop (stack : list (nat * NewTile)) (st : LoadState) : LoadState
    by wf (stackSize stack) lt :=
  loadLoop [] st := st;
  loadLoop (tile :: stack) st :=
    loadLoop (rev (snd (loadStep tile st)) ++ stack) (fst (loadStep tile st)).
Next Obligation. apply loadStep_decreases. Qed.

(** String concatenation converts [undefined] to the string
    ["undefined"]. *)
Definition ToString (s : option string) : string :=
  match s with
  | Some s => s
  | None => "undefined"
  end.

(** [this._basePath += '?v=' + tilesetVersion], when the asset names a
    tileset version. *)
Definition appendTilesetVersion (asset_ : Asset) (st : LoadState) : LoadState :=
  match tilesetVersion asset_ with
  | Some v =>
      mkLoadState (arena st) (childrenTileLinks st)
        (with_basePath (Some (ToString (_basePath (loading st)) ++ "?v=" ++ v)%string)
           (loading st))
  | None => st
  end.

(** The root tile: created under [parentTile] and, when there is a
    parent, one level below it. *)
Definition createRoot (tilesetJson : TilesetJson) (parentTile : option (nat * NewTile))
    : NewTile :=
  let rootTile := Tile_new (root tilesetJson) parentTile in
  match parentTile with
  | Some p => with_depth (_depth (snd p) + 1) rootTile
  | None => rootTile
  end.

Definition attachRoot (rootTile : NewTile) (parentTile : option (nat * NewTile))
    (st : LoadState) : LoadState :=
  mkLoadState (arena st ++ [rootTile])
    (match parentTile with
     | Some p => childrenTileLinks st ++ [(fst p, length (arena st))]
     | None => childrenTileLinks st
     end)
    (loading st).

(** [loadTileset(resource, tilesetJson, parentTile)].  The resource's query
    parameters and the scene graph are outside this model: the calls
    [parentTile.add(rootTile)], [tile.add(childTile)] and, at line 1025,
    [this.add(rootTile)] leave the modelled state as it is. *)
Definition loadTileset (tilesetJson : TilesetJson) (parentTile : option (nat * NewTile))
    (st : LoadState) : Outcome nat LoadState :=
  match asset tilesetJson with
  | None => Thrown (RuntimeError "Tileset must have an asset property.") st
  | Some asset_ =>
      if negb (String.eqb (version asset_) "0.0") && negb (String.eqb (version asset_) "1.0")
      then Thrown (RuntimeError "The tileset must be 3D Tiles version 0.0 or 1.0.") st
      else
        let st := appendTilesetVersion asset_ st in
        let rootIndex := length (arena st) in
        let rootTile := createRoot tilesetJson parentTile in
        let st := attachRoot rootTile parentTile st in
        Returned rootIndex (loadLoop [(rootIndex, rootTile)] st)
  end.

End LoadTileset.

(* ===================================================================== *)
(** * Dynamic screen-space error                                          *)
(* ===================================================================== *)

(** The names bound in the module Tileset.js: its imports (lines 1 to 20)
    and the functions, the variable and the class it declares at its top
    level. *)
Definition Tileset_js_scope : list string :=
  ["THREE"; "when"; "defined"; "defaultValue"; "Fetcher"; "RuntimeError"; "Tile";
   "Resource"; "Event"; "Cesium3DTilesetCache"; "ManagedArray";
   "Cesium3DTilesetStatistics"; "Cesium3DTileRefine"; "Axis";
   "Cesium3DTilesetTraversal"; "DeveloperError"; "Cesium3DTileOptimizations";
   "Cesium3DTileContentState"; "Check"; "ClearCommand";
   "updateDynamicScreenSpaceError"; "sortRequestByPriority"; "requestTiles";
   "processTiles"; "filterProcessingQueue"; "addToProcessingQueue";
   "handleTileSuccess"; "handleTileFailure"; "requestContent";
   "stencilClearCommand"; "updateTiles"; "unloadTile"; "destroyTile";
   "unloadTiles"; "Tileset"]%string.

(** [updateDynamicScreenSpaceError(tileset, frameState)].  The function
    reads [tileset._root.contentBoundingVolume] (line 32) and then
    evaluates [tileBoundingVolume instanceof TileBoundingRegion]
    (line 34).  [fromLine35] stands for the rest of the body, lines 35 to
    92, whatever it does once line 34 has not thrown. *)
Definition updateDynamicScreenSpaceError (fromLine35 : Tileset -> Outcome unit Tileset)
    (ts : Tileset) : Outcome unit Tileset :=
  match _root ts with
  | None =>
      Thrown (TypeError "Cannot read properties of undefined (reading 'contentBoundingVolume')")
        ts
  | Some root_ =>
      match resolveIdentifier Tileset_js_scope "TileBoundingRegion" with
      | Some e => Thrown e ts
      | None => fromLine35 ts
      end
  end.

(* ===================================================================== *)
(** * Configuration setters                                               *)
(* ===================================================================== *)

(** Modelled from the spec: Check.js is not among the available sources.
    [Check.typeOf.number.greaterThanOrEquals(name, test, limit)] is a
    precondition check (section 7): it throws a DeveloperError when the
    number is below the limit and does nothing otherwise. *)
Definition Check_typeOf_number_greaterThanOrEquals (name : string) (test limit : Q)
    : option JSError :=
  if Qlt_bool test limit
  then Some (DeveloperError
               ("Expected " ++ name ++ " to be greater than or equal to the limit"))
  else None.

(** [set maximumScreenSpaceError(value)] *)
Definition set_maximumScreenSpaceError (value : Q) (ts : Tileset) : Outcome unit Tileset :=
  match Check_typeOf_number_greaterThanOrEquals "maximumScreenSpaceError" value 0 with
  | Some e => Thrown e ts
  | None => Returned tt (with_maximumScreenSpaceError value ts)
  end.

(** [set maximumMemoryUsage(value)] *)
Definition set_maximumMemoryUsage (value : Q) (ts : Tileset) : Outcome unit Tileset :=
  match Check_typeOf_number_greaterThanOrEquals "value" value 0 with
  | Some e => Thrown e ts
  | None => Returned tt (with_maximumMemoryUsage value ts)
  end.

(** [get maximumScreenSpaceError()] and [get maximumMemoryUsage()] *)
Definition get_maximumScreenSpaceError (ts : Tileset) : Q := _maximumScreenSpaceError ts.
Definition get_maximumMemoryUsage (ts : Tileset) : Q := _maximumMemoryUsage ts.

(* ===================================================================== *)
(** * A freshly constructed tileset                                       *)
(* ===================================================================== *)

(** [new Tileset({})]: the constructor's defaults.  The root is undefined
    until [loadTileset] has run; [visible] is the scene-graph default. *)
Definition Tileset_new : Tileset :=
  mkTileset None true None (mkCache [] 0) [] [] [] [] true true false []
    16 512 emptyStatistics (278 # 100000) 4 (1 # 4) 0 true 0
    false false false false false.

Definition defaultTile : Tile :=
  mkTile false false UNLOADED 0 (mkContent 0 0 0) "" [] [] [].

(** A world around a tileset whose hierarchy has been loaded: every tile
    unloaded, nothing observed yet. *)
Definition World_new (tiles_ : TileRef -> Tile) : World :=
  mkWorld tiles_
    (mkTileset (Some O) true (Some ""%string) (mkCache [] 0) [] [] [] [] true true false []
       16 512 emptyStatistics (278 # 100000) 4 (1 # 4) 0 true 0
       false false false false false)
    [] [].

(** The tiles whose own [requestContent] was called, in call order. *)
Definition issuedRequests (log : list Notification) : list TileRef :=
  flat_map (fun n => match n with RequestIssued t _ => [t] | _ => [] end) log.

(** Ascending order of the priority scalars held in the world [w]. *)
Definition priorityLe (w : World) (a b : TileRef) : Prop :=
  (_priority (tiles w a) <= _priority (tiles w b))%Q.

(* ===================================================================== *)
(** * Runs of the pipeline and the accounting of pending requests         *)
(* ===================================================================== *)

(** One step of a run: a frame update, or one of the completions of a
    load arriving between frames. *)
Inductive Step (ext : Collaborators) : World -> World -> Prop :=
| step_frame (w : World) (fs : FrameState) :
    Step ext w (updateFixedFrame ext fs w)
| step_available (w : World) (t : TileRef) :
    _contentState (tiles w t) = LOADING ->
    Step ext w (contentAvailable ext t w)
| step_ready (w : World) (t : TileRef) (c : Content) :
    _contentState (tiles w t) = PROCESSING ->
    Step ext w (contentReady ext t c w)
| step_failed (w : World) (t : TileRef) (error : LoadError) :
    _contentState (tiles w t) = LOADING \/ _contentState (tiles w t) = PROCESSING ->
    Step ext w (contentFailed ext t error w).

(** The worlds a run can reach from a freshly loaded tileset whose tiles
    are all unloaded. *)
Inductive Reachable (ext : Collaborators) : World -> Prop :=
| reach_new (tiles_ : TileRef -> Tile) :
    (forall t, _contentState (tiles_ t) = UNLOADED) ->
    Reachable ext (World_new tiles_)
| reach_step (w w' : World) :
    Reachable ext w -> Step ext w w' -> Reachable ext w'.

(** Readings of the history variable: how often the pending-request
    counter went up, and how often it went down, on behalf of tile [t]. *)
Definition changesOf (t : TileRef) (d : Z) (log : list (TileRef * Z)) : nat :=
  length (List.filter (fun e => Nat.eqb (fst e) t && Z.eqb (snd e) d) log).

Definition pendingIncrements (t : TileRef) (w : World) : nat :=
  changesOf t 1 (pendingLog w).

Definition pendingDecrements (t : TileRef) (w : World) : nat :=
  changesOf t (-1) (pendingLog w).

(** 1 while a request of the tile is in flight, 0 otherwise. *)
Definition inFlight (w : World) (t : TileRef) : nat :=
  if contentState_eqb (_contentState (tiles w t)) LOADING then 1%nat else 0%nat.

Definition logTotal (log : list (TileRef * Z)) : Z :=
  fold_right Z.add 0 (List.map snd log).

Definition stateOf (w : World) (t : TileRef) : Cesium3DTileContentState :=
  _contentState (tiles w t).

Definition queueOf (w : World) : list TileRef := _processingQueue (tileset w).

Definition pendingOf (w : World) : Z :=
  numberOfPendingRequests (_statistics (tileset w)).

Definition inQueue (w : World) (t : TileRef) : bool :=
  0 <=? indexOf (queueOf w) t.

(** The invariant of a run between its steps.  [queueAgrees] is the part
    that a frame breaks while it issues requests and restores when it
    filters the processing queue. *)
Definition promisesAttached (w : World) : Prop :=
  forall t,
    (stateOf w t = LOADING ->
       contentReadyToProcessPromise (tiles w t) = [AddToProcessingQueue t]
       /\ contentReadyPromise (tiles w t) = [(HandleTileSuccess t, HandleTileFailure t)])
    /\ (stateOf w t = PROCESSING ->
          contentReadyPromise (tiles w t) = [(HandleTileSuccess t, HandleTileFailure t)]).

Definition accountsBalanced (w : World) : Prop :=
  (forall t, pendingIncrements t w = (pendingDecrements t w + inFlight w t)%nat)
  /\ pendingOf w = logTotal (pendingLog w).

Definition processingQueued (w : World) : Prop :=
  forall t, stateOf w t = PROCESSING -> inQueue w t = true.

Definition loadingNotQueued (w : World) : Prop :=
  forall t, stateOf w t = LOADING -> inQueue w t = false.

Definition duringFrame (w : World) : Prop :=
  processingQueued w /\ promisesAttached w /\ accountsBalanced w.

Definition betweenSteps (w : World) : Prop :=
  loadingNotQueued w /\ duringFrame w.

(** Two worlds that the invariant cannot tell apart. *)
Definition phase (s : Cesium3DTileContentState) : option bool :=
  match s with
  | LOADING => Some true
  | PROCESSING => Some false
  | _ => None
  end.

Definition samePipeline (w w' : World) : Prop :=
  queueOf w' = queueOf w
  /\ pendingLog w' = pendingLog w
  /\ pendingOf w' = pendingOf w
  /\ forall t,
       phase (stateOf w' t) = phase (stateOf w t)
       /\ contentReadyToProcessPromise (tiles w' t) = contentReadyToProcessPromise (tiles w t)
       /\ contentReadyPromise (tiles w' t) = contentReadyPromise (tiles w t).

(** The array of [filterProcessingQueue] after the first [i] turns of its
    loop: the kept tiles, then [removeCount] stale slots, then the part
    not yet visited. *)
Definition compacted (w : World) (l : list TileRef) (i : nat)
    (st : list TileRef * nat) : Prop :=
  exists junk,
    fst st = List.filter (isProcessing w) (take i l) ++ junk ++ drop i l
    /\ length junk = snd st
    /\ (length (List.filter (isProcessing w) (take i l)) + snd st = i)%nat.

(** Auxiliary readings used by the statements below. *)
Definition isAdditive (t : NewTile) : bool := refine_eqb (refine t) ADD.

Definition descendantHeaders (h : TileHeader) : list TileHeader :=
  flat_map allHeaders (childHeaders h).


(** When [requestContent] gets its request through: the tile has content
    to load, is unloaded or expired, and the request layer has a slot. *)
Definition requestGranted (ext : Collaborators) (t : TileRef) (w : World) : bool :=
  negb (hasEmptyContent (tiles w t))
  && ((contentState_eqb (stateOf w t) UNLOADED || contentState_eqb (stateOf w t) EXPIRED)
      && requestSlotFree ext w t).

(** The tile-unloaded notifications among what was observed. *)
Definition unloadNotifications (log : list Notification) : list TileRef :=
  flat_map (fun n => match n with TileUnload t => [t] | _ => [] end) log.

(** [w'] shows no trace of an eviction since [w]: no tile-unloaded
    notification was added, every tile resident in the cache still is, and
    no tile returned to [UNLOADED]. *)
Definition nothingEvicted (w w' : World) : Prop :=
  unloadNotifications (raised w') = unloadNotifications (raised w)
  /\ (forall t, Cache_contains t (_cache (tileset w)) = true ->
                Cache_contains t (_cache (tileset w')) = true)
  /\ (forall t, stateOf w' t = UNLOADED -> stateOf w t = UNLOADED).

(* ===================================================================== *)
(** * Scenarios                                                           *)
(* ===================================================================== *)

Module Scenario.

(** A tileset of two tiles.  Tile 0 has content of 1000 bytes to load;
    the traversal asks for it in frame 1 and touches nothing afterwards;
    the request layer always has a slot; processing completes at once. *)
Definition tiles0 : TileRef -> Tile :=
  fun t => mkTile false false UNLOADED 0 (mkContent 0 0 0) "tiles/0.b3dm" [] [] [].

Definition ext : Collaborators :=
  mkCollaborators
    (fun w fs =>
       if Nat.eqb (frameNumber fs) 1
       then mkTraversalResult [(0%nat, 5%Q)] [] [] [] [] false
       else mkTraversalResult [] [] [] [] [] false)
    (fun w t => true)
    (fun w fs t => ContentComplete (mkContent 600 400 0))
    (fun w fs t => ([DrawCommand t 0%nat], [DrawCommand t 1%nat]))
    (fun w t => None).

Definition frame (n : nat) : FrameState := mkFrameState n [] true.

(** Frame 1 requests tile 0; its raw content arrives; frame 2 completes
    it, which makes it resident. *)
Definition resident : World :=
  updateFixedFrame ext (frame 2)
    (contentAvailable ext 0%nat (updateFixedFrame ext (frame 1) (World_new tiles0))).


(** A frame with three selected tiles while skip-LOD sees mixed content. *)
Definition mixed : World :=
  with_tileset
    (fun ts => with_hasMixedContent true (with_selectedTiles [3%nat; 4%nat; 7%nat] ts))
    (World_new tiles0).

Definition drawing : FrameState :=
  mkFrameState 9 [DrawCommand 100%nat 0%nat] true.

(** A tileset JSON: an additive root with an additive child and a child
    that replaces, the latter with a child that names no refine mode. *)
Definition json : TilesetJson :=
  mkTilesetJson (Some (mkAsset "1.0" None))
    (mkTileHeader (Some "ADD"%string)
       (Some [mkTileHeader (Some "ADD"%string) None;
              mkTileHeader (Some "REPLACE"%string) (Some [mkTileHeader None None])])).

(** A refine rule for the scenario: the header's own mode when it names
    one, else the parent's, else [REPLACE]. *)
Definition refineRule (h : TileHeader) (p : option NewTile) : Cesium3DTileRefine :=
  match h with
  | mkTileHeader (Some name) _ => if String.eqb name "ADD" then ADD else REPLACE
  | mkTileHeader None _ => match p with Some t => refine t | None => REPLACE end
  end.

Definition emptyLoadState : LoadState := mkLoadState [] [] Tileset_new.

(** Five tiles: tile [t] has priority [7 - 2t] for even [t] and [t] for
    odd [t]; tile 3 has empty content; tiles 1 and 4 are in processing.
    The requested list and the processing queue are out of order. *)
Definition busy : World :=
  mkWorld
    (fun t =>
       mkTile (Nat.eqb t 3) false
         (if Nat.eqb t 1 || Nat.eqb t 4 then PROCESSING else UNLOADED)
         (if Nat.even t then 7 - 2 * inject_Z (Z.of_nat t) else inject_Z (Z.of_nat t))
         (mkContent 0 0 0) "tiles/n.b3dm" [] [] [])
    (with_processingQueue [2%nat; 1%nat; 0%nat; 4%nat; 3%nat]
       (with_requestedTiles [0%nat; 3%nat; 2%nat; 1%nat]
          (tileset (World_new tiles0))))
    [] [].

End Scenario.
(* ===================================================================== *)
(** * createTileJsonIndex: numbering the nodes of the tileset JSON        *)
(* ===================================================================== *)

(** [for (const x of array) body], with the position of [x] at hand. *)
Fixpoint forOf {A St : Type} (body : nat -> A -> St -> St) (l : list A) (i : nat)
    (s : St) : St :=
  match l with
  | [] => s
  | x :: rest => forOf body rest (S i) (body i x s)
  end.

(** A node object of the tileset JSON is referred to by its place in the
    document: the positions in the [children] arrays on the way down from
    the root. *)
Definition NodeRef := list nat.

(** What [createTileJsonIndex] reads and writes: the closure variable
    [counter], the object [this.tileIndex.index] used as a map from
    number to node, and the members [tileId] and [baseUrl] of the node
    objects. *)
Record TileJsonIndex := mkTileJsonIndex {
  counter : nat;
  index : gmap nat NodeRef;
  node_tileId : gmap NodeRef nat;
  node_baseUrl : gmap NodeRef string
}.

(** The four statements at the head of [recurse]:
    [index[counter] = node; node.tileId = counter; node.baseUrl = baseUrl;
    counter ++]. *)
Definition visitNode (baseUrl : string) (node : NodeRef) (s : TileJsonIndex)
    : TileJsonIndex :=
  mkTileJsonIndex (S (counter s))
    (<[counter s := node]> (index s))
    (<[node := counter s]> (node_tileId s))
    (<[node := baseUrl]> (node_baseUrl s)).

(** [recurse(node, baseUrl)], on the node [header] found at [node]. *)
Fixpoint recurse (baseUrl : string) (header : TileHeader) (node : NodeRef)
    (s : TileJsonIndex) : TileJsonIndex :=
  let s := visitNode baseUrl node s in
  match header with
  | mkTileHeader _ (Some children) =>
      forOf (fun i child s => recurse baseUrl child (node ++ [i]) s) children 0%nat s
  | mkTileHeader _ None => s
  end.

(** What a call of [createTileJsonIndex] finds and leaves: the member
    [tileIndex] of the tileset, undefined or an object whose [index]
    member is the map, and the members [tileId] and [baseUrl] of the node
    objects. *)
Record IndexedJson := mkIndexedJson {
  tileIndex : option (gmap nat NodeRef);
  json_tileId : gmap NodeRef nat;
  json_baseUrl : gmap NodeRef string
}.

(** The tileset as the constructor leaves it: the assignment of
    [this.tileIndex] is inside a comment (lines 349 to 366), so the member
    is undefined; no node has been written. *)
Definition IndexedJson_new : IndexedJson := mkIndexedJson None ∅ ∅.

(** [createTileJsonIndex(tilesetJson, baseUrl)].  Line 1038 reads
    [this.tileIndex.index] before anything is written, which throws a
    TypeError when [this.tileIndex] is undefined. *)
Definition createTileJsonIndex (tilesetJson : TilesetJson) (baseUrl : string)
    (s : IndexedJson) : Outcome unit IndexedJson :=
  match tileIndex s with
  | None => Thrown (TypeError "Cannot read properties of undefined (reading 'index')") s
  | Some index_ =>
      let r := recurse baseUrl (root tilesetJson) []
                 (mkTileJsonIndex 0 index_ (json_tileId s) (json_baseUrl s)) in
      Returned tt (mkIndexedJson (Some (index r)) (node_tileId r) (node_baseUrl r))
  end.

(** The nodes of a document in depth-first order, a node before its
    children and the children in array order. *)
Fixpoint preorder (header : TileHeader) (node : NodeRef) : list NodeRef :=
  node :: match header with
          | mkTileHeader _ (Some children) =>
              forOf (fun i child acc => acc ++ preorder child (node ++ [i]))
                children 0%nat []
          | mkTileHeader _ None => []
          end.

(** The same for the children of [node] from position [i] on. *)
Definition childrenPreorder (node : NodeRef) (children : list TileHeader) (i : nat)
    : list NodeRef :=
  forOf (fun i child acc => acc ++ preorder child (node ++ [i])) children i [].

(* ===================================================================== *)
(** * Batched3DModel3DTileContent.js: createFeatures                      *)
(* ===================================================================== *)

(** The names bound in the module Batched3DModel3DTileContent.js: its
    imports (lines 1 to 8) and its top-level declarations. *)
Definition Batched3DModel3DTileContent_js_scope : list string :=
  ["defined"; "defaultValue"; "RuntimeError"; "getStringFromTypedArray";
   "Cesium3DTileFeatureTable"; "B3DMLoader"; "GLTFLoader"; "GLFTModel";
   "sizeOfUint32"; "b3dmLoader"; "getBatchIdAttributeName";
   "getVertexShaderCallback"; "getFragmentShaderCallback"; "getPickIdCallback";
   "getClassificationFragmentShaderCallback"; "createColorChangedCallback";
   "initialize"; "createFeatures"; "Batched3DModel3DTileContent"]%string.

(** [new Cesium3DTileFeature(content, batchId)], for the content at
    hand. *)
Inductive Cesium3DTileFeature :=
| mkCesium3DTileFeature (batchId : nat).

(** A number of JavaScript: a finite one, as a rational, or one of the
    three that are not. *)
Inductive JSNumber :=
| Finite (q : Q)
| NaN
| PositiveInfinity
| NegativeInfinity.

(** The members of a content object that [createFeatures] reads and
    writes.  [featuresLength] is a number, or undefined on an object that
    does not provide it; a slot of [_features] is [None] while it is a
    hole of [new Array(n)]. *)
Record Batched3DModel3DTileContent := mkBatched3DModel3DTileContent {
  featuresLength : option JSNumber;
  _features : option (list (option Cesium3DTileFeature))
}.

(** [defined(value)]: neither undefined nor null. *)
Definition defined {A : Type} (value : option A) : bool :=
  match value with
  | Some _ => true
  | None => false
  end.

(** [featuresLength > 0]: undefined converts to NaN, and no comparison
    with NaN holds. *)
Definition greaterThanZero (v : option JSNumber) : bool :=
  match v with
  | Some (Finite q) => Qlt_bool 0 q
  | Some PositiveInfinity => true
  | Some NaN | Some NegativeInfinity | None => false
  end.

(** [new Array(len)] with a number [len]: an array of [len] holes, or a
    RangeError unless [len] is an integer from 0 to 2^32 - 1. *)
Definition validArrayLength (len : Q) : bool :=
  Pos.eqb (Qden (Qred len)) 1
  && (0 <=? Qnum (Qred len)) && (Qnum (Qred len) <? 2 ^ 32).

Definition Array_new (len : option JSNumber)
    : JSError + list (option Cesium3DTileFeature) :=
  match len with
  | Some (Finite q) =>
      if validArrayLength q then inr (replicate (Z.to_nat (Qnum (Qred q))) None)
      else inl (RangeError "Invalid array length")
  | _ => inl (RangeError "Invalid array length")
  end.

(** [createFeatures(content)].  The loop is reached with a length of 1 or
    more, so its body runs, and each turn evaluates the name
    [Cesium3DTileFeature] before anything is stored; [content._features]
    is assigned after the loop. *)
Definition createFeatures (content_ : Batched3DModel3DTileContent)
    : Outcome unit Batched3DModel3DTileContent :=
  let featuresLength_ := featuresLength content_ in
  if negb (defined (_features content_)) && greaterThanZero featuresLength_ then
    match Array_new featuresLength_ with
    | inl e => Thrown e content_
    | inr features =>
        match resolveIdentifier Batched3DModel3DTileContent_js_scope
                "Cesium3DTileFeature" with
        | Some e => Thrown e content_
        | None =>
            let features :=
              forUpTo (length features) 0
                (fun i features => <[i := Some (mkCesium3DTileFeature i)]> features)
                features in
            Returned tt
              (mkBatched3DModel3DTileContent (featuresLength content_) (Some features))
        end
    end
  else Returned tt content_.

(** The content object as the class constructor leaves it:
    [this._features = undefined], and no [featuresLength] member. *)
Definition Batched3DModel3DTileContent_new : Batched3DModel3DTileContent :=
  mkBatched3DModel3DTileContent None None.

(* ===================================================================== *)
(** * Readings of a run used by the further properties                    *)
(* ===================================================================== *)

(** Every recorded change of the pending-request counter is a step of one
    up or one down. *)
Definition unitChanges (log : list (TileRef * Z)) : Prop :=
  Forall (fun e => snd e = 1 \/ snd e = -1) log.

(** The tiles for which a request has gone through at some time, each
    once, and those of them whose request is in flight now. *)
Definition everRequested (w : World) : list TileRef :=
  nodup Nat.eq_dec (List.map fst (pendingLog w)).

Definition loadingTiles (w : World) : list TileRef :=
  List.filter (fun t => contentState_eqb (stateOf w t) LOADING) (everRequested w).

(** The tiles of the processing queue that are in processing, the
    processing counter, and the agreement of the two. *)
Definition processingTiles (w : World) : list TileRef :=
  List.filter (isProcessing w) (queueOf w).

Definition processingOf (w : World) : Z :=
  numberOfTilesProcessing (_statistics (tileset w)).

Definition processingCounted (w : World) : Prop :=
  List.NoDup (processingTiles w)
  /\ processingOf w = Z.of_nat (length (processingTiles w)).

(** The collaborators of the scenario, with a tile-loaded listener that
    throws. *)
Definition throwingListener : Collaborators :=
  mkCollaborators (traverse Scenario.ext) (requestSlotFree Scenario.ext)
    (processOutcome Scenario.ext) (tileUpdate Scenario.ext)
    (fun w t => Some (mkLoadError (Some "listener failed"%string) ""%string)).

(* ===================================================================== *)
(** * Properties                                                          *)
(* ===================================================================== *)

(** ** isDataUri *)

Section IsDataUriFacts.
Import IsDataUri.
Variable unicodeUpper : CodeUnit -> CodeUnit.

Ltac split_N_tests :=
  repeat match goal with
         | |- context [(?a <=? ?b)%N] => destruct (N.leb_spec a b)
         | |- context [(?a <? ?b)%N] => destruct (N.ltb_spec a b)
         | |- context [(?a =? ?b)%N] => destruct (N.eqb_spec a b)
         end.

(** A pattern character that is ASCII and not an upper-case letter matches
    exactly the code units that lower-case to it. *)
Lemma Canonicalize_matches (ch p : CodeUnit) :
  (p < 128)%N -> ~ (65 <= p <= 90)%N ->
  N.eqb (Canonicalize unicodeUpper dataUriRegex ch)
        (Canonicalize unicodeUpper dataUriRegex p) = true
  <-> asciiLower ch = p.
Proof.
  intros Hp Hup. unfold Canonicalize, asciiUpper, asciiLower. simpl.
  rewrite N.eqb_eq.
  split_N_tests; simpl; lia.
Qed.

(** The start assertion fails at every index but 0. *)
Lemma matchTerms_anchored (r : RegExp) (ts : list Term) (input : JSString) (i : nat) :
  matchTerms unicodeUpper r (AssertStart :: ts) input (S i) = false.
Proof. reflexivity. Qed.

Lemma test_anchored (r : RegExp) (ts : list Term) (input : JSString) :
  pattern r = AssertStart :: ts ->
  test unicodeUpper r input = matchTerms unicodeUpper r ts input 0.
Proof.
  intros Hp. unfold test. rewrite Hp. simpl.
  assert (H : forall n k, existsb (matchTerms unicodeUpper r (AssertStart :: ts) input)
                            (seq (S k) n) = false).
  { induction n as [|n IH]; intros k; [reflexivity|]. simpl seq. simpl existsb.
    apply IH. }
  rewrite H. apply orb_false_r.
Qed.

(** C10. [isDataUri(uri)] is true exactly when [uri] begins with the five
    characters [data:], letters compared without regard to case; every
    other string, one that has [data:] only further in included, gives
    false. *)
Theorem isDataUri_iff_begins_with_data (uri : JSString) :
  isDataUri unicodeUpper uri = true <-> beginsWithDataColon uri.
Proof.
  unfold isDataUri. rewrite (test_anchored dataUriRegex _ uri eq_refl).
  unfold beginsWithDataColon. simpl matchTerms.
  destruct uri as [|c0 [|c1 [|c2 [|c3 [|c4 rest]]]]]; simpl;
    try (split; [try discriminate; rewrite ?andb_false_r; discriminate
                |intros (?&?&?&?&?&?&?&?); discriminate]).
  rewrite andb_true_r, !andb_true_iff.
  rewrite !Canonicalize_matches by lia.
  split.
  - intros (H0 & H1 & H2 & H3 & H4). exists c0, c1, c2, c3, c4, rest.
    split; [reflexivity|]. simpl. now rewrite H0, H1, H2, H3, H4.
  - intros (d0 & d1 & d2 & d3 & d4 & r & Heq & Hl).
    injection Heq as -> -> -> -> -> ->. simpl in Hl.
    injection Hl as -> -> -> -> ->. repeat split; reflexivity.
Qed.

End IsDataUriFacts.

Example isDataUri_upper_case :
  IsDataUri.isDataUri (fun c => c) (IsDataUri.codeUnits "DATA:text/plain,hi") = true.
Proof. reflexivity. Qed.

Example isDataUri_later_position :
  IsDataUri.isDataUri (fun c => c) (IsDataUri.codeUnits "x-data:text/plain,hi") = false.
Proof. reflexivity. Qed.

Example isDataUri_http :
  IsDataUri.isDataUri (fun c => c) (IsDataUri.codeUnits "http://host/tileset.json") = false.
Proof. reflexivity. Qed.

(** ** Comparison of numbers *)

Lemma Qlt_bool_true (a b : Q) : Qlt_bool a b = true <-> (a < b)%Q.
Proof.
  unfold Qlt_bool. rewrite negb_true_iff.
  destruct (Qle_bool b a) eqn:E.
  - apply Qle_bool_iff in E. split; [discriminate|]. intros H. lra.
  - split; [intros _|reflexivity].
    apply Qnot_le_lt. intros H. apply Qle_bool_iff in H. congruence.
Qed.

Lemma Qlt_bool_false (a b : Q) : Qlt_bool a b = false <-> (b <= a)%Q.
Proof.
  destruct (Qlt_bool a b) eqn:E.
  - apply Qlt_bool_true in E. split; [discriminate|]. intros H. lra.
  - split; [intros _|reflexivity].
    apply Qnot_lt_le. intros H. apply Qlt_bool_true in H. congruence.
Qed.

(** ** Dynamic screen-space error *)



(** On a loaded tileset with the default density 0.00278 the call throws
    and the stored density stays 0. *)
Example updateDynamicScreenSpaceError_on_loaded_tileset :
  let ts := tileset (World_new (fun _ => defaultTile)) in
  forall fromLine35,
    updateDynamicScreenSpaceError fromLine35 ts
    = Thrown (ReferenceError "TileBoundingRegion is not defined") ts
    /\ dynamicScreenSpaceErrorDensity ts = (278 # 100000)%Q
    /\ _dynamicScreenSpaceErrorComputedDensity
         (finalState (updateDynamicScreenSpaceError fromLine35 ts)) = 0%Q.
Proof. intros ts fromLine35. repeat split. Qed.

(** ** filterProcessingQueue *)

Section FilterProcessingQueue.
Variable w : World.

Lemma filterStep_compacted (l : list TileRef) (i : nat) (st : list TileRef * nat) :
  (i < length l)%nat -> compacted w l i st -> compacted w l (S i) (filterStep w i st).
Proof.
  intros Hi (junk & Hl & Hj & Hlen). destruct st as [arr rc]. simpl in *.
  destruct (lookup_lt_is_Some_2 l i Hi) as [tile Htile].
  set (kept := List.filter (isProcessing w) (take i l)) in *.
  assert (Hrest : drop i l = tile :: drop (S i) l) by now apply drop_S.
  assert (Hget : arr !! i = Some tile).
  { rewrite Hl, Hrest. rewrite lookup_app_r by lia. rewrite lookup_app_r by lia.
    replace (i - length kept - length junk)%nat with O by lia. reflexivity. }
  assert (Htake : List.filter (isProcessing w) (take (S i) l)
                  = kept ++ (if isProcessing w tile then [tile] else [])).
  { rewrite (take_S_r l i tile Htile), List.filter_app. reflexivity. }
  unfold filterStep. rewrite Hget. fold (isProcessing w tile).
  destruct (isProcessing w tile) eqn:HP; simpl.
  - destruct rc as [|rc]; simpl.
    + destruct junk; [|discriminate]. exists []. simpl.
      rewrite Htake, Hl, Hrest, length_app. simpl.
      repeat split; [now rewrite <- List.app_assoc | lia].
    + destruct junk as [|j junk]; [discriminate|].
      exists (junk ++ [tile]). rewrite Htake, length_app, length_app. simpl in *.
      repeat split; [|lia|lia].
      rewrite Hl, Hrest.
      replace (i - S rc)%nat with (length kept + 0)%nat by lia.
      rewrite insert_app_r. simpl.
      now rewrite <- !List.app_assoc.
  - exists (junk ++ [tile]). rewrite Htake, List.app_nil_r, length_app. simpl.
    repeat split; [|lia|lia].
    rewrite Hl, Hrest. now rewrite <- !List.app_assoc.
Qed.

Lemma filterLoop_compacted (l : list TileRef) (count start : nat)
    (st : list TileRef * nat) :
  (start + count = length l)%nat -> compacted w l start st ->
  compacted w l (length l) (forUpTo count start (filterStep w) st).
Proof.
  revert start st. induction count as [|count IH]; intros start st Hlen Hc; simpl.
  - now replace (length l) with start by lia.
  - apply IH; [lia|]. apply filterStep_compacted; [lia|exact Hc].
Qed.

(** What the loop leaves: cut at [length - removeCount], the array is the
    filtered queue. *)
Lemma filterLoop_result (arr : list TileRef) (rc : nat) :
  forUpTo (length (_processingQueue (tileset w))) 0 (filterStep w)
    (_processingQueue (tileset w), O) = (arr, rc) ->
  take (length arr - rc) arr = List.filter (isProcessing w) (_processingQueue (tileset w)).
Proof.
  set (l := _processingQueue (tileset w)). intros E.
  assert (Hc : compacted w l (length l) (arr, rc)).
  { rewrite <- E. apply filterLoop_compacted; [reflexivity|].
    exists []. simpl. rewrite drop_0. repeat split. }
  destruct Hc as (junk & Harr & Hj & Hlen). simpl in *.
  rewrite firstn_all, drop_all, List.app_nil_r in Harr.
  rewrite firstn_all in Hlen.
  rewrite Harr, length_app.
  replace (length (List.filter (isProcessing w) l) + length junk - rc)%nat
    with (length (List.filter (isProcessing w) l)) by lia.
  apply take_app_length.
Qed.

(** The queue after the filter, and what the filter leaves alone. *)
Lemma filterProcessingQueue_view :
  _processingQueue (tileset (filterProcessingQueue w))
  = List.filter (isProcessing w) (_processingQueue (tileset w))
  /\ tiles (filterProcessingQueue w) = tiles w
  /\ raised (filterProcessingQueue w) = raised w
  /\ pendingLog (filterProcessingQueue w) = pendingLog w
  /\ _statistics (tileset (filterProcessingQueue w)) = _statistics (tileset w)
  /\ _cache (tileset (filterProcessingQueue w)) = _cache (tileset w).
Proof.
  unfold filterProcessingQueue.
  destruct (forUpTo _ 0 (filterStep w) _) as [arr rc] eqn:E.
  cbn. rewrite (filterLoop_result arr rc E). repeat split.
Qed.

End FilterProcessingQueue.

(** C4. [filterProcessingQueue] leaves in the queue exactly the tiles of
    the previous queue whose content state is [PROCESSING], in their
    previous order: the in-place compaction computes the plain filter. *)
Theorem filterProcessingQueue_is_filter (w : World) :
  filterProcessingQueue w = filterProcessingQueue_naive w.
Proof.
  unfold filterProcessingQueue, filterProcessingQueue_naive.
  destruct (forUpTo _ 0 (filterStep w) _) as [arr rc] eqn:E.
  apply filterLoop_result in E.
  unfold with_tileset. f_equal. f_equal. exact E.
Qed.

(** ** Configuration setters *)

(** C7. Assigning a negative value to [maximumScreenSpaceError] or to
    [maximumMemoryUsage] throws a DeveloperError and leaves the tileset as
    it was; assigning a value that is not negative stores exactly that
    value. *)
Theorem setters_reject_negative_store_others (v : Q) (ts : Tileset) :
  ((v < 0)%Q ->
     (exists msg, set_maximumScreenSpaceError v ts = Thrown (DeveloperError msg) ts)
     /\ (exists msg, set_maximumMemoryUsage v ts = Thrown (DeveloperError msg) ts))
  /\ ((0 <= v)%Q ->
        set_maximumScreenSpaceError v ts = Returned tt (with_maximumScreenSpaceError v ts)
        /\ get_maximumScreenSpaceError (finalState (set_maximumScreenSpaceError v ts)) = v
        /\ set_maximumMemoryUsage v ts = Returned tt (with_maximumMemoryUsage v ts)
        /\ get_maximumMemoryUsage (finalState (set_maximumMemoryUsage v ts)) = v).
Proof.
  unfold set_maximumScreenSpaceError, set_maximumMemoryUsage,
    Check_typeOf_number_greaterThanOrEquals.
  split; intros H.
  - apply Qlt_bool_true in H. rewrite H. split; eexists; reflexivity.
  - apply Qlt_bool_false in H. rewrite H. repeat split.
Qed.

Lemma setters_reject_negative_store_others_witness :
  (exists msg, set_maximumScreenSpaceError (-1) Tileset_new
               = Thrown (DeveloperError msg) Tileset_new)
  /\ get_maximumMemoryUsage (finalState (set_maximumMemoryUsage (1024 # 3) Tileset_new))
     = (1024 # 3).
Proof.
  split.
  - apply (proj1 (setters_reject_negative_store_others (-1) Tileset_new)). reflexivity.
  - apply (proj2 (setters_reject_negative_store_others (1024 # 3) Tileset_new)).
    discriminate.
Defined.


(** ** Loops over an array that the body leaves alone *)

Lemma forUpTo_fold_left {St A : Type} (get : St -> list A) (f : A -> St -> St) :
  (forall a s, get (f a s) = get s) ->
  forall count start s,
    (start + count = length (get s))%nat ->
    forUpTo count start
      (fun i s => match get s !! i with Some a => f a s | None => s end) s
    = fold_left (fun s a => f a s) (drop start (get s)) s.
Proof.
  intros Hpres. induction count as [|count IH]; intros start s Hlen; simpl.
  - rewrite drop_ge by lia. reflexivity.
  - destruct (lookup_lt_is_Some_2 (get s) start ltac:(lia)) as [a Ha].
    rewrite Ha, (drop_S _ _ _ Ha). simpl.
    rewrite IH by (rewrite Hpres; lia). now rewrite Hpres.
Qed.

(** ** requestTiles *)

Section RequestTiles.
Variable ext : Collaborators.

Lemma sortInsert_Permutation (cmp : TileRef -> TileRef -> Q) (x : TileRef)
    (l : list TileRef) :
  Permutation (sortInsert cmp x l) (x :: l).
Proof.
  induction l as [|y l IH]; simpl; [reflexivity|].
  destruct (Qle_bool (cmp x y) 0); [reflexivity|].
  rewrite IH. apply perm_swap.
Qed.

Lemma Array_sort_Permutation (cmp : TileRef -> TileRef -> Q) (l : list TileRef) :
  Permutation (Array_sort cmp l) l.
Proof.
  induction l as [|x l IH]; simpl; [reflexivity|].
  rewrite sortInsert_Permutation. now constructor.
Qed.

Lemma priorityLe_trans (w : World) (a b c : TileRef) :
  priorityLe w a b -> priorityLe w b c -> priorityLe w a c.
Proof. unfold priorityLe. intros. lra. Qed.

Lemma sortInsert_sorted (w : World) (x : TileRef) (l : list TileRef) :
  StronglySorted (priorityLe w) l ->
  StronglySorted (priorityLe w) (sortInsert (sortRequestByPriority w) x l).
Proof.
  induction 1 as [|y l Hs IH Hall]; simpl.
  - repeat constructor.
  - destruct (Qle_bool (sortRequestByPriority w x y) 0) eqn:E.
    + apply Qle_bool_iff in E. unfold sortRequestByPriority in E.
      assert (Hxy : priorityLe w x y) by (unfold priorityLe; lra).
      constructor; [now constructor|].
      constructor; [exact Hxy|].
      eapply List.Forall_impl; [|exact Hall].
      intros z Hz. eapply priorityLe_trans; eassumption.
    + assert (Hyx : priorityLe w y x).
      { unfold priorityLe. unfold sortRequestByPriority in E.
        destruct (Qlt_le_dec (_priority (tiles w x)) (_priority (tiles w y)))
          as [Hlt|Hle]; [|exact Hle].
        assert (Qle_bool (_priority (tiles w x) - _priority (tiles w y)) 0 = true)
          by (apply Qle_bool_iff; lra).
        congruence. }
      constructor; [exact IH|].
      rewrite (sortInsert_Permutation (sortRequestByPriority w) x l).
      now constructor.
Qed.

Lemma Array_sort_sorted (w : World) (l : list TileRef) :
  StronglySorted (priorityLe w) (Array_sort (sortRequestByPriority w) l).
Proof.
  induction l as [|x l IH]; simpl; [constructor|].
  now apply sortInsert_sorted.
Qed.

(** What [requestContent] leaves alone. *)
Lemma requestContent_requestedTiles (t : TileRef) (w : World) :
  _requestedTiles (tileset (requestContent ext t w)) = _requestedTiles (tileset w).
Proof.
  unfold requestContent, Tile_requestContent.
  destruct (hasEmptyContent (tiles w t)); [reflexivity|].
  destruct (_ && _); simpl; [|reflexivity].
  destruct (contentExpired (tiles w t)); [|reflexivity].
  destruct (hasTilesetContent _); reflexivity.
Qed.

Lemma requestContent_static (t r : TileRef) (w : World) :
  _priority (tiles (requestContent ext t w) r) = _priority (tiles w r)
  /\ hasEmptyContent (tiles (requestContent ext t w) r) = hasEmptyContent (tiles w r).
Proof.
  unfold requestContent, Tile_requestContent.
  destruct (hasEmptyContent (tiles w t)) eqn:He; [split; reflexivity|].
  destruct (_ && _); simpl; [|split; reflexivity].
  rewrite ?Nat.eqb_refl.
  destruct (contentExpired (tiles w t)); simpl;
    [destruct (hasTilesetContent (tiles w t))|]; simpl;
    destruct (Nat.eqb r t); simpl; split; reflexivity.
Qed.

Lemma requestContent_issued (t : TileRef) (w : World) :
  issuedRequests (raised (requestContent ext t w))
  = issuedRequests (raised w) ++ (if hasEmptyContent (tiles w t) then [] else [t]).
Proof.
  unfold requestContent, Tile_requestContent, issuedRequests.
  destruct (hasEmptyContent (tiles w t)); [now rewrite List.app_nil_r|].
  destruct (_ && _); simpl.
  - destruct (contentExpired (tiles w t)); [destruct (hasTilesetContent _)|];
      simpl; now rewrite flat_map_app.
  - now rewrite flat_map_app.
Qed.

Lemma requestContent_fold_issued (l : list TileRef) (w0 w : World) :
  (forall r, hasEmptyContent (tiles w r) = hasEmptyContent (tiles w0 r)) ->
  issuedRequests (raised (fold_left (fun w t => requestContent ext t w) l w))
  = issuedRequests (raised w)
    ++ List.filter (fun t => negb (hasEmptyContent (tiles w0 t))) l.
Proof.
  revert w. induction l as [|t l IH]; intros w Hsame; simpl.
  - now rewrite List.app_nil_r.
  - rewrite IH.
    + rewrite requestContent_issued, Hsame.
      destruct (hasEmptyContent (tiles w0 t)); simpl.
      * now rewrite List.app_nil_r.
      * now rewrite <- List.app_assoc.
    + intros r. rewrite <- Hsame. apply requestContent_static.
Qed.

(** The loop of [requestTiles] runs [requestContent] down the sorted
    list, starting from the world that holds the sorted list. *)
Lemma requestTiles_fold (w : World) :
  requestTiles ext w
  = fold_left (fun w t => requestContent ext t w)
      (Array_sort (sortRequestByPriority w) (_requestedTiles (tileset w)))
      (with_tileset
         (with_requestedTiles
            (Array_sort (sortRequestByPriority w) (_requestedTiles (tileset w)))) w).
Proof.
  unfold requestTiles.
  rewrite (forUpTo_fold_left (fun w => _requestedTiles (tileset w))
             (requestContent ext) (requestContent_requestedTiles)).
  - reflexivity.
  - simpl. symmetry. apply Permutation_length, Array_sort_Permutation.
Qed.

(** C2. [requestTiles] first sorts the requested-tiles list by ascending
    priority (a sorted rearrangement of the same tiles) and only then calls
    [requestContent] on each element in order; the calls that reach the
    tiles' own [requestContent] are therefore made in non-decreasing
    priority order. *)
Theorem requestTiles_sorts_then_requests (w : World) :
  let sorted := Array_sort (sortRequestByPriority w) (_requestedTiles (tileset w)) in
  Permutation sorted (_requestedTiles (tileset w))
  /\ StronglySorted (priorityLe w) sorted
  /\ requestTiles ext w
     = fold_left (fun w t => requestContent ext t w) sorted
         (with_tileset (with_requestedTiles sorted) w)
  /\ issuedRequests (raised (requestTiles ext w))
     = issuedRequests (raised w)
       ++ List.filter (fun t => negb (hasEmptyContent (tiles w t))) sorted
  /\ StronglySorted (priorityLe w)
       (List.filter (fun t => negb (hasEmptyContent (tiles w t))) sorted).
Proof.
  intros sorted.
  assert (Hsorted : StronglySorted (priorityLe w) sorted) by apply Array_sort_sorted.
  split; [apply Array_sort_Permutation|].
  split; [exact Hsorted|].
  split; [apply requestTiles_fold|].
  split.
  - rewrite requestTiles_fold. fold sorted.
    now rewrite (requestContent_fold_issued sorted w).
  - induction Hsorted as [|x l Hs IH Hall]; simpl; [constructor|].
    destruct (negb (hasEmptyContent (tiles w x))); [|exact IH].
    constructor; [exact IH|].
    apply List.Forall_forall. intros y Hy. apply List.filter_In in Hy as [Hy _].
    now apply (proj1 (List.Forall_forall _ _) Hall).
Qed.

End RequestTiles.

(** ** updateTiles *)

Section UpdateTiles.
Variable ext : Collaborators.

Lemma arraySet_in_range (i : nat) (v : Command) (l : list Command) :
  (i < length l)%nat -> arraySet i v l = <[i := v]> l.
Proof.
  intros H. unfold arraySet.
  destruct (Nat.ltb_spec i (length l)); [reflexivity|lia].
Qed.

(** The backward copy: the commands added by the updates move up by the
    number of back-face commands; what lies below them is a gap of that
    size. *)
Lemma copy_to_back (pre added : list Command) (n k : nat) (mid : list Command) :
  length mid = n -> (k <= length added)%nat ->
  exists mid',
    length mid' = n
    /\ forDownFrom k
         (fun i cl => arraySet (length pre + n + i)%nat (arrayGet cl (length pre + i)%nat) cl)
         (pre ++ take k added ++ mid ++ drop k added)
       = pre ++ mid' ++ added.
Proof.
  revert mid. induction k as [|k IH]; intros mid Hmid Hk; simpl.
  - exists mid. rewrite drop_0. split; [exact Hmid|reflexivity].
  - destruct (lookup_lt_is_Some_2 added k ltac:(lia)) as [x Hx].
    assert (Hlen : length (take k added) = k) by (rewrite length_take; lia).
    assert (Hread : arrayGet (pre ++ take (S k) added ++ mid ++ drop (S k) added)
                      (length pre + k) = x).
    { unfold arrayGet. rewrite lookup_app_r by lia.
      replace (length pre + k - length pre)%nat with k by lia.
      rewrite lookup_app_l by (rewrite length_take; lia).
      rewrite lookup_take_lt by lia. now rewrite Hx. }
    rewrite Hread.
    assert (Hstep :
      arraySet (length pre + n + k) x (pre ++ take (S k) added ++ mid ++ drop (S k) added)
      = pre ++ take k added ++ (if Nat.eqb n 0 then [] else x :: removelast mid)
          ++ drop k added).
    { rewrite arraySet_in_range
        by (rewrite !length_app, length_take, length_drop; lia).
      rewrite (take_S_r added k x Hx), (drop_S added x k Hx).
      destruct (Nat.eqb_spec n 0) as [Hn|Hn].
      - destruct mid; [|simpl in Hmid; lia]. simpl.
        rewrite insert_app_r_alt by lia.
        replace (length pre + n + k - length pre)%nat with (length (take k added) + 0)%nat
          by lia.
        rewrite <- List.app_assoc. rewrite insert_app_r. reflexivity.
      - destruct (exists_last (l := mid)) as (mid0 & m & Hm);
          [intros ->; simpl in Hmid; lia|].
        subst mid. rewrite removelast_last. rewrite length_app in Hmid. simpl in Hmid.
        rewrite insert_app_r_alt by lia.
        replace (length pre + n + k - length pre)%nat
          with (length (take k added ++ [x] ++ mid0) + 0)%nat
          by (rewrite !length_app; simpl; lia).
        replace ((take k added ++ [x]) ++ (mid0 ++ [m]) ++ drop (S k) added)
          with ((take k added ++ [x] ++ mid0) ++ m :: drop (S k) added)
          by (rewrite <- !List.app_assoc; reflexivity).
        rewrite insert_app_r. simpl. rewrite <- !List.app_assoc. reflexivity. }
    rewrite Hstep. apply IH; [|lia].
    destruct (Nat.eqb_spec n 0) as [Hn|Hn]; [simpl; lia|].
    destruct (exists_last (l := mid)) as (mid0 & m & Hm);
      [intros ->; simpl in Hmid; lia|].
    subst mid. rewrite removelast_last. rewrite length_app in Hmid. simpl in *. lia.
Qed.

(** The forward copy: the gap is filled with the back-face commands. *)
Lemma copy_backface (pre added back : list Command) (count start : nat)
    (mid : list Command) :
  (start + count = length back)%nat -> length mid = count ->
  forUpTo count start
    (fun i cl => arraySet (length pre + i)%nat (arrayGet back i) cl)
    (pre ++ take start back ++ mid ++ added)
  = pre ++ back ++ added.
Proof.
  revert start mid. induction count as [|count IH]; intros start mid Hlen Hmid; simpl.
  - destruct mid; [|discriminate]. rewrite take_ge by lia. reflexivity.
  - destruct mid as [|m mid]; [discriminate|]. simpl in Hmid.
    destruct (lookup_lt_is_Some_2 back start ltac:(lia)) as [b Hb].
    assert (Hlt : length (take start back) = start) by (rewrite length_take; lia).
    assert (Hget : arrayGet back start = b) by (unfold arrayGet; now rewrite Hb).
    rewrite Hget.
    rewrite arraySet_in_range by (rewrite !length_app, length_take; simpl; lia).
    rewrite insert_app_r_alt by lia.
    replace (length pre + start - length pre)%nat
      with (length (take start back) + 0)%nat by lia.
    rewrite insert_app_r. simpl.
    replace (take start back ++ b :: mid ++ added)
      with (take (S start) back ++ mid ++ added)
      by (rewrite (take_S_r back start b Hb), <- List.app_assoc; reflexivity).
    apply IH; lia.
Qed.

Lemma insertBackfaceCommands_spec (pre added back : list Command) :
  insertBackfaceCommands (length pre) (length added) back (pre ++ added)
  = pre ++ back ++ added.
Proof.
  unfold insertBackfaceCommands, arrayGrow.
  destruct (copy_to_back pre added (length back) (length added)
              (replicate (length back) undefined)) as (mid & Hmid & Hcopy);
    [apply length_replicate|lia|].
  rewrite firstn_all, drop_all, List.app_nil_r in Hcopy.
  rewrite <- List.app_assoc. rewrite Hcopy.
  apply (copy_backface pre added back (length back) 0 mid); [lia|exact Hmid].
Qed.

(** The tile updates only append to the frame's command list, and leave
    the lists of selected and empty tiles alone. *)
Lemma Tile_update_appends (t : TileRef) (st : FrameState * World) :
  exists front,
    commandList (fst (Tile_update ext t st)) = commandList (fst st) ++ front.
Proof.
  destruct st as [fs w]. unfold Tile_update.
  destruct (tileUpdate ext w fs t) as [front back]. now exists front.
Qed.

Lemma Tile_update_lists (t : TileRef) (st : FrameState * World) :
  _selectedTiles (tileset (snd (Tile_update ext t st))) = _selectedTiles (tileset (snd st))
  /\ _emptyTiles (tileset (snd (Tile_update ext t st))) = _emptyTiles (tileset (snd st)).
Proof.
  destruct st as [fs w]. unfold Tile_update.
  destruct (tileUpdate ext w fs t) as [front back]. split; reflexivity.
Qed.

Lemma updateSelectedTile_appends (t : TileRef) (st : FrameState * World) :
  exists front,
    commandList (fst (updateSelectedTile ext t st)) = commandList (fst st) ++ front.
Proof.
  destruct st as [fs w]. unfold updateSelectedTile, Tile_update. simpl.
  destruct (tileUpdate ext _ fs t) as [front back]. now exists front.
Qed.

Lemma updateSelectedTile_lists (t : TileRef) (st : FrameState * World) :
  _selectedTiles (tileset (snd (updateSelectedTile ext t st)))
  = _selectedTiles (tileset (snd st))
  /\ _emptyTiles (tileset (snd (updateSelectedTile ext t st)))
     = _emptyTiles (tileset (snd st)).
Proof.
  destruct st as [fs w]. unfold updateSelectedTile, Tile_update. simpl.
  destruct (tileUpdate ext _ fs t) as [front back]. split; reflexivity.
Qed.

Lemma fold_appends (f : FrameState * World -> TileRef -> FrameState * World)
    (l : list TileRef) (st : FrameState * World) :
  (forall t st, exists front, commandList (fst (f st t)) = commandList (fst st) ++ front) ->
  exists added, commandList (fst (fold_left f l st)) = commandList (fst st) ++ added.
Proof.
  intros Hf. revert st. induction l as [|t l IH]; intros st; simpl.
  - exists []. now rewrite List.app_nil_r.
  - destruct (IH (f st t)) as [added Ha]. destruct (Hf t st) as [front Hfr].
    exists (front ++ added). rewrite Ha, Hfr. now rewrite <- List.app_assoc.
Qed.

Lemma fold_lists (f : FrameState * World -> TileRef -> FrameState * World)
    (l : list TileRef) (st : FrameState * World) :
  (forall t st, _selectedTiles (tileset (snd (f st t))) = _selectedTiles (tileset (snd st))
                /\ _emptyTiles (tileset (snd (f st t))) = _emptyTiles (tileset (snd st))) ->
  _selectedTiles (tileset (snd (fold_left f l st))) = _selectedTiles (tileset (snd st))
  /\ _emptyTiles (tileset (snd (fold_left f l st))) = _emptyTiles (tileset (snd st)).
Proof.
  intros Hf. revert st. induction l as [|t l IH]; intros st; simpl; [split; reflexivity|].
  destruct (IH (f st t)) as [H1 H2]. destruct (Hf t st) as [H3 H4].
  split; congruence.
Qed.

(** The two loops of [updateTiles] run the updates of [afterUpdates]. *)
Lemma updateTiles_loops (fs : FrameState) (w : World) (stencil : bool) :
  forUpTo (length (_emptyTiles (tileset w))) 0
    (fun i st =>
       match _emptyTiles (tileset (snd st)) !! i with
       | Some tile => Tile_update ext tile st
       | None => st
       end)
    (forUpTo (length (_selectedTiles (tileset w))) 0
       (fun i st =>
          match _selectedTiles (tileset (snd st)) !! i with
          | Some tile => updateSelectedTile ext tile st
          | None => st
          end) (beforeUpdates fs w stencil))
  = afterUpdates ext fs w stencil.
Proof.
  unfold afterUpdates.
  rewrite (forUpTo_fold_left (fun st => _selectedTiles (tileset (snd st)))
             (updateSelectedTile ext)
             (fun t st => proj1 (updateSelectedTile_lists t st)))
    by reflexivity.
  rewrite drop_0. simpl _selectedTiles at 1.
  set (st1 := fold_left _ (_selectedTiles (tileset w)) _).
  assert (He : _emptyTiles (tileset (snd st1)) = _emptyTiles (tileset w)).
  { unfold st1.
    now rewrite (proj2 (fold_lists (fun st t => updateSelectedTile ext t st) _ _
                          (fun t st => updateSelectedTile_lists t st))). }
  rewrite (forUpTo_fold_left (fun st => _emptyTiles (tileset (snd st)))
             (Tile_update ext) (fun t st => proj2 (Tile_update_lists t st)))
    by (now rewrite He).
  now rewrite drop_0, He.
Qed.

(** C6. When the bivariate visibility test is active, [updateTiles]
    leaves the frame's command list as: the commands present on entry, the
    stencil clear command, all back-face commands collected by the tile
    updates, and then the commands the tile updates pushed on the list, in
    the order in which they were pushed. *)
Theorem updateTiles_command_order (fs : FrameState) (w : World) :
  bivariateVisibilityTest fs w = true ->
  exists added,
    commandList (fst (afterUpdates ext fs w true))
    = commandList fs ++ [stencilClearCommand] ++ added
    /\ commandList (fst (updateTiles ext fs w))
       = commandList fs ++ [stencilClearCommand]
         ++ _backfaceCommands (tileset (snd (afterUpdates ext fs w true)))
         ++ added.
Proof.
  intros Hb. unfold bivariateVisibilityTest in Hb.
  assert (Hadded : exists added,
             commandList (fst (afterUpdates ext fs w true))
             = (commandList fs ++ [stencilClearCommand]) ++ added).
  { unfold afterUpdates.
    destruct (fold_appends (fun st t => Tile_update ext t st) (_emptyTiles (tileset w))
                (fold_left (fun st t => updateSelectedTile ext t st)
                   (_selectedTiles (tileset w)) (beforeUpdates fs w true))
                (fun t st => Tile_update_appends t st)) as [a2 H2].
    destruct (fold_appends (fun st t => updateSelectedTile ext t st)
                (_selectedTiles (tileset w)) (beforeUpdates fs w true)
                (fun t st => updateSelectedTile_appends t st)) as [a1 H1].
    exists (a1 ++ a2). rewrite H2, H1. simpl. now rewrite <- !List.app_assoc. }
  destruct Hadded as [added Hadded]. exists added.
  split; [now rewrite Hadded, <- List.app_assoc|].
  unfold updateTiles. rewrite Hb.
  pose proof (updateTiles_loops fs w true) as Hloops. unfold beforeUpdates in Hloops.
  rewrite Hloops.
  destruct (afterUpdates ext fs w true) as [fsU wU] eqn:E. simpl in Hadded |- *.
  rewrite Hadded.
  replace (length ((commandList fs ++ [stencilClearCommand]) ++ added)
           - length (commandList fs ++ [stencilClearCommand]))%nat
    with (length added) by (rewrite !length_app; simpl; lia).
  rewrite (insertBackfaceCommands_spec (commandList fs ++ [stencilClearCommand]) added).
  now rewrite <- !List.app_assoc.
Qed.

End UpdateTiles.

(** ** loadTileset *)

Section LoadTilesetFacts.
Variable tileRefine : TileHeader -> option NewTile -> Cesium3DTileRefine.

Lemma allHeaders_unfold (h : TileHeader) : allHeaders h = h :: descendantHeaders h.
Proof.
  destruct h as [r [l|]]; reflexivity.
Qed.

Lemma flat_map_allHeaders (l : list TileHeader) :
  Permutation (flat_map allHeaders l) (l ++ flat_map descendantHeaders l).
Proof.
  induction l as [|c l IH]; simpl; [reflexivity|].
  rewrite allHeaders_unfold. simpl. constructor.
  rewrite IH. rewrite !List.app_assoc. apply Permutation_app_tail, Permutation_app_comm.
Qed.

Lemma forallb_reverse {A : Type} (f : A -> bool) (l : list A) :
  forallb f (rev l) = forallb f l.
Proof.
  induction l as [|x l IH]; [reflexivity|].
  simpl. rewrite forallb_app, IH. simpl. rewrite andb_true_r. apply andb_comm.
Qed.

Lemma pushChild_fold (tile : nat * NewTile) (l : list TileHeader)
    (acc : LoadState * list (nat * NewTile)) :
  let r := fold_left (pushChild tileRefine tile) l acc in
  exists new,
    snd r = snd acc ++ new
    /\ arena (fst r) = arena (fst acc) ++ List.map snd new
    /\ loading (fst r) = loading (fst acc).
Proof.
  revert acc. induction l as [|h l IH]; intros [st pushed]; simpl.
  - exists []. now rewrite !List.app_nil_r.
  - destruct (IH (pushChild tileRefine tile (st, pushed) h)) as (new & H1 & H2 & H3).
    simpl in *. eexists (_ :: new). rewrite H1, H2, H3. simpl.
    rewrite <- !List.app_assoc. repeat split.
Qed.

Lemma loadStep_effect (tile : nat * NewTile) (st : LoadState) :
  arena (fst (loadStep tileRefine tile st))
  = arena st ++ List.map snd (snd (loadStep tileRefine tile st))
  /\ _allTilesAdditive (loading (fst (loadStep tileRefine tile st)))
     = _allTilesAdditive (loading st) && isAdditive (snd tile).
Proof.
  unfold loadStep.
  destruct (headerChildren (_header (snd tile))) as [l|]; simpl.
  - match goal with
    | |- context [fold_left ?f l ?acc] =>
        destruct (pushChild_fold tile l acc) as (new & H1 & H2 & H3)
    end.
    simpl in *. rewrite H1, H2, H3. split; reflexivity.
  - rewrite List.app_nil_r. split; reflexivity.
Qed.

(** The loop creates one tile for every header strictly below the tiles
    on the stack, and folds the refine modes of the stacked and the created
    tiles into the flag. *)
Lemma loadLoop_effect (stack : list (nat * NewTile)) (st : LoadState) :
  exists created,
    arena (loadLoop tileRefine stack st) = arena st ++ created
    /\ _allTilesAdditive (loading (loadLoop tileRefine stack st))
       = _allTilesAdditive (loading st)
         && forallb isAdditive (List.map snd stack) && forallb isAdditive created
    /\ Permutation (List.map _header created)
         (flat_map descendantHeaders (stackHeaders stack)).
Proof.
  funelim (loadLoop tileRefine stack st).
  - exists []. simpl. rewrite List.app_nil_r, !andb_true_r. repeat split. constructor.
  - destruct H as (created & Harena & Hflag & Hperm).
    destruct (loadStep_effect tile st) as [Ha Hf].
    pose proof (loadStep_headers tileRefine tile st) as Hh.
    set (pushed := snd (loadStep tileRefine tile st)) in *.
    exists (List.map snd pushed ++ created). split; [|split].
    + rewrite Harena, Ha. now rewrite <- List.app_assoc.
    + rewrite Hflag, Hf. rewrite List.map_app, List.map_rev.
      rewrite !forallb_app, forallb_reverse. simpl.
      destruct (_allTilesAdditive (loading st)), (isAdditive (snd tile)),
        (forallb isAdditive (List.map snd pushed)),
        (forallb isAdditive (List.map snd stack)),
        (forallb isAdditive created); reflexivity.
    + rewrite List.map_app, List.map_map. fold (stackHeaders pushed). rewrite Hh.
      rewrite Hperm. unfold stackHeaders at 1. rewrite List.map_app, List.map_rev.
      fold (stackHeaders pushed). rewrite Hh.
      rewrite flat_map_app. simpl.
      unfold descendantHeaders at 3. rewrite flat_map_allHeaders.
      rewrite <- (Permutation_rev (childHeaders (_header (snd tile)))).
      now rewrite <- List.app_assoc.
Qed.

(** C9. When [loadTileset] returns, [_allTilesAdditive] is true exactly
    when it was true on entry and every tile created from the tileset JSON
    (one for the root header and one for every header reachable through
    the children lists) has refine mode [ADD]. *)
Theorem loadTileset_allTilesAdditive (tilesetJson : TilesetJson)
    (parentTile : option (nat * NewTile)) (st st' : LoadState) (rootIndex : nat) :
  loadTileset tileRefine tilesetJson parentTile st = Returned rootIndex st' ->
  exists created,
    arena st' = arena st ++ created
    /\ Permutation (List.map _header created) (allHeaders (root tilesetJson))
    /\ _allTilesAdditive (loading st')
       = _allTilesAdditive (loading st) && forallb isAdditive created
    /\ (_allTilesAdditive (loading st') = true
        <-> _allTilesAdditive (loading st) = true
            /\ forall t, In t created -> refine t = ADD).
Proof.
  unfold loadTileset. intros H.
  destruct (asset tilesetJson) as [a|]; [|discriminate].
  destruct (negb _ && negb _); [discriminate|].
  injection H as Hroot Hst. subst st'.
  set (st0 := appendTilesetVersion a st) in *.
  set (rootTile := createRoot tileRefine tilesetJson parentTile) in *.
  destruct (loadLoop_effect [(rootIndex, rootTile)] (attachRoot rootTile parentTile st0))
    as (created & Harena & Hflag & Hperm).
  rewrite Hroot in *.
  assert (Hheader : _header rootTile = root tilesetJson)
    by (unfold rootTile, createRoot; destruct parentTile; reflexivity).
  assert (H0 : arena st0 = arena st
               /\ _allTilesAdditive (loading st0) = _allTilesAdditive (loading st))
    by (unfold st0, appendTilesetVersion; destruct (tilesetVersion a); split; reflexivity).
  destruct H0 as [Ha0 Hf0].
  assert (Hflag' :
            _allTilesAdditive
              (loading (loadLoop tileRefine [(rootIndex, rootTile)]
                          (attachRoot rootTile parentTile st0)))
            = _allTilesAdditive (loading st) && forallb isAdditive (rootTile :: created)).
  { rewrite Hflag. simpl. now rewrite Hf0, andb_true_r, andb_assoc. }
  exists (rootTile :: created). split; [|split; [|split]].
  - rewrite Harena. simpl. now rewrite Ha0, <- List.app_assoc.
  - simpl. rewrite Hheader, allHeaders_unfold. constructor.
    rewrite Hperm. simpl. now rewrite List.app_nil_r, Hheader.
  - exact Hflag'.
  - rewrite Hflag', andb_true_iff, forallb_forall. unfold isAdditive.
    split; intros [H1 H2]; (split; [exact H1|]); intros t Ht; specialize (H2 t Ht).
    + now destruct (refine t).
    + now rewrite H2.
Qed.

End LoadTilesetFacts.

(** ** The accounting of pending requests *)

Section PendingRequests.
Variable ext : Collaborators.

Lemma indexOfFrom_spec (l : list TileRef) (t : TileRef) (i : Z) :
  0 <= i ->
  (In t l -> i <= indexOfFrom l t i) /\ (~ In t l -> indexOfFrom l t i = -1).
Proof.
  revert i. induction l as [|x l IH]; intros i Hi; simpl.
  - split; [intros []|reflexivity].
  - destruct (Nat.eqb_spec x t) as [->|Hne].
    + split; [lia|]. intros H. exfalso. apply H. now left.
    + destruct (IH (i + 1) ltac:(lia)) as [H1 H2]. split.
      * intros [Hx|Hin]; [contradiction|]. specialize (H1 Hin). lia.
      * intros Hn. apply H2. intros Hin. apply Hn. now right.
Qed.

Lemma inQueue_iff (w : World) (t : TileRef) :
  inQueue w t = true <-> In t (queueOf w).
Proof.
  unfold inQueue, indexOf.
  destruct (indexOfFrom_spec (queueOf w) t 0 ltac:(lia)) as [H1 H2].
  rewrite Z.leb_le. split.
  - intros H. destruct (in_dec Nat.eq_dec t (queueOf w)) as [Hin|Hn]; [exact Hin|].
    rewrite (H2 Hn) in H. lia.
  - exact H1.
Qed.

Lemma inQueue_false_iff (w : World) (t : TileRef) :
  inQueue w t = false <-> ~ In t (queueOf w).
Proof.
  rewrite <- inQueue_iff. destruct (inQueue w t); split; congruence.
Qed.

Lemma changesOf_app (t : TileRef) (d : Z) (log : list (TileRef * Z)) (e : TileRef * Z) :
  changesOf t d (log ++ [e])
  = (changesOf t d log + (if Nat.eqb (fst e) t && Z.eqb (snd e) d then 1 else 0))%nat.
Proof.
  unfold changesOf. rewrite List.filter_app, length_app. f_equal.
  destruct e as [a b]. cbn. destruct (Nat.eqb a t && Z.eqb b d); reflexivity.
Qed.

Lemma logTotal_app (log : list (TileRef * Z)) (e : TileRef * Z) :
  logTotal (log ++ [e]) = logTotal log + snd e.
Proof.
  unfold logTotal. rewrite List.map_app. simpl.
  induction (List.map snd log) as [|x xs IH]; simpl; lia.
Qed.

Lemma phase_loading (s : Cesium3DTileContentState) : phase s = Some true <-> s = LOADING.
Proof. destruct s; simpl; split; congruence. Qed.

Lemma phase_processing (s : Cesium3DTileContentState) :
  phase s = Some false <-> s = PROCESSING.
Proof. destruct s; simpl; split; congruence. Qed.

Lemma samePipeline_refl (w : World) : samePipeline w w.
Proof. repeat split. Qed.

Lemma samePipeline_trans (w1 w2 w3 : World) :
  samePipeline w1 w2 -> samePipeline w2 w3 -> samePipeline w1 w3.
Proof.
  intros (Q1 & L1 & N1 & T1) (Q2 & L2 & N2 & T2).
  repeat split; try congruence; destruct (T1 t) as (? & ? & ?);
    destruct (T2 t) as (? & ? & ?); congruence.
Qed.

Section Respect.
Variables w w' : World.
Hypothesis Hsame : samePipeline w w'.

Lemma samePipeline_state (t : TileRef) :
  (stateOf w' t = LOADING <-> stateOf w t = LOADING)
  /\ (stateOf w' t = PROCESSING <-> stateOf w t = PROCESSING).
Proof.
  destruct Hsame as (_ & _ & _ & Ht). destruct (Ht t) as (Hp & _ & _).
  rewrite <- !phase_loading, <- !phase_processing, Hp. split; reflexivity.
Qed.

Lemma samePipeline_inQueue (t : TileRef) : inQueue w' t = inQueue w t.
Proof. destruct Hsame as (Hq & _). unfold inQueue. now rewrite Hq. Qed.

Lemma samePipeline_inFlight (t : TileRef) : inFlight w' t = inFlight w t.
Proof.
  destruct Hsame as (_ & _ & _ & Ht). destruct (Ht t) as (Hp & _ & _).
  unfold inFlight. fold (stateOf w' t) (stateOf w t).
  destruct (stateOf w' t), (stateOf w t); simpl in Hp; try discriminate; reflexivity.
Qed.

Lemma samePipeline_duringFrame : duringFrame w -> duringFrame w'.
Proof.
  intros (Hq & Hp & Hacc & Hn).
  pose proof Hsame as (HQ & HL & HN & Ht).
  split; [|split; [|split]].
  - intros t Hs. rewrite samePipeline_inQueue. apply Hq.
    now apply (samePipeline_state t).
  - intros t. destruct (Ht t) as (_ & H1 & H2). destruct (Hp t) as [Ha Hb].
    rewrite H1, H2. split; intros Hs; [apply Ha|apply Hb];
      now apply (samePipeline_state t).
  - intros t. unfold pendingIncrements, pendingDecrements.
    rewrite HL, samePipeline_inFlight. apply Hacc.
  - now rewrite HN, HL.
Qed.

Lemma samePipeline_betweenSteps : betweenSteps w -> betweenSteps w'.
Proof.
  intros [Hl Hd]. split; [|now apply samePipeline_duringFrame].
  intros t Hs. rewrite samePipeline_inQueue. apply Hl.
  now apply (samePipeline_state t).
Qed.

End Respect.


(** *** What the continuations do to the pipeline *)

Lemma addToProcessingQueue_view (t : TileRef) (w : World) :
  tiles (addToProcessingQueue t w) = tiles w
  /\ queueOf (addToProcessingQueue t w) = queueOf w ++ [t]
  /\ pendingLog (addToProcessingQueue t w) = pendingLog w ++ [(t, -1)]
  /\ pendingOf (addToProcessingQueue t w) = pendingOf w - 1.
Proof. repeat split. Qed.

Lemma handleTileSuccess_samePipeline (t : TileRef) (w : World) :
  samePipeline w (fst (handleTileSuccess ext t w)).
Proof.
  unfold handleTileSuccess.
  destruct (negb (hasTilesetContent (tiles _ t))); repeat split.
Qed.

Lemma handleTileFailure_view (t : TileRef) (error : LoadError) (w : World) :
  tiles (handleTileFailure t error w) = tiles w
  /\ queueOf (handleTileFailure t error w) = queueOf w
  /\ pendingLog (handleTileFailure t error w)
     = (if inQueue w t then pendingLog w else pendingLog w ++ [(t, -1)])
  /\ pendingOf (handleTileFailure t error w)
     = (if inQueue w t then pendingOf w else pendingOf w - 1).
Proof.
  unfold handleTileFailure, inQueue, queueOf.
  destruct (0 <=? indexOf (_processingQueue (tileset w)) t);
    match goal with
    | |- context [Nat.ltb 0 ?n] => destruct (Nat.ltb 0 n)
    end; repeat split.
Qed.

(** A failure reported for a tile of the processing queue leaves the
    pending requests alone. *)
Lemma handleTileFailure_queued (t : TileRef) (error : LoadError) (w : World) :
  inQueue w t = true -> samePipeline w (handleTileFailure t error w).
Proof.
  intros Hq. destruct (handleTileFailure_view t error w) as (Ht & HQ & Hl & Hn).
  rewrite Hq in Hl, Hn. unfold samePipeline, stateOf. rewrite Ht.
  repeat split; assumption.
Qed.

(** The chain attached to the ready promise, when the promise resolves
    for a tile of the processing queue: the success handler runs, and the
    failure handler after it if a listener threw. *)
Lemma settleChain_resolved (t : TileRef) (w : World) :
  inQueue w t = true ->
  samePipeline w (settleChain ext Resolved w (HandleTileSuccess t, HandleTileFailure t)).
Proof.
  intros Hq. unfold settleChain. cbn [fst snd runContinuation].
  pose proof (handleTileSuccess_samePipeline t w) as Hs.
  destruct (handleTileSuccess ext t w) as [w1 [error|]]; cbn [fst] in *; [|exact Hs].
  apply (samePipeline_trans w w1); [exact Hs|].
  apply handleTileFailure_queued. now rewrite (samePipeline_inQueue w w1 Hs).
Qed.

(** *** The completions keep the invariant *)

Lemma inFlight_cases (w : World) (t : TileRef) :
  (stateOf w t = LOADING /\ inFlight w t = 1%nat)
  \/ (stateOf w t <> LOADING /\ inFlight w t = 0%nat).
Proof.
  unfold inFlight, stateOf. destruct (_contentState (tiles w t)); simpl;
    first [left; split; [reflexivity|reflexivity] | right; split; [discriminate|reflexivity]].
Qed.

Lemma contentAvailable_betweenSteps (t : TileRef) (w : World) :
  stateOf w t = LOADING -> betweenSteps w -> betweenSteps (contentAvailable ext t w).
Proof.
  intros Hs (Hlq & Hpq & Hpa & Hacc & Hn).
  destruct (Hpa t) as [Hp _]. destruct (Hp Hs) as [Hp1 Hp2].
  assert (Heq : contentAvailable ext t w
                = addToProcessingQueue t (with_tile t (with_contentState PROCESSING) w)).
  { unfold contentAvailable. cbn [tiles with_tile]. rewrite Nat.eqb_refl.
    cbn [contentReadyToProcessPromise with_contentState]. rewrite Hp1. reflexivity. }
  rewrite Heq. set (w1 := with_tile t (with_contentState PROCESSING) w).
  destruct (addToProcessingQueue_view t w1) as (Ht & Hq & Hl & HN).
  set (w2 := addToProcessingQueue t w1) in *.
  assert (Hst : forall r, stateOf w2 r = if Nat.eqb r t then PROCESSING else stateOf w r).
  { intros r. unfold stateOf. rewrite Ht. unfold w1. cbn.
    destruct (Nat.eqb r t); reflexivity. }
  assert (Hpr : forall r, contentReadyPromise (tiles w2 r) = contentReadyPromise (tiles w r)
                          /\ contentReadyToProcessPromise (tiles w2 r)
                             = contentReadyToProcessPromise (tiles w r)).
  { intros r. rewrite Ht. unfold w1. cbn. destruct (Nat.eqb r t); split; reflexivity. }
  assert (Hin : forall r, In r (queueOf w2) <-> In r (queueOf w) \/ r = t).
  { intros r. rewrite Hq, in_app_iff. simpl. intuition. }
  split; [|split; [|split; [|split]]].
  - intros r Hr. rewrite Hst in Hr. destruct (Nat.eqb_spec r t) as [He|Hne]; [subst r|]; [discriminate|].
    apply inQueue_false_iff. rewrite Hin. intros [Hi|He]; [|contradiction].
    apply (proj1 (inQueue_false_iff w r)); [now apply Hlq|exact Hi].
  - intros r Hr. apply inQueue_iff, Hin. rewrite Hst in Hr.
    destruct (Nat.eqb_spec r t) as [He|Hne]; [subst r|]; [now right|left].
    apply inQueue_iff. now apply Hpq.
  - intros r. destruct (Hpr r) as [H2 H1]. rewrite H1, H2, Hst.
    destruct (Nat.eqb_spec r t) as [He|Hne]; [subst r|].
    + split; [discriminate|]. intros _. exact Hp2.
    + apply Hpa.
  - intros r. unfold pendingIncrements, pendingDecrements. rewrite Hl, !changesOf_app.
    cbn [fst snd]. specialize (Hacc r). unfold pendingIncrements, pendingDecrements in Hacc.
    unfold inFlight. fold (stateOf w2 r). rewrite Hst.
    destruct (Nat.eqb_spec t r) as [He|Hne]; [subst r|].
    + rewrite Nat.eqb_refl. simpl.
      destruct (inFlight_cases w t) as [[_ Hf]|[Hf _]]; [|contradiction]. lia.
    + destruct (Nat.eqb_spec r t) as [He|_]; [congruence|]. simpl.
      unfold inFlight in Hacc. fold (stateOf w r) in Hacc. lia.
  - rewrite HN, Hl, logTotal_app.
    change (pendingOf w1) with (pendingOf w). change (pendingLog w1) with (pendingLog w).
    simpl. lia.
Qed.


Lemma changesOf_append (t : TileRef) (d : Z) (l1 l2 : list (TileRef * Z)) :
  changesOf t d (l1 ++ l2) = (changesOf t d l1 + changesOf t d l2)%nat.
Proof. unfold changesOf. now rewrite List.filter_app, length_app. Qed.

Lemma logTotal_append (l1 l2 : list (TileRef * Z)) :
  logTotal (l1 ++ l2) = logTotal l1 + logTotal l2.
Proof.
  unfold logTotal. rewrite List.map_app.
  induction (List.map snd l1) as [|x xs IH]; simpl; lia.
Qed.

Lemma changesOf_other (t r : TileRef) (d : Z) (l : list (TileRef * Z)) :
  r <> t -> Forall (fun e => fst e = t) l -> changesOf r d l = 0%nat.
Proof.
  intros Hne Hall. unfold changesOf. induction Hall as [|[a b] l He _ IH]; [reflexivity|].
  simpl in *. destruct (Nat.eqb_spec a r) as [Hr|_]; [congruence|]. exact IH.
Qed.

(** A step that concerns one tile [t]: the log grows by entries about
    [t], the counter moves by their total, and the flight status of every
    other tile is as before. *)
Lemma accountsBalanced_step (w w2 : World) (t : TileRef) (new : list (TileRef * Z)) :
  accountsBalanced w ->
  pendingLog w2 = pendingLog w ++ new ->
  Forall (fun e => fst e = t) new ->
  pendingOf w2 = pendingOf w + logTotal new ->
  (forall r, r <> t -> inFlight w2 r = inFlight w r) ->
  (inFlight w t + changesOf t 1 new = changesOf t (-1) new + inFlight w2 t)%nat ->
  accountsBalanced w2.
Proof.
  intros [Hacc Hn] Hl Hall HN Hother Ht. split.
  - intros r. unfold pendingIncrements, pendingDecrements. rewrite Hl, !changesOf_append.
    specialize (Hacc r). unfold pendingIncrements, pendingDecrements in Hacc.
    destruct (Nat.eq_dec r t) as [He|Hne].
    + subst r. lia.
    + rewrite (changesOf_other t r 1 new Hne Hall), (changesOf_other t r (-1) new Hne Hall).
      rewrite (Hother r Hne). lia.
  - rewrite HN, Hl, logTotal_append, Hn. reflexivity.
Qed.

Lemma promisesAttached_step (w w2 : World) (t : TileRef) :
  promisesAttached w ->
  (forall r, r <> t ->
     stateOf w2 r = stateOf w r
     /\ contentReadyToProcessPromise (tiles w2 r) = contentReadyToProcessPromise (tiles w r)
     /\ contentReadyPromise (tiles w2 r) = contentReadyPromise (tiles w r)) ->
  (stateOf w2 t = LOADING ->
     contentReadyToProcessPromise (tiles w2 t) = [AddToProcessingQueue t]
     /\ contentReadyPromise (tiles w2 t) = [(HandleTileSuccess t, HandleTileFailure t)]) ->
  (stateOf w2 t = PROCESSING ->
     contentReadyPromise (tiles w2 t) = [(HandleTileSuccess t, HandleTileFailure t)]) ->
  promisesAttached w2.
Proof.
  intros Hpa Hother Hl Hp r. destruct (Nat.eq_dec r t) as [He|Hne].
  - subst r. split; assumption.
  - destruct (Hother r Hne) as (Hs & H1 & H2). rewrite Hs, H1, H2. apply Hpa.
Qed.

Lemma inFlight_of_state (w : World) (t : TileRef) (s : Cesium3DTileContentState) :
  stateOf w t = s -> inFlight w t = if contentState_eqb s LOADING then 1%nat else 0%nat.
Proof. intros <-. reflexivity. Qed.

(** Changing the state of one tile. *)
Lemma with_tile_other (t r : TileRef) (f : Tile -> Tile) (w : World) :
  r <> t -> tiles (with_tile t f w) r = tiles w r.
Proof.
  intros Hne. cbn. destruct (Nat.eqb_spec r t); [contradiction|reflexivity].
Qed.

Lemma with_tile_same (t : TileRef) (f : Tile -> Tile) (w : World) :
  tiles (with_tile t f w) t = f (tiles w t).
Proof. cbn. now rewrite Nat.eqb_refl. Qed.

Lemma contentReady_betweenSteps (t : TileRef) (c : Content) (w : World) :
  stateOf w t = PROCESSING -> betweenSteps w -> betweenSteps (contentReady ext t c w).
Proof.
  intros Hs (Hlq & Hpq & Hpa & Hacc).
  destruct (Hpa t) as [_ Hp]. specialize (Hp Hs).
  set (w1 := with_tile t (fun x => with_content c (with_contentState READY x)) w).
  assert (Heq : contentReady ext t c w
                = settleChain ext Resolved w1 (HandleTileSuccess t, HandleTileFailure t)).
  { unfold contentReady. fold w1. unfold w1 at 1. rewrite with_tile_same.
    cbn [contentReadyPromise with_content with_contentState]. rewrite Hp. reflexivity. }
  rewrite Heq.
  apply (samePipeline_betweenSteps w1 _ (settleChain_resolved t w1 (Hpq t Hs))).
  assert (Hst : stateOf w1 t = READY) by (unfold stateOf, w1; now rewrite with_tile_same).
  assert (Hother : forall r, r <> t -> tiles w1 r = tiles w r)
    by (intros r Hr; now apply with_tile_other).
  split; [|split; [|split]].
  - intros r Hr. destruct (Nat.eq_dec r t) as [He|Hne]; [subst r; congruence|].
    unfold stateOf in Hr. rewrite (Hother r Hne) in Hr. now apply Hlq.
  - intros r Hr. destruct (Nat.eq_dec r t) as [He|Hne]; [subst r; congruence|].
    unfold stateOf in Hr. rewrite (Hother r Hne) in Hr. now apply Hpq.
  - apply (promisesAttached_step w w1 t Hpa).
    + intros r Hr. unfold stateOf. now rewrite (Hother r Hr).
    + rewrite Hst. discriminate.
    + rewrite Hst. discriminate.
  - apply (accountsBalanced_step w w1 t [] Hacc).
    + now rewrite List.app_nil_r.
    + constructor.
    + unfold logTotal. simpl. change (pendingOf w1) with (pendingOf w). lia.
    + intros r Hr. unfold inFlight. now rewrite (Hother r Hr).
    + rewrite (inFlight_of_state w t _ Hs), (inFlight_of_state w1 t _ Hst). reflexivity.
Qed.

Lemma contentFailed_betweenSteps (t : TileRef) (error : LoadError) (w : World) :
  stateOf w t = LOADING \/ stateOf w t = PROCESSING ->
  betweenSteps w -> betweenSteps (contentFailed ext t error w).
Proof.
  intros Hs (Hlq & Hpq & Hpa & Hacc).
  assert (Hp : contentReadyPromise (tiles w t) = [(HandleTileSuccess t, HandleTileFailure t)]).
  { destruct (Hpa t) as [H1 H2]. destruct Hs as [Hs|Hs]; [apply H1|apply H2]; exact Hs. }
  set (w1 := with_tile t (with_contentState FAILED) w).
  assert (Heq : contentFailed ext t error w = handleTileFailure t error w1).
  { unfold contentFailed. fold w1. unfold w1 at 1. rewrite with_tile_same.
    cbn [contentReadyPromise with_contentState]. rewrite Hp. reflexivity. }
  rewrite Heq.
  destruct (handleTileFailure_view t error w1) as (Ht & Hq & Hl & HN).
  set (w2 := handleTileFailure t error w1) in *.
  change (queueOf w1) with (queueOf w) in Hq.
  change (inQueue w1 t) with (inQueue w t) in Hl, HN.
  change (pendingLog w1) with (pendingLog w) in Hl.
  change (pendingOf w1) with (pendingOf w) in HN.
  assert (Hst : stateOf w2 t = FAILED)
    by (unfold stateOf; rewrite Ht; unfold w1; now rewrite with_tile_same).
  assert (Hother : forall r, r <> t -> tiles w2 r = tiles w r)
    by (intros r Hr; rewrite Ht; now apply with_tile_other).
  assert (HinQ : forall r, inQueue w2 r = inQueue w r)
    by (intros r; unfold inQueue; now rewrite Hq).
  split; [|split; [|split]].
  - intros r Hr. destruct (Nat.eq_dec r t) as [He|Hne]; [subst r; congruence|].
    unfold stateOf in Hr. rewrite (Hother r Hne) in Hr. rewrite HinQ. now apply Hlq.
  - intros r Hr. destruct (Nat.eq_dec r t) as [He|Hne]; [subst r; congruence|].
    unfold stateOf in Hr. rewrite (Hother r Hne) in Hr. rewrite HinQ. now apply Hpq.
  - apply (promisesAttached_step w w2 t Hpa).
    + intros r Hr. unfold stateOf. now rewrite (Hother r Hr).
    + rewrite Hst. discriminate.
    + rewrite Hst. discriminate.
  - destruct Hs as [Hs|Hs].
    + rewrite (Hlq t Hs) in Hl, HN.
      apply (accountsBalanced_step w w2 t [(t, -1)] Hacc Hl).
      * repeat constructor.
      * rewrite HN. unfold logTotal. simpl. lia.
      * intros r Hr. unfold inFlight. now rewrite (Hother r Hr).
      * rewrite (inFlight_of_state w t _ Hs), (inFlight_of_state w2 t _ Hst).
        unfold changesOf. simpl. rewrite Nat.eqb_refl. reflexivity.
    + rewrite (Hpq t Hs) in Hl, HN.
      apply (accountsBalanced_step w w2 t [] Hacc).
      * now rewrite List.app_nil_r.
      * constructor.
      * rewrite HN. unfold logTotal. simpl. lia.
      * intros r Hr. unfold inFlight. now rewrite (Hother r Hr).
      * rewrite (inFlight_of_state w t _ Hs), (inFlight_of_state w2 t _ Hst). reflexivity.
Qed.


Lemma contentReady_queue (t : TileRef) (c : Content) (w : World) :
  stateOf w t = PROCESSING -> betweenSteps w ->
  queueOf (contentReady ext t c w) = queueOf w.
Proof.
  intros Hs (_ & Hpq & Hpa & _). destruct (Hpa t) as [_ Hp]. specialize (Hp Hs).
  unfold contentReady. rewrite with_tile_same.
  cbn [contentReadyPromise with_content with_contentState]. rewrite Hp. simpl fold_left.
  now destruct (settleChain_resolved t
                  (with_tile t (fun x => with_content c (with_contentState READY x)) w)
                  (Hpq t Hs))
    as (Hq & _).
Qed.

Lemma contentFailed_queue (t : TileRef) (error : LoadError) (w : World) :
  stateOf w t = PROCESSING -> betweenSteps w ->
  queueOf (contentFailed ext t error w) = queueOf w.
Proof.
  intros Hs (_ & _ & Hpa & _). destruct (Hpa t) as [_ Hp]. specialize (Hp Hs).
  unfold contentFailed. rewrite with_tile_same.
  cbn [contentReadyPromise with_contentState]. rewrite Hp. simpl fold_left.
  now destruct (handleTileFailure_view t error (with_tile t (with_contentState FAILED) w))
    as (_ & Hq & _).
Qed.

(** *** The frame keeps the invariant *)

Lemma samePipeline_fold {A : Type} (f : World -> A -> World) (l : list A) (w : World) :
  (forall w x, samePipeline w (f w x)) -> samePipeline w (fold_left f l w).
Proof.
  intros Hf. revert w. induction l as [|x l IH]; intros w; simpl.
  - apply samePipeline_refl.
  - eapply samePipeline_trans; [apply Hf|apply IH].
Qed.

Lemma samePipeline_with_tileset (f : Tileset -> Tileset) (w : World) :
  (forall ts, _processingQueue (f ts) = _processingQueue ts
              /\ numberOfPendingRequests (_statistics (f ts))
                 = numberOfPendingRequests (_statistics ts)) ->
  samePipeline w (with_tileset f w).
Proof.
  intros Hf. destruct (Hf (tileset w)) as [Hq Hn]. repeat split; assumption.
Qed.

Lemma samePipeline_with_tile (t : TileRef) (f : Tile -> Tile) (w : World) :
  (forall x, phase (_contentState (f x)) = phase (_contentState x)
             /\ contentReadyToProcessPromise (f x) = contentReadyToProcessPromise x
             /\ contentReadyPromise (f x) = contentReadyPromise x) ->
  samePipeline w (with_tile t f w).
Proof.
  intros Hf. repeat split; unfold stateOf; cbn; destruct (Nat.eqb t0 t);
    try reflexivity; apply Hf.
Qed.

Lemma selectTiles_samePipeline (fs : FrameState) (w : World) :
  samePipeline w (selectTiles ext fs w).
Proof.
  unfold selectTiles.
  eapply samePipeline_trans; [|apply samePipeline_fold].
  eapply samePipeline_trans; [|apply samePipeline_with_tileset].
  eapply samePipeline_trans; [|apply samePipeline_fold].
  eapply samePipeline_trans; [|apply samePipeline_fold].
  - apply samePipeline_with_tileset. intros ts. split; reflexivity.
  - intros w0 t. unfold expireTile. apply samePipeline_with_tile.
    intros x. destruct (_contentState x) eqn:E; simpl; rewrite ?E; repeat split.
  - intros w0 t. apply samePipeline_with_tileset. intros ts. split; reflexivity.
  - intros ts. split; reflexivity.
  - intros w0 r. unfold pushRequested.
    eapply samePipeline_trans; [apply samePipeline_with_tile|apply samePipeline_with_tileset].
    + intros x. repeat split.
    + intros ts. split; reflexivity.
Qed.

Lemma requestContent_refused (t : TileRef) (w : World) :
  requestGranted ext t w = false -> samePipeline w (requestContent ext t w).
Proof.
  unfold requestGranted, requestContent, Tile_requestContent, stateOf.
  destruct (hasEmptyContent (tiles w t)); simpl; [intros _; apply samePipeline_refl|].
  intros ->. repeat split.
Qed.

Lemma requestContent_granted (t : TileRef) (w : World) :
  requestGranted ext t w = true ->
  (forall r, r <> t -> tiles (requestContent ext t w) r = tiles w r)
  /\ stateOf (requestContent ext t w) t = LOADING
  /\ contentReadyToProcessPromise (tiles (requestContent ext t w) t)
     = [AddToProcessingQueue t]
  /\ contentReadyPromise (tiles (requestContent ext t w) t)
     = [(HandleTileSuccess t, HandleTileFailure t)]
  /\ queueOf (requestContent ext t w) = queueOf w
  /\ pendingLog (requestContent ext t w) = pendingLog w ++ [(t, 1)]
  /\ pendingOf (requestContent ext t w) = pendingOf w + 1.
Proof.
  unfold requestGranted, requestContent, Tile_requestContent, stateOf.
  destruct (hasEmptyContent (tiles w t)); simpl; [discriminate|].
  intros ->.
  destruct (contentExpired (tiles w t));
    [destruct (hasTilesetContent _)|];
    (split; [intros r Hr; cbn; destruct (Nat.eqb_spec r t); [contradiction|reflexivity]|]);
    cbn; rewrite ?Nat.eqb_refl; repeat split.
Qed.

Lemma requestContent_duringFrame (t : TileRef) (w : World) :
  duringFrame w -> duringFrame (requestContent ext t w).
Proof.
  intros Hd. destruct (requestGranted ext t w) eqn:G.
  - destruct (requestContent_granted t w G) as (Hother & Hst & Hp1 & Hp2 & Hq & Hl & HN).
    destruct Hd as (Hpq & Hpa & Hacc).
    assert (Hold : stateOf w t <> LOADING /\ stateOf w t <> PROCESSING).
    { unfold requestGranted in G. apply andb_true_iff in G as [_ G].
      apply andb_true_iff in G as [G _].
      destruct (stateOf w t); simpl in G; split; congruence. }
    split; [|split].
    + intros r Hr. destruct (Nat.eq_dec r t) as [He|Hne]; [subst r; congruence|].
      unfold stateOf in Hr. rewrite (Hother r Hne) in Hr.
      unfold inQueue. rewrite Hq. now apply Hpq.
    + apply (promisesAttached_step w _ t Hpa).
      * intros r Hr. unfold stateOf. now rewrite (Hother r Hr).
      * intros _. split; assumption.
      * intros _. assumption.
    + apply (accountsBalanced_step w _ t [(t, 1)] Hacc Hl).
      * repeat constructor.
      * rewrite HN. unfold logTotal. simpl. lia.
      * intros r Hr. unfold inFlight. now rewrite (Hother r Hr).
      * rewrite (inFlight_of_state _ t _ Hst).
        destruct (inFlight_cases w t) as [[Hf _]|[_ Hf]]; [now destruct Hold|].
        rewrite Hf. unfold changesOf. simpl. rewrite Nat.eqb_refl. reflexivity.
  - apply (samePipeline_duringFrame w _ (requestContent_refused t w G) Hd).
Qed.

Lemma requestTiles_duringFrame (w : World) :
  duringFrame w -> duringFrame (requestTiles ext w).
Proof.
  intros Hd. rewrite requestTiles_fold.
  set (l := Array_sort _ _).
  assert (H0 : duringFrame (with_tileset (with_requestedTiles l) w)).
  { apply (samePipeline_duringFrame w); [|exact Hd].
    apply samePipeline_with_tileset. intros ts. split; reflexivity. }
  revert H0. generalize (with_tileset (with_requestedTiles l) w).
  induction l as [|t l IH]; intros w0 H0; simpl; [exact H0|].
  apply IH. now apply requestContent_duringFrame.
Qed.

Lemma filterProcessingQueue_betweenSteps (w : World) :
  duringFrame w -> betweenSteps (filterProcessingQueue w).
Proof.
  intros (Hpq & Hpa & Hacc & Hn).
  destruct (filterProcessingQueue_view w) as (Hq & Ht & _ & Hl & Hs & _).
  set (w' := filterProcessingQueue w) in *.
  assert (Hst : forall r, stateOf w' r = stateOf w r)
    by (intros r; unfold stateOf; now rewrite Ht).
  assert (Hin : forall r, inQueue w' r = true <-> inQueue w r = true /\ stateOf w r = PROCESSING).
  { intros r. rewrite !inQueue_iff. unfold queueOf. rewrite Hq.
    rewrite List.filter_In. unfold isProcessing, stateOf.
    destruct (_contentState (tiles w r)); simpl; intuition congruence. }
  split; [|split; [|split; [|split]]].
  - intros r Hr. rewrite Hst in Hr.
    destruct (inQueue w' r) eqn:E; [|reflexivity].
    apply Hin in E as [_ E]. congruence.
  - intros r Hr. rewrite Hst in Hr.
    apply Hin. split; [now apply Hpq|exact Hr].
  - intros r. rewrite Hst, Ht. apply Hpa.
  - intros r. unfold pendingIncrements, pendingDecrements, inFlight.
    rewrite Hl, Ht. apply Hacc.
  - unfold pendingOf. now rewrite Hs, Hl.
Qed.

Lemma Tile_process_betweenSteps (fs : FrameState) (t : TileRef) (w : World) :
  betweenSteps w ->
  betweenSteps (Tile_process ext fs t w)
  /\ queueOf (Tile_process ext fs t w) = queueOf w.
Proof.
  intros Hb. unfold Tile_process.
  destruct (contentState_eqb (_contentState (tiles w t)) PROCESSING) eqn:E;
    [|split; [exact Hb|reflexivity]].
  assert (Hs : stateOf w t = PROCESSING)
    by (unfold stateOf; destruct (_contentState (tiles w t)); simpl in E; congruence).
  destruct (processOutcome ext w fs t) as [|c|e].
  - split; [exact Hb|reflexivity].
  - split; [now apply contentReady_betweenSteps|now apply contentReady_queue].
  - split; [apply contentFailed_betweenSteps; [now right|exact Hb]
           |now apply contentFailed_queue].
Qed.

Lemma forUpTo_invariant {St A : Type} (get : St -> list A) (f : A -> St -> St)
    (P : St -> Prop) :
  (forall a s, P s -> P (f a s) /\ get (f a s) = get s) ->
  forall count start s,
    P s ->
    P (forUpTo count start
         (fun i s => match get s !! i with Some a => f a s | None => s end) s).
Proof.
  intros Hf. induction count as [|count IH]; intros start s Hs; simpl; [exact Hs|].
  apply IH. destruct (get s !! start); [now apply Hf|exact Hs].
Qed.

Lemma processTiles_betweenSteps (fs : FrameState) (w : World) :
  duringFrame w -> betweenSteps (processTiles ext fs w).
Proof.
  intros Hd. unfold processTiles.
  apply (forUpTo_invariant queueOf (Tile_process ext fs) betweenSteps).
  - intros t s Hs. now apply Tile_process_betweenSteps.
  - now apply filterProcessingQueue_betweenSteps.
Qed.

Lemma updateFixedFrame_betweenSteps (fs : FrameState) (w : World) :
  betweenSteps w -> betweenSteps (updateFixedFrame ext fs w).
Proof.
  intros Hb. unfold updateFixedFrame.
  destruct (negb (ready (tileset w)) || negb (visible (tileset w))); [exact Hb|].
  apply processTiles_betweenSteps, requestTiles_duringFrame.
  apply (samePipeline_duringFrame (with_tileset (with_requestedTiles []) w));
    [apply selectTiles_samePipeline|].
  apply (samePipeline_duringFrame w); [|apply Hb].
  apply samePipeline_with_tileset. intros ts. split; reflexivity.
Qed.

Lemma World_new_betweenSteps (tiles_ : TileRef -> Tile) :
  (forall t, _contentState (tiles_ t) = UNLOADED) -> betweenSteps (World_new tiles_).
Proof.
  intros Hu. unfold betweenSteps, duringFrame, loadingNotQueued, processingQueued,
    promisesAttached, accountsBalanced, stateOf, inFlight. cbn.
  repeat split; intros; rewrite ?Hu in *; try discriminate; reflexivity.
Qed.

Lemma Reachable_betweenSteps (w : World) : Reachable ext w -> betweenSteps w.
Proof.
  induction 1 as [tiles_ Hu|w w' _ IH Hstep].
  - now apply World_new_betweenSteps.
  - destruct Hstep as [w fs|w t Hs|w t c Hs|w t e Hs].
    + now apply updateFixedFrame_betweenSteps.
    + now apply contentAvailable_betweenSteps.
    + now apply contentReady_betweenSteps.
    + now apply contentFailed_betweenSteps.
Qed.

(** C3. In every world a run can reach, and for every tile: the number
    of decrements of [numberOfPendingRequests] made for the tile, by
    [addToProcessingQueue] when its content became ready to process or by
    [handleTileFailure] when its request failed, equals the number of its
    successful requests, less the one request still in flight if there is
    one.  So every completed request was decremented exactly once and an
    open one not yet; the counter itself is the sum of the recorded
    changes. *)
Theorem pending_request_decremented_once (w : World) (t : TileRef) :
  Reachable ext w ->
  pendingIncrements t w = (pendingDecrements t w + inFlight w t)%nat
  /\ (inFlight w t <= 1)%nat
  /\ pendingOf w = logTotal (pendingLog w).
Proof.
  intros Hr. destruct (Reachable_betweenSteps w Hr) as (_ & _ & _ & Hacc & Hn).
  split; [apply Hacc|split; [|exact Hn]].
  unfold inFlight. destruct (contentState_eqb _ _); lia.
Qed.

End PendingRequests.

(** ** requestContent on an expired tile *)

Section ExpiredTiles.
Variable ext : Collaborators.


End ExpiredTiles.



(** ** The frame update and eviction *)

Section FrameUpdate.
Variable ext : Collaborators.

Lemma nothingEvicted_refl (w : World) : nothingEvicted w w.
Proof. repeat split; auto. Qed.

Lemma nothingEvicted_trans (w1 w2 w3 : World) :
  nothingEvicted w1 w2 -> nothingEvicted w2 w3 -> nothingEvicted w1 w3.
Proof.
  intros (U1 & C1 & S1) (U2 & C2 & S2). repeat split; [congruence|auto|auto].
Qed.

Lemma nothingEvicted_fold {A : Type} (f : World -> A -> World) (l : list A) (w : World) :
  (forall w x, nothingEvicted w (f w x)) -> nothingEvicted w (fold_left f l w).
Proof.
  intros Hf. revert w. induction l as [|x l IH]; intros w; simpl.
  - apply nothingEvicted_refl.
  - eapply nothingEvicted_trans; [apply Hf|apply IH].
Qed.

Lemma nothingEvicted_forUpTo {A : Type} (get : World -> list A) (f : A -> World -> World)
    (count start : nat) (w : World) :
  (forall a w, nothingEvicted w (f a w)) ->
  nothingEvicted w
    (forUpTo count start
       (fun i w => match get w !! i with Some a => f a w | None => w end) w).
Proof.
  intros Hf. revert start w. induction count as [|count IH]; intros start w; simpl.
  - apply nothingEvicted_refl.
  - eapply nothingEvicted_trans; [|apply IH].
    destruct (get w !! start); [apply Hf|apply nothingEvicted_refl].
Qed.

(** Changes of the tileset that leave the cache's residents in place. *)
Lemma nothingEvicted_with_tileset (f : Tileset -> Tileset) (w : World) :
  (forall t, Cache_contains t (_cache (tileset w)) = true ->
             Cache_contains t (_cache (f (tileset w))) = true) ->
  nothingEvicted w (with_tileset f w).
Proof. intros Hc. repeat split; auto. Qed.

Lemma nothingEvicted_raise (n : Notification) (w : World) :
  (forall t, n <> TileUnload t) -> nothingEvicted w (raiseEvent n w).
Proof.
  intros Hn. repeat split; auto. unfold unloadNotifications. cbn.
  rewrite flat_map_app. simpl. destruct n; try now rewrite List.app_nil_r.
  now destruct (Hn tile).
Qed.

Lemma nothingEvicted_with_tile (t : TileRef) (f : Tile -> Tile) (w : World) :
  (forall x, _contentState (f x) = UNLOADED -> _contentState x = UNLOADED) ->
  nothingEvicted w (with_tile t f w).
Proof.
  intros Hf. repeat split; auto. intros r. unfold stateOf. cbn.
  destruct (Nat.eqb r t); auto.
Qed.

Lemma Cache_contains_app (t : TileRef) (l : list CacheEntry) (e : CacheEntry) (n : nat) :
  Cache_contains t (mkCache (l ++ [e]) n)
  = Cache_contains t (mkCache l n) || Nat.eqb (cachedTile e) t.
Proof. unfold Cache_contains. cbn. rewrite existsb_app. simpl. now rewrite orb_false_r. Qed.

Lemma Cache_add_keeps (t r : TileRef) (c : Cesium3DTilesetCache) :
  Cache_contains r c = true -> Cache_contains r (Cache_add t c) = true.
Proof.
  intros H. unfold Cache_add. destruct (Cache_contains t c); [exact H|].
  rewrite Cache_contains_app. destruct c. cbn in *. now rewrite H.
Qed.

Lemma Cache_touch_keeps (t r : TileRef) (c : Cesium3DTilesetCache) :
  Cache_contains r c = true -> Cache_contains r (Cache_touch t c) = true.
Proof.
  intros H. unfold Cache_touch. destruct (Cache_contains t c) eqn:E; [|exact H].
  rewrite Cache_contains_app. cbn.
  destruct (Nat.eqb_spec t r) as [Heq|Hne]; [apply orb_true_r|].
  rewrite orb_false_r. unfold Cache_contains, Cache_without in *. cbn.
  apply existsb_exists in H as (e & Hin & He). apply existsb_exists.
  exists e. split; [|exact He]. apply List.filter_In. split; [exact Hin|].
  apply Nat.eqb_eq in He. rewrite He.
  destruct (Nat.eqb_spec r t); [congruence|reflexivity].
Qed.

(** Neither continuation evicts. *)
Lemma runContinuation_nothingEvicted (how : Settlement) (w : World) (c : Continuation) :
  nothingEvicted w (fst (runContinuation ext how w c)).
Proof.
  destruct c as [t|t|t]; simpl.
  - repeat split; auto.
  - unfold handleTileSuccess.
    destruct (negb (hasTilesetContent (tiles _ t))).
    + repeat split; auto.
      * unfold unloadNotifications. cbn. rewrite flat_map_app. simpl.
        now rewrite List.app_nil_r.
      * intros r Hr. cbn. now apply Cache_add_keeps.
    + repeat split; auto. unfold unloadNotifications. cbn. rewrite flat_map_app. simpl.
      now rewrite List.app_nil_r.
  - destruct how as [|error]; [apply nothingEvicted_refl|].
    unfold handleTileFailure.
    destruct (0 <=? indexOf (_processingQueue (tileset w)) t);
      match goal with
      | |- context [Nat.ltb 0 ?n] => destruct (Nat.ltb 0 n)
      end;
      repeat split; auto; unfold unloadNotifications; cbn;
      rewrite ?flat_map_app; simpl; now rewrite ?List.app_nil_r.
Qed.

Lemma settleChain_nothingEvicted (how : Settlement) (w : World)
    (chain : Continuation * Continuation) :
  nothingEvicted w (settleChain ext how w chain).
Proof.
  unfold settleChain. destruct how as [|error];
    [|apply runContinuation_nothingEvicted].
  pose proof (runContinuation_nothingEvicted Resolved w (fst chain)) as H1.
  destruct (runContinuation ext Resolved w (fst chain)) as [w1 [error|]];
    cbn [fst] in H1; [|exact H1].
  eapply nothingEvicted_trans; [exact H1|apply runContinuation_nothingEvicted].
Qed.

Lemma settle_nothingEvicted (how : Settlement) (l : list (Continuation * Continuation))
    (w : World) :
  nothingEvicted w (fold_left (settleChain ext how) l w).
Proof. apply nothingEvicted_fold. intros. apply settleChain_nothingEvicted. Qed.

Lemma Tile_process_nothingEvicted (fs : FrameState) (t : TileRef) (w : World) :
  nothingEvicted w (Tile_process ext fs t w).
Proof.
  unfold Tile_process.
  destruct (contentState_eqb (_contentState (tiles w t)) PROCESSING);
    [|apply nothingEvicted_refl].
  destruct (processOutcome ext w fs t) as [|c|e]; [apply nothingEvicted_refl| |].
  - unfold contentReady. eapply nothingEvicted_trans; [|apply settle_nothingEvicted].
    apply nothingEvicted_with_tile. intros x. discriminate.
  - unfold contentFailed. eapply nothingEvicted_trans; [|apply settle_nothingEvicted].
    apply nothingEvicted_with_tile. intros x. discriminate.
Qed.

Lemma requestContent_nothingEvicted (t : TileRef) (w : World) :
  nothingEvicted w (requestContent ext t w).
Proof.
  unfold requestContent, Tile_requestContent.
  destruct (hasEmptyContent (tiles w t)); [apply nothingEvicted_refl|].
  destruct (_ && _); simpl.
  - destruct (contentExpired (tiles w t)); [destruct (hasTilesetContent _)|];
      (repeat split; auto;
       [unfold unloadNotifications; cbn; rewrite flat_map_app; simpl;
        now rewrite List.app_nil_r
       |intros r; unfold stateOf; cbn; destruct (Nat.eqb r t); [discriminate|auto]]).
  - repeat split; auto. unfold unloadNotifications. cbn. rewrite flat_map_app. simpl.
    now rewrite List.app_nil_r.
Qed.

Lemma selectTiles_nothingEvicted (fs : FrameState) (w : World) :
  nothingEvicted w (selectTiles ext fs w).
Proof.
  unfold selectTiles.
  eapply nothingEvicted_trans; [|apply nothingEvicted_fold].
  eapply nothingEvicted_trans; [|apply nothingEvicted_with_tileset].
  eapply nothingEvicted_trans; [|apply nothingEvicted_fold].
  eapply nothingEvicted_trans; [|apply nothingEvicted_fold].
  - apply nothingEvicted_with_tileset. auto.
  - intros w0 t. unfold expireTile. apply nothingEvicted_with_tile.
    intros x. destruct (_contentState x) eqn:E; simpl; rewrite ?E; congruence.
  - intros w0 t. apply nothingEvicted_with_tileset. intros r. cbn. apply Cache_touch_keeps.
  - auto.
  - intros w0 r. unfold pushRequested.
    eapply nothingEvicted_trans;
      [apply nothingEvicted_with_tile|apply nothingEvicted_with_tileset]; auto.
Qed.

Lemma requestTiles_nothingEvicted (w : World) :
  nothingEvicted w (requestTiles ext w).
Proof.
  unfold requestTiles.
  eapply nothingEvicted_trans;
    [|apply (nothingEvicted_forUpTo (fun w => _requestedTiles (tileset w))
               (requestContent ext));
      intros; apply requestContent_nothingEvicted].
  apply nothingEvicted_with_tileset. auto.
Qed.

Lemma processTiles_nothingEvicted (fs : FrameState) (w : World) :
  nothingEvicted w (processTiles ext fs w).
Proof.
  unfold processTiles.
  eapply nothingEvicted_trans;
    [|apply (nothingEvicted_forUpTo queueOf (Tile_process ext fs));
      intros; apply Tile_process_nothingEvicted].
  destruct (filterProcessingQueue_view w) as (_ & Ht & Hr & _ & _ & Hc).
  repeat split.
  - now rewrite Hr.
  - intros t. now rewrite Hc.
  - intros t. unfold stateOf. now rewrite Ht.
Qed.

(** No frame update evicts: it adds no tile-unloaded notification, every
    tile resident in the cache before the frame is resident after it, and
    no tile returns to [UNLOADED].  The frame update ends with the
    load-pipeline steps; the call of [unloadTiles] is inside a comment
    (lines 1096 to 1100). *)
Lemma updateFixedFrame_evicts_nothing (fs : FrameState) (w : World) :
  nothingEvicted w (updateFixedFrame ext fs w).
Proof.
  unfold updateFixedFrame.
  destruct (negb (ready (tileset w)) || negb (visible (tileset w)));
    [apply nothingEvicted_refl|].
  eapply nothingEvicted_trans; [|apply processTiles_nothingEvicted].
  eapply nothingEvicted_trans; [|apply requestTiles_nothingEvicted].
  eapply nothingEvicted_trans; [|apply selectTiles_nothingEvicted].
  apply nothingEvicted_with_tileset. auto.
Qed.

End FrameUpdate.

(** C1.  A frame update that leaves the tileset over budget.  Tile 0 was
    loaded in frames 1 and 2 and is resident with 1000 bytes against a
    budget of 512.  Frame 3 does not touch it.  After frame 3 the tileset
    is still over budget and the least-recently-used entry, last touched
    in frame 2, is still in the cache: no eviction took place.
    [unloadTiles], which Tileset.js defines and the frame update does not
    call, does evict the tile when it is called on that state: it
    notifies the unload, empties the cache and brings the resident bytes
    to zero. *)
Theorem updateFixedFrame_leaves_over_budget :
  let w := Scenario.resident in
  let w' := updateFixedFrame Scenario.ext (Scenario.frame 3) w in
  Reachable Scenario.ext w
  /\ ready (tileset w) = true /\ visible (tileset w) = true
  /\ totalMemoryUsageInBytes (tileset w') = 1000
  /\ _maximumMemoryUsage (tileset w') = 512%Q
  /\ overBudget w' = true
  /\ _cache (tileset w') = mkCache [mkCacheEntry 0%nat 2%nat] 3%nat
  /\ unloadNotifications (raised w') = []
  /\ ~ evictionSettled w'
  /\ unloadNotifications (raised (unloadTiles w')) = [0%nat]
  /\ entries (_cache (tileset (unloadTiles w'))) = []
  /\ totalMemoryUsageInBytes (tileset (unloadTiles w')) = 0
  /\ evictionSettled (unloadTiles w').
Proof.
  cbv zeta. split; [|repeat split].
  - unfold Scenario.resident.
    set (w0 := World_new Scenario.tiles0).
    set (w1 := updateFixedFrame Scenario.ext (Scenario.frame 1) w0).
    set (w2 := contentAvailable Scenario.ext 0%nat w1).
    apply (reach_step Scenario.ext w2); [|apply step_frame].
    apply (reach_step Scenario.ext w1); [|apply step_available; reflexivity].
    apply (reach_step Scenario.ext w0); [|apply step_frame].
    apply reach_new. reflexivity.
  - intros [H|H]; [discriminate H|]. vm_compute in H. discriminate H.
  - left. reflexivity.
Qed.

(** ** What unloadTiles does when it is called *)

(** With one cache entry per tile, [unloadTiles] stops under budget or at
    a least-recently-used entry touched this frame. *)
Lemma unloadTiles_settles (w : World) :
  List.NoDup (List.map cachedTile (entries (_cache (tileset w)))) ->
  evictionSettled (unloadTiles w).
Proof.
  unfold unloadTiles, Cache_unloadTiles.
  remember (entries (_cache (tileset w))) as candidates eqn:Hc.
  revert w Hc. induction candidates as [|e rest IH]; intros w Hc Hnd; simpl.
  - right. now rewrite <- Hc.
  - destruct (overBudget w) eqn:Ho; simpl; [|now left].
    destruct (touchedThisFrame (_cache (tileset w)) e) eqn:Ht; simpl.
    + right. now rewrite <- Hc.
    + inversion Hnd as [|x l Hnotin Hnd' Hx]; subst x l.
      apply IH; [|exact Hnd']. cbn. unfold Cache_without. rewrite <- Hc. simpl.
      rewrite Nat.eqb_refl. simpl.
      symmetry. apply forallb_filter_id. apply forallb_forall. intros e' He'.
      apply negb_true_iff, Nat.eqb_neq. intros Heq. apply Hnotin.
      rewrite <- Heq. now apply List.in_map.
Qed.

(** ** The scenarios, evaluated *)

Lemma pending_request_decremented_once_witness :
  pendingIncrements 0%nat Scenario.resident
  = (pendingDecrements 0%nat Scenario.resident + inFlight Scenario.resident 0%nat)%nat
  /\ (inFlight Scenario.resident 0%nat <= 1)%nat
  /\ pendingOf Scenario.resident = logTotal (pendingLog Scenario.resident).
Proof.
  apply (pending_request_decremented_once Scenario.ext Scenario.resident 0%nat).
  unfold Scenario.resident.
  set (w0 := World_new Scenario.tiles0).
  set (w1 := updateFixedFrame Scenario.ext (Scenario.frame 1) w0).
  set (w2 := contentAvailable Scenario.ext 0%nat w1).
  apply (reach_step Scenario.ext w2); [|apply step_frame].
  apply (reach_step Scenario.ext w1); [|apply step_available; reflexivity].
  apply (reach_step Scenario.ext w0); [|apply step_frame].
  apply reach_new. reflexivity.
Defined.

Example requestTiles_busy_order :
  _requestedTiles (tileset (requestTiles Scenario.ext Scenario.busy)) = [1; 3; 2; 0]%nat
  /\ issuedRequests (raised (requestTiles Scenario.ext Scenario.busy)) = [1; 2; 0]%nat
  /\ pendingLog (requestTiles Scenario.ext Scenario.busy)
     = [(2%nat, 1); (0%nat, 1)].
Proof. repeat split. Qed.

Example filterProcessingQueue_busy :
  _processingQueue (tileset (filterProcessingQueue Scenario.busy)) = [1; 4]%nat.
Proof. reflexivity. Qed.

Example resident_pending_log :
  pendingLog Scenario.resident = [(0%nat, 1); (0%nat, -1)]
  /\ pendingIncrements 0%nat Scenario.resident = 1%nat
  /\ pendingDecrements 0%nat Scenario.resident = 1%nat
  /\ pendingOf Scenario.resident = 0.
Proof. repeat split. Qed.

(** A request that fails in flight is decremented by the failure
    continuation, one that fails in processing by neither a second time. *)
Example failed_in_flight_pending_log :
  let w := contentFailed Scenario.ext 0%nat (mkLoadError (Some "cancelled"%string) ""%string)
             (updateFixedFrame Scenario.ext (Scenario.frame 1)
                (World_new Scenario.tiles0)) in
  pendingLog w = [(0%nat, 1); (0%nat, -1)] /\ pendingOf w = 0
  /\ numberOfTilesProcessing (_statistics (tileset w)) = 0.
Proof. repeat split. Qed.

Example failed_in_processing_pending_log :
  let w := contentFailed Scenario.ext 0%nat (mkLoadError None "decode error"%string)
             (contentAvailable Scenario.ext 0%nat
                (updateFixedFrame Scenario.ext (Scenario.frame 1)
                   (World_new Scenario.tiles0))) in
  pendingLog w = [(0%nat, 1); (0%nat, -1)] /\ pendingOf w = 0
  /\ numberOfTilesProcessing (_statistics (tileset w)) = 0.
Proof. repeat split. Qed.

(** The handlers alone do not give the accounting: [handleTileFailure]
    reads the processing queue.  Were the failure of a tile in processing
    delivered only after a frame had filtered the tile out of the queue,
    the pending counter would go down a second time.  A run has no such
    step: a completion changes the tile's state and runs the continuations
    at once. *)
Example failure_delivered_after_filter :
  let w1 := contentAvailable Scenario.ext 0%nat
              (updateFixedFrame Scenario.ext (Scenario.frame 1)
                 (World_new Scenario.tiles0)) in
  let w2 := filterProcessingQueue (with_tile 0%nat (with_contentState FAILED) w1) in
  let w3 := handleTileFailure 0%nat (mkLoadError None "decode error"%string) w2 in
  pendingLog w3 = [(0%nat, 1); (0%nat, -1); (0%nat, -1)] /\ pendingOf w3 = -1.
Proof. repeat split. Qed.

Lemma updateTiles_command_order_witness :
  exists added,
    commandList (fst (afterUpdates Scenario.ext Scenario.drawing Scenario.mixed true))
    = commandList Scenario.drawing ++ [stencilClearCommand] ++ added
    /\ commandList (fst (updateTiles Scenario.ext Scenario.drawing Scenario.mixed))
       = commandList Scenario.drawing ++ [stencilClearCommand]
         ++ _backfaceCommands
              (tileset (snd (afterUpdates Scenario.ext Scenario.drawing Scenario.mixed true)))
         ++ added.
Proof.
  exact (updateTiles_command_order Scenario.ext Scenario.drawing Scenario.mixed eq_refl).
Defined.

Example updateTiles_mixed_commands :
  commandList (fst (updateTiles Scenario.ext Scenario.drawing Scenario.mixed))
  = [DrawCommand 100 0; stencilClearCommand;
     DrawCommand 3 1; DrawCommand 4 1; DrawCommand 7 1;
     DrawCommand 3 0; DrawCommand 4 0; DrawCommand 7 0]%nat.
Proof. reflexivity. Qed.

Lemma loadTileset_allTilesAdditive_witness :
  let st' := finalState (loadTileset Scenario.refineRule Scenario.json None
                           Scenario.emptyLoadState) in
  exists created,
    arena st' = arena Scenario.emptyLoadState ++ created
    /\ Permutation (List.map _header created) (allHeaders (root Scenario.json))
    /\ _allTilesAdditive (loading st')
       = _allTilesAdditive (loading Scenario.emptyLoadState) && forallb isAdditive created
    /\ (_allTilesAdditive (loading st') = true
        <-> _allTilesAdditive (loading Scenario.emptyLoadState) = true
            /\ forall t, In t created -> refine t = ADD).
Proof.
  cbv zeta.
  apply (loadTileset_allTilesAdditive Scenario.refineRule Scenario.json None
           Scenario.emptyLoadState _ 0%nat).
  vm_compute. reflexivity.
Defined.

Example loadTileset_scenario_flag :
  let st' := finalState (loadTileset Scenario.refineRule Scenario.json None
                           Scenario.emptyLoadState) in
  _allTilesAdditive (loading st') = false
  /\ List.map refine (arena st') = [ADD; ADD; REPLACE; REPLACE]
  /\ numberOfTilesTotal (_statistics (loading st')) = 4.
Proof. vm_compute. repeat split. Qed.

Example loadTileset_without_asset :
  loadTileset Scenario.refineRule (mkTilesetJson None (root Scenario.json)) None
    Scenario.emptyLoadState
  = Thrown (RuntimeError "Tileset must have an asset property.") Scenario.emptyLoadState.
Proof. reflexivity. Qed.
(* ===================================================================== *)
(** * Further properties of the load pipeline                             *)
(* ===================================================================== *)

(** ** filterProcessingQueue *)

Lemma filterProcessingQueue_as_filter (w : World) :
  filterProcessingQueue w
  = with_tileset
      (fun ts => with_processingQueue
                   (List.filter (isProcessing w) (_processingQueue ts)) ts) w.
Proof.
  unfold filterProcessingQueue.
  destruct (forUpTo _ 0 (filterStep w) _) as [arr rc] eqn:E.
  apply filterLoop_result in E.
  unfold with_tileset. f_equal. f_equal. exact E.
Qed.

Lemma filter_all_kept {A : Type} (f : A -> bool) (l : list A) :
  forallb f l = true -> List.filter f l = l.
Proof.
  induction l as [|x l IH]; simpl; [reflexivity|].
  destruct (f x); simpl; [|discriminate]. intros H. now rewrite IH.
Qed.

Lemma filter_filter_same {A : Type} (f : A -> bool) (l : list A) :
  List.filter f (List.filter f l) = List.filter f l.
Proof.
  apply filter_all_kept, forallb_forall. intros x Hx.
  now apply List.filter_In in Hx.
Qed.

(** X1. Filtering the processing queue a second time changes nothing; a
    tile is in the filtered queue only if it was in the queue and is in
    processing; and a queue that holds only tiles in processing is left
    exactly as it was, together with the rest of the state. *)
Theorem filterProcessingQueue_idempotent (w : World) :
  filterProcessingQueue (filterProcessingQueue w) = filterProcessingQueue w
  /\ (forall t, In t (queueOf (filterProcessingQueue w)) ->
                In t (queueOf w) /\ stateOf w t = PROCESSING)
  /\ (forallb (isProcessing w) (queueOf w) = true -> filterProcessingQueue w = w).
Proof.
  split; [|split].
  - rewrite (filterProcessingQueue_as_filter (filterProcessingQueue w)).
    rewrite (filterProcessingQueue_as_filter w).
    unfold with_tileset, isProcessing. cbn.
    fold (isProcessing w). rewrite filter_filter_same. reflexivity.
  - intros t Ht. rewrite filterProcessingQueue_as_filter in Ht.
    unfold queueOf in *. cbn in Ht. apply List.filter_In in Ht.
    destruct Ht as [Hin Hp]. split; [exact Hin|].
    unfold isProcessing, stateOf in *. now destruct (_contentState (tiles w t)).
  - intros Hall. rewrite filterProcessingQueue_as_filter.
    unfold queueOf in Hall. unfold with_tileset.
    rewrite (filter_all_kept _ _ Hall).
    destruct w as [tl ts r p]. cbn. f_equal. now destruct ts.
Qed.

(** ** requestTiles: every request is counted *)

Section RequestAccounting.
Variable ext : Collaborators.

Lemma requestContent_counts (t : TileRef) (w : World) :
  let s := _statistics (tileset w) in
  let s' := _statistics (tileset (requestContent ext t w)) in
  numberOfPendingRequests s' + numberOfAttemptedRequests s'
  = numberOfPendingRequests s + numberOfAttemptedRequests s
    + (if hasEmptyContent (tiles w t) then 0 else 1)
  /\ numberOfPendingRequests s <= numberOfPendingRequests s'
  /\ numberOfAttemptedRequests s <= numberOfAttemptedRequests s'
  /\ numberOfTilesProcessing s' = numberOfTilesProcessing s
  /\ _processingQueue (tileset (requestContent ext t w)) = _processingQueue (tileset w).
Proof.
  unfold requestContent, Tile_requestContent.
  destruct (hasEmptyContent (tiles w t)); [cbn; repeat split; lia|].
  destruct (_ && _); cbn.
  - rewrite ?Nat.eqb_refl.
    destruct (contentExpired (tiles w t)); [destruct (hasTilesetContent _)|];
      cbn; repeat split; lia.
  - repeat split; lia.
Qed.

Lemma requestContent_fold_counts (l : list TileRef) (w0 w : World) :
  (forall r, hasEmptyContent (tiles w r) = hasEmptyContent (tiles w0 r)) ->
  let w' := fold_left (fun w t => requestContent ext t w) l w in
  let s := _statistics (tileset w) in
  let s' := _statistics (tileset w') in
  numberOfPendingRequests s' + numberOfAttemptedRequests s'
  = numberOfPendingRequests s + numberOfAttemptedRequests s
    + Z.of_nat (length (List.filter (fun t => negb (hasEmptyContent (tiles w0 t))) l))
  /\ numberOfPendingRequests s <= numberOfPendingRequests s'
  /\ numberOfAttemptedRequests s <= numberOfAttemptedRequests s'
  /\ numberOfTilesProcessing s' = numberOfTilesProcessing s
  /\ _processingQueue (tileset w') = _processingQueue (tileset w).
Proof.
  revert w. induction l as [|t l IH]; intros w Hsame; simpl.
  - repeat split; lia.
  - destruct (IH (requestContent ext t w)) as (H1 & H2 & H3 & H4 & H5).
    { intros r. rewrite <- Hsame. apply requestContent_static. }
    destruct (requestContent_counts t w) as (K1 & K2 & K3 & K4 & K5).
    cbv zeta in *. rewrite Hsame in K1.
    rewrite H1, H4, H5, K4, K5.
    destruct (hasEmptyContent (tiles w0 t)); simpl negb; cbv iota;
      [|rewrite length_cons]; repeat split; lia.
Qed.

Lemma Permutation_filter_both {A : Type} (f : A -> bool) (l l' : list A) :
  Permutation l l' -> Permutation (List.filter f l) (List.filter f l').
Proof.
  induction 1; simpl.
  - constructor.
  - destruct (f x); [apply perm_skip|]; assumption.
  - destruct (f x), (f y); try reflexivity. apply perm_swap.
  - etransitivity; eassumption.
Qed.

(** X2. [requestTiles] counts every requested tile that has content to
    load exactly once, as a pending request or as an attempted one: the two
    counters together grow by the number of such tiles in the requested
    list, neither of them goes down, and the processing queue and its
    counter are not touched. *)
Theorem requestTiles_counts_every_request (w : World) :
  let s := _statistics (tileset w) in
  let s' := _statistics (tileset (requestTiles ext w)) in
  numberOfPendingRequests s' + numberOfAttemptedRequests s'
  = numberOfPendingRequests s + numberOfAttemptedRequests s
    + Z.of_nat (length (List.filter (fun t => negb (hasEmptyContent (tiles w t)))
                          (_requestedTiles (tileset w))))
  /\ numberOfPendingRequests s <= numberOfPendingRequests s'
  /\ numberOfAttemptedRequests s <= numberOfAttemptedRequests s'
  /\ numberOfTilesProcessing s' = numberOfTilesProcessing s
  /\ _processingQueue (tileset (requestTiles ext w)) = _processingQueue (tileset w).
Proof.
  cbv zeta. rewrite requestTiles_fold.
  set (sorted := Array_sort (sortRequestByPriority w) (_requestedTiles (tileset w))).
  destruct (requestContent_fold_counts sorted w
              (with_tileset (with_requestedTiles sorted) w))
    as (H1 & H2 & H3 & H4 & H5); [reflexivity|].
  cbv zeta in *. cbn in H1, H2, H3, H4, H5.
  rewrite H1, H4, H5. repeat split; try assumption.
  f_equal. f_equal. apply Permutation_length, Permutation_filter_both.
  apply Array_sort_Permutation.
Qed.

End RequestAccounting.
(* ===================================================================== *)
(** * Further properties of updateTiles                                   *)
(* ===================================================================== *)

Section UpdateTilesAccounting.
Variable ext : Collaborators.

Lemma afterUpdates_appends (fs : FrameState) (w : World) (stencil : bool) :
  exists added,
    commandList (fst (afterUpdates ext fs w stencil))
    = commandList (fst (beforeUpdates fs w stencil)) ++ added.
Proof.
  unfold afterUpdates.
  destruct (fold_appends (fun st t => Tile_update ext t st) (_emptyTiles (tileset w))
              (fold_left (fun st t => updateSelectedTile ext t st)
                 (_selectedTiles (tileset w)) (beforeUpdates fs w stencil))
              (fun t st => Tile_update_appends ext t st)) as [a2 H2].
  destruct (fold_appends (fun st t => updateSelectedTile ext t st)
              (_selectedTiles (tileset w)) (beforeUpdates fs w stencil)
              (fun t st => updateSelectedTile_appends ext t st)) as [a1 H1].
  exists (a1 ++ a2). rewrite H2, H1. now rewrite <- !List.app_assoc.
Qed.

(** X3. [updateTiles] keeps the commands that were on the frame's list on
    entry in place at the front, and sets [numberOfCommands] to the number
    of commands behind them.  When the bivariate visibility test is not
    active the commands behind them are exactly the ones the tile updates
    pushed: no stencil clear and no back-face command is put on the
    list. *)
Theorem updateTiles_keeps_initial_commands (fs : FrameState) (w : World) :
  exists suffix,
    commandList (fst (updateTiles ext fs w)) = commandList fs ++ suffix
    /\ numberOfCommands (_statistics (tileset (snd (updateTiles ext fs w))))
       = Z.of_nat (length suffix)
    /\ (bivariateVisibilityTest fs w = false ->
        commandList (fst (afterUpdates ext fs w false)) = commandList fs ++ suffix).
Proof.
  destruct (afterUpdates_appends fs w (bivariateVisibilityTest fs w)) as [added Hadded].
  pose proof (updateTiles_loops ext fs w (bivariateVisibilityTest fs w)) as Hloops.
  unfold updateTiles. fold (bivariateVisibilityTest fs w).
  unfold beforeUpdates in Hloops, Hadded.
  destruct (bivariateVisibilityTest fs w) eqn:Hb.
  - rewrite Hloops.
    destruct (afterUpdates ext fs w true) as [fsU wU] eqn:E. simpl in Hadded.
    exists ([stencilClearCommand] ++ _backfaceCommands (tileset wU) ++ added).
    cbn [commandList with_commandList fst snd]. rewrite Hadded.
    replace (length ((commandList fs ++ [stencilClearCommand]) ++ added)
             - length (commandList fs ++ [stencilClearCommand]))%nat
      with (length added) by (rewrite !length_app; simpl; lia).
    rewrite (insertBackfaceCommands_spec (commandList fs ++ [stencilClearCommand]) added).
    split; [now rewrite <- !List.app_assoc|]. split; [|discriminate].
    destruct (_ || _); cbn; rewrite !length_app; cbn; rewrite ?length_app; lia.
  - rewrite Hloops.
    destruct (afterUpdates ext fs w false) as [fsU wU] eqn:E. simpl in Hadded.
    exists added. cbn [commandList with_commandList fst snd]. rewrite Hadded.
    split; [reflexivity|]. split; [|reflexivity].
    destruct (_ || _); cbn; rewrite !length_app; lia.
Qed.

Lemma updateSelectedTile_effect (t : TileRef) (st : FrameState * World) :
  raised (snd (updateSelectedTile ext t st)) = raised (snd st) ++ [TileVisible t]
  /\ selected (_statistics (tileset (snd (updateSelectedTile ext t st))))
     = selected (_statistics (tileset (snd st))) + 1.
Proof.
  destruct st as [fs w]. unfold updateSelectedTile, Tile_update. simpl.
  destruct (tileUpdate ext _ fs t) as [front back]. split; reflexivity.
Qed.

Lemma Tile_update_effect (t : TileRef) (st : FrameState * World) :
  raised (snd (Tile_update ext t st)) = raised (snd st)
  /\ _statistics (tileset (snd (Tile_update ext t st))) = _statistics (tileset (snd st)).
Proof.
  destruct st as [fs w]. unfold Tile_update.
  destruct (tileUpdate ext w fs t) as [front back]. split; reflexivity.
Qed.

Lemma afterUpdates_effect (fs : FrameState) (w : World) (stencil : bool) :
  raised (snd (afterUpdates ext fs w stencil))
  = raised w ++ List.map TileVisible (_selectedTiles (tileset w))
  /\ selected (_statistics (tileset (snd (afterUpdates ext fs w stencil))))
     = selected (_statistics (tileset w))
       + Z.of_nat (length (_selectedTiles (tileset w))).
Proof.
  unfold afterUpdates.
  assert (Hsel : forall l st,
             raised (snd (fold_left (fun st t => updateSelectedTile ext t st) l st))
             = raised (snd st) ++ List.map TileVisible l
             /\ selected (_statistics (tileset
                  (snd (fold_left (fun st t => updateSelectedTile ext t st) l st))))
                = selected (_statistics (tileset (snd st))) + Z.of_nat (length l)).
  { induction l as [|t l IH]; intros st; simpl fold_left.
    - simpl. rewrite List.app_nil_r. split; [reflexivity|lia].
    - destruct (IH (updateSelectedTile ext t st)) as [H1 H2].
      destruct (updateSelectedTile_effect t st) as [K1 K2].
      rewrite H1, H2, K1, K2. rewrite <- List.app_assoc. simpl List.map.
      rewrite length_cons. split; [reflexivity|lia]. }
  assert (Hemp : forall l st,
             raised (snd (fold_left (fun st t => Tile_update ext t st) l st))
             = raised (snd st)
             /\ _statistics (tileset
                  (snd (fold_left (fun st t => Tile_update ext t st) l st)))
                = _statistics (tileset (snd st))).
  { induction l as [|t l IH]; intros st; simpl fold_left; [split; reflexivity|].
    destruct (IH (Tile_update ext t st)) as [H1 H2].
    destruct (Tile_update_effect t st) as [K1 K2]. split; congruence. }
  destruct (Hemp (_emptyTiles (tileset w))
              (fold_left (fun st t => updateSelectedTile ext t st)
                 (_selectedTiles (tileset w)) (beforeUpdates fs w stencil))) as [E1 E2].
  destruct (Hsel (_selectedTiles (tileset w)) (beforeUpdates fs w stencil)) as [S1 S2].
  rewrite E1, E2, S1, S2. destruct stencil; split; reflexivity.
Qed.

(** X4. [updateTiles] raises the tile-visible event once for every
    selected tile, in the order of the selected list, and for no other
    tile (the empty tiles are updated silently); the [selected] counter
    grows by the number of selected tiles. *)
Theorem updateTiles_announces_selected_tiles (fs : FrameState) (w : World) :
  raised (snd (updateTiles ext fs w))
  = raised w ++ List.map TileVisible (_selectedTiles (tileset w))
  /\ selected (_statistics (tileset (snd (updateTiles ext fs w))))
     = selected (_statistics (tileset w))
       + Z.of_nat (length (_selectedTiles (tileset w))).
Proof.
  destruct (afterUpdates_effect fs w (bivariateVisibilityTest fs w)) as [H1 H2].
  pose proof (updateTiles_loops ext fs w (bivariateVisibilityTest fs w)) as Hloops.
  unfold updateTiles. fold (bivariateVisibilityTest fs w).
  unfold beforeUpdates in Hloops.
  destruct (bivariateVisibilityTest fs w); rewrite Hloops;
    destruct (afterUpdates ext fs w _) as [fsU wU]; simpl in H1, H2;
    destruct (_ || _); cbn; split; assumption.
Qed.

End UpdateTilesAccounting.
(* ===================================================================== *)
(** * Further properties of loadTileset                                   *)
(* ===================================================================== *)

Lemma lookup_map {A B : Type} (f : A -> B) (l : list A) (k : nat) :
  List.map f l !! k = f <$> (l !! k).
Proof.
  revert k. induction l as [|x l IH]; intros [|k]; simpl; auto.
Qed.

Lemma lookup_In {A : Type} (l : list A) (k : nat) (x : A) : l !! k = Some x -> In x l.
Proof.
  revert k. induction l as [|y l IH]; intros [|k]; simpl; try discriminate.
  - intros [= ->]. now left.
  - intros H. right. eapply IH, H.
Qed.

Lemma In_lookup {A : Type} (l : list A) (x : A) : In x l -> exists k, l !! k = Some x.
Proof.
  induction l as [|y l IH]; simpl; [tauto|].
  intros [->|H]; [now exists 0%nat|].
  destruct (IH H) as [k Hk]. now exists (S k).
Qed.

Section LoadTilesetStructure.
Variable tileRefine : TileHeader -> option NewTile -> Cesium3DTileRefine.

(** The children one turn of the loop creates: consecutive arena
    positions, each linked to [tile], one level below it, one for each
    child header in order. *)
Lemma pushChild_fold_links (tile : nat * NewTile) (l : list TileHeader)
    (acc : LoadState * list (nat * NewTile)) :
  let r := fold_left (pushChild tileRefine tile) l acc in
  exists new,
    snd r = snd acc ++ new
    /\ arena (fst r) = arena (fst acc) ++ List.map snd new
    /\ childrenTileLinks (fst r)
       = childrenTileLinks (fst acc) ++ List.map (fun e => (fst tile, fst e)) new
    /\ loading (fst r) = loading (fst acc)
    /\ length new = length l
    /\ forall k e, new !! k = Some e ->
         fst e = (length (arena (fst acc)) + k)%nat
         /\ _depth (snd e) = _depth (snd tile) + 1
         /\ l !! k = Some (_header (snd e)).
Proof.
  revert acc. induction l as [|h l IH]; intros [st pushed]; simpl.
  - exists []. rewrite !List.app_nil_r. do 5 (split; [reflexivity|]).
    intros k e H. discriminate.
  - destruct (IH (pushChild tileRefine tile (st, pushed) h))
      as (new & H1 & H2 & H3 & H4 & H5 & H6).
    simpl in *. eexists (_ :: new). rewrite H1, H2, H3, H4. simpl.
    rewrite <- !List.app_assoc. do 4 (split; [reflexivity|]). split; [lia|].
    intros k e H. destruct k as [|k]; simpl in H.
    + injection H as <-. simpl. repeat split. lia.
    + destruct (H6 k e H) as (K1 & K2 & K3). repeat split; try assumption.
      rewrite K1, length_app. simpl. lia.
Qed.

Lemma loadStep_links (tile : nat * NewTile) (st : LoadState) :
  let r := loadStep tileRefine tile st in
  arena (fst r) = arena st ++ List.map snd (snd r)
  /\ childrenTileLinks (fst r)
     = childrenTileLinks st ++ List.map (fun e => (fst tile, fst e)) (snd r)
  /\ loading (fst r)
     = with_allTilesAdditive
         (_allTilesAdditive (loading st) && refine_eqb (refine (snd tile)) ADD)
         (with_statistics (add_numberOfTilesTotal 1 (_statistics (loading st)))
            (loading st))
  /\ forall k e, snd r !! k = Some e ->
       fst e = (length (arena st) + k)%nat
       /\ _depth (snd e) = _depth (snd tile) + 1
       /\ In (_header (snd e)) (childHeaders (_header (snd tile))).
Proof.
  unfold loadStep, childHeaders.
  destruct (headerChildren (_header (snd tile))) as [l|]; simpl.
  - match goal with
    | |- context [fold_left ?f l ?acc] =>
        destruct (pushChild_fold_links tile l acc) as (new & H1 & H2 & H3 & H4 & H5 & H6)
    end.
    simpl in *. rewrite H1, H2, H3, H4. do 3 (split; [reflexivity|]).
    intros k e H. destruct (H6 k e H) as (K1 & K2 & K3). repeat split; try assumption.
    eapply lookup_In, K3.
  - rewrite !List.app_nil_r. do 3 (split; [reflexivity|]). intros k e H. discriminate.
Qed.

(** What the loop does to the tileset object: it counts one tile for
    every header on and below the stack and folds refine modes into the
    flag; nothing else changes. *)
Lemma loadLoop_tileset (stack : list (nat * NewTile)) (st : LoadState) :
  (exists flag,
     loading (loadLoop tileRefine stack st)
     = with_allTilesAdditive flag
         (with_statistics
            (add_numberOfTilesTotal (Z.of_nat (stackSize stack))
               (_statistics (loading st)))
            (loading st)))
  /\ (length (arena (loadLoop tileRefine stack st)) + length stack
      = length (arena st) + stackSize stack)%nat.
Proof.
  funelim (loadLoop tileRefine stack st).
  - split; [|unfold stackSize, stackHeaders, headersSize; simpl; lia].
    exists (_allTilesAdditive (loading st)).
    change (stackSize []) with 0%nat.
    destruct (loading st) as [? ? ? ? ? ? ? ? ? ? ? ? ? ? s]. destruct s.
    unfold with_allTilesAdditive, with_statistics, add_numberOfTilesTotal. cbn.
    f_equal. f_equal. lia.
  - destruct H as [[flag Hflag] Hlen].
    destruct (loadStep_links tile st) as (Ha & _ & Hl & _).
    pose proof (loadStep_headers tileRefine tile st) as Hh.
    set (pushed := snd (loadStep tileRefine tile st)) in *.
    assert (Hsize : (stackSize (rev pushed ++ stack) + 1
                     = stackSize (tile :: stack))%nat).
    { unfold stackSize, stackHeaders.
      rewrite List.map_app, List.map_rev, headersSize_app, headersSize_rev.
      fold (stackHeaders pushed). rewrite Hh. simpl.
      unfold headersSize at 3. simpl.
      rewrite (headerSize_children (_header (snd tile))).
      fold (headersSize (List.map (fun e => _header (snd e)) stack)). lia. }
    split.
    + exists flag. rewrite Hflag, Hl. rewrite <- Hsize.
      destruct (loading st) as [? ? ? ? ? ? ? ? ? ? ? ? ? ? s]. destruct s.
      unfold with_allTilesAdditive, with_statistics, add_numberOfTilesTotal. cbn.
      f_equal. f_equal. lia.
    + rewrite length_app, length_rev in Hlen. rewrite Ha, length_app, length_map in Hlen.
      fold pushed in Hlen. simpl length. lia.
Qed.

(** The links the loop adds: one for every tile it creates, in creation
    order, each from a tile created before, one level up, whose header
    lists the new tile's header among its children. *)
Lemma loadLoop_links (stack : list (nat * NewTile)) (st : LoadState) (lo : nat) :
  (forall e, In e stack -> arena st !! fst e = Some (snd e) /\ (lo <= fst e)%nat) ->
  (lo <= length (arena st))%nat ->
  exists created more,
    arena (loadLoop tileRefine stack st) = arena st ++ created
    /\ childrenTileLinks (loadLoop tileRefine stack st) = childrenTileLinks st ++ more
    /\ List.map snd more = seq (length (arena st)) (length created)
    /\ forall p i, In (p, i) more ->
         (lo <= p < i)%nat
         /\ exists pt t,
              arena (loadLoop tileRefine stack st) !! p = Some pt
              /\ arena (loadLoop tileRefine stack st) !! i = Some t
              /\ _depth t = _depth pt + 1
              /\ In (_header t) (childHeaders (_header pt)).
Proof.
  revert lo. funelim (loadLoop tileRefine stack st); intros lo Hstack Hlo.
  - exists [], []. rewrite !List.app_nil_r. repeat split; contradiction.
  - destruct (loadStep_links tile st) as (Ha & Hk & _ & Hnew).
    set (st1 := fst (loadStep tileRefine tile st)) in *.
    set (pushed := snd (loadStep tileRefine tile st)) in *.
    destruct (Hstack tile (or_introl eq_refl)) as [Htile Hlotile].
    destruct (H lo) as (created & more & Harena & Hlinks & Hseq & Hfacts).
    { intros e He. apply List.in_app_or in He. destruct He as [He|He].
      - apply List.in_rev in He. apply In_lookup in He. destruct He as [k Hk'].
        destruct (Hnew k e Hk') as (K1 & _ & _). split; [|lia].
        rewrite Ha, K1, lookup_app_r by lia.
        replace (length (arena st) + k - length (arena st))%nat with k by lia.
        rewrite lookup_map, Hk'. reflexivity.
      - destruct (Hstack e (or_intror He)) as [He1 He2]. split; [|exact He2].
        rewrite Ha. apply lookup_app_l_Some, He1. }
    { rewrite Ha, length_app. lia. }
    exists (List.map snd pushed ++ created),
           (List.map (fun e => (fst tile, fst e)) pushed ++ more).
    split; [|split; [|split]].
    + rewrite Harena, Ha. now rewrite <- List.app_assoc.
    + rewrite Hlinks, Hk. now rewrite <- List.app_assoc.
    + rewrite List.map_app, List.map_map, Hseq. simpl.
      rewrite length_app, length_map, seq_app. f_equal.
      * clear - Hnew. revert Hnew. generalize (length (arena st)).
        induction pushed as [|e l IH]; intros n Hnew; simpl; [reflexivity|].
        destruct (Hnew 0%nat e eq_refl) as (K1 & _). rewrite K1, Nat.add_0_r.
        f_equal. apply IH. intros k e' Hk.
        destruct (Hnew (S k) e' Hk) as (L1 & L2 & L3).
        repeat split; try assumption. lia.
      * rewrite Ha, length_app, length_map. reflexivity.
    + intros p i Hin. apply List.in_app_or in Hin. destruct Hin as [Hin|Hin].
      * apply List.in_map_iff in Hin. destruct Hin as (e & He & Hin).
        injection He as <- <-. apply In_lookup in Hin. destruct Hin as [k Hk'].
        destruct (Hnew k e Hk') as (K1 & K2 & K3).
        pose proof (lookup_lt_Some _ _ _ Htile) as Hlt.
        split; [lia|]. exists (snd tile), (snd e).
        rewrite Harena, Ha. repeat split; try assumption.
        -- apply lookup_app_l_Some, lookup_app_l_Some, Htile.
        -- apply lookup_app_l_Some. rewrite K1, lookup_app_r by lia.
           replace (length (arena st) + k - length (arena st))%nat with k by lia.
           rewrite lookup_map, Hk'. reflexivity.
      * apply Hfacts, Hin.
Qed.

(** X5. [loadTileset] throws a RuntimeError, and leaves everything as it
    was, when the tileset JSON has no asset or names a version other than
    0.0 and 1.0; in every other case it returns, and what it returns is
    the tile it created for the root header. *)
Theorem loadTileset_rejects_unsupported_versions (tilesetJson : TilesetJson)
    (parentTile : option (nat * NewTile)) (st : LoadState) :
  (asset tilesetJson = None
   \/ (exists a, asset tilesetJson = Some a /\ version a <> "0.0"%string
                 /\ version a <> "1.0"%string) ->
   exists message,
     loadTileset tileRefine tilesetJson parentTile st = Thrown (RuntimeError message) st)
  /\ (forall a, asset tilesetJson = Some a ->
        version a = "0.0"%string \/ version a = "1.0"%string ->
        exists rootIndex st',
          loadTileset tileRefine tilesetJson parentTile st = Returned rootIndex st'
          /\ arena st' !! rootIndex = Some (createRoot tileRefine tilesetJson parentTile)
          /\ _header (createRoot tileRefine tilesetJson parentTile) = root tilesetJson).
Proof.
  unfold loadTileset. split.
  - intros [Hnone|(a & Ha & H0 & H1)].
    + rewrite Hnone. eauto.
    + rewrite Ha. apply String.eqb_neq in H0, H1. rewrite H0, H1. simpl. eauto.
  - intros a Ha Hv. rewrite Ha.
    assert (Hok : negb (version a =? "0.0")%string && negb (version a =? "1.0")%string
                  = false).
    { destruct Hv as [->| ->]; reflexivity. }
    rewrite Hok. eexists _, _. split; [reflexivity|]. split.
    + match goal with
      | |- arena (loadLoop _ ?stack ?st0) !! _ = _ =>
          destruct (loadLoop_effect tileRefine stack st0) as (created & Harena & _)
      end.
      rewrite Harena. apply lookup_app_l_Some. unfold attachRoot. simpl.
      rewrite lookup_app_r by lia. now rewrite Nat.sub_diag.
    + unfold createRoot. destruct parentTile; reflexivity.
Qed.


(** X7. When [loadTileset] returns, every tile it created below the root
    was pushed on the children list of exactly one tile, in creation
    order; that tile was created before it, lists the new tile's header
    among the children of its own header, and is one level higher.  The
    root is pushed on the children list of the parent tile when one is
    given, one level below it. *)
Theorem loadTileset_links_children (tilesetJson : TilesetJson)
    (parentTile : option (nat * NewTile)) (st st' : LoadState) (rootIndex : nat) :
  loadTileset tileRefine tilesetJson parentTile st = Returned rootIndex st' ->
  (forall p, parentTile = Some p -> arena st !! fst p = Some (snd p)) ->
  exists more,
    childrenTileLinks st'
    = childrenTileLinks st
      ++ match parentTile with Some p => [(fst p, rootIndex)] | None => [] end
      ++ more
    /\ List.map snd more = seq (S rootIndex) (headerSize (root tilesetJson) - 1)
    /\ (forall p i, In (p, i) more ->
          (rootIndex <= p < i)%nat
          /\ exists pt t,
               arena st' !! p = Some pt /\ arena st' !! i = Some t
               /\ _depth t = _depth pt + 1
               /\ In (_header t) (childHeaders (_header pt)))
    /\ (forall p, parentTile = Some p ->
          (fst p < rootIndex)%nat
          /\ exists t,
               arena st' !! fst p = Some (snd p) /\ arena st' !! rootIndex = Some t
               /\ _depth t = _depth (snd p) + 1).
Proof.
  unfold loadTileset. intros H Hparent.
  destruct (asset tilesetJson) as [a|]; [|discriminate].
  destruct (negb _ && negb _); [discriminate|].
  injection H as Hroot Hst. subst st'.
  set (st0 := appendTilesetVersion a st) in *.
  set (rootTile := createRoot tileRefine tilesetJson parentTile) in *.
  set (stA := attachRoot rootTile parentTile st0) in *.
  assert (Hheader : _header rootTile = root tilesetJson)
    by (unfold rootTile, createRoot; destruct parentTile; reflexivity).
  assert (H0 : arena st0 = arena st /\ childrenTileLinks st0 = childrenTileLinks st)
    by (unfold st0, appendTilesetVersion; destruct (tilesetVersion a); split; reflexivity).
  destruct H0 as [Ha0 Hk0].
  assert (HlenA : length (arena stA) = S rootIndex)
    by (unfold stA, attachRoot; simpl; rewrite length_app, <- Hroot; simpl; lia).
  assert (HrootA : arena stA !! rootIndex = Some rootTile).
  { unfold stA, attachRoot. simpl. rewrite <- Hroot, lookup_app_r by lia.
    now rewrite Nat.sub_diag. }
  assert (Hr : rootIndex = length (arena st)) by (now rewrite <- Hroot, Ha0).
  rewrite Hroot in *.
  destruct (loadLoop_links [(rootIndex, rootTile)] stA rootIndex)
    as (created & more & Harena & Hlinks & Hseq & Hfacts).
  { intros e [<-|[]]. split; [exact HrootA|simpl; lia]. }
  { lia. }
  destruct (loadLoop_tileset [(rootIndex, rootTile)] stA) as [_ Hlen].
  assert (Hsize : stackSize [(rootIndex, rootTile)] = headerSize (root tilesetJson)).
  { unfold stackSize, stackHeaders, headersSize.
    cbn [List.map snd]. rewrite Hheader. simpl. lia. }
  rewrite Hsize, Harena, length_app, HlenA in Hlen. simpl in Hlen.
  exists more. split; [|split; [|split]].
  - rewrite Hlinks. unfold stA, attachRoot. simpl. rewrite Hk0, Hroot.
    destruct parentTile; [now rewrite <- List.app_assoc|reflexivity].
  - rewrite Hseq, HlenA. f_equal. lia.
  - exact Hfacts.
  - intros p Hp. specialize (Hparent p Hp).
    pose proof (lookup_lt_Some _ _ _ Hparent) as Hlt.
    split; [lia|]. exists rootTile. rewrite Harena. split; [|split].
    + apply lookup_app_l_Some. unfold stA, attachRoot. simpl.
      rewrite Ha0. apply lookup_app_l_Some, Hparent.
    + apply lookup_app_l_Some, HrootA.
    + unfold rootTile, createRoot. rewrite Hp. reflexivity.
Qed.

End LoadTilesetStructure.
(* ===================================================================== *)
(** * createTileJsonIndex                                                 *)
(* ===================================================================== *)

Lemma TileHeader_children_ind (P : TileHeader -> Prop) :
  (forall h, Forall P (childHeaders h) -> P h) -> forall h, P h.
Proof.
  intros H. fix IH 1. intros [r [l|]]; apply H; unfold childHeaders; simpl;
    [|constructor].
  induction l as [|c l IHl]; constructor; [apply IH|exact IHl].
Qed.

Section CreateTileJsonIndex.
Variable baseUrl : string.

Lemma forOf_append {A B : Type} (f : nat -> A -> list B) (l : list A) (i : nat)
    (acc : list B) :
  forOf (fun i x acc => acc ++ f i x) l i acc
  = acc ++ forOf (fun i x acc => acc ++ f i x) l i [].
Proof.
  revert i acc. induction l as [|x l IH]; intros i acc; simpl.
  - now rewrite List.app_nil_r.
  - rewrite (IH (S i) (acc ++ f i x)), (IH (S i) (f i x)).
    now rewrite List.app_assoc.
Qed.

Lemma preorder_unfold (h : TileHeader) (node : NodeRef) :
  preorder h node = node :: childrenPreorder node (childHeaders h) 0.
Proof. destruct h as [r [l|]]; reflexivity. Qed.

Lemma childrenPreorder_cons (node : NodeRef) (c : TileHeader) (l : list TileHeader)
    (i : nat) :
  childrenPreorder node (c :: l) i
  = preorder c (node ++ [i]) ++ childrenPreorder node l (S i).
Proof.
  unfold childrenPreorder. simpl forOf at 1.
  now rewrite (forOf_append (fun i child => preorder child (node ++ [i]))).
Qed.

Lemma recurse_unfold (h : TileHeader) (node : NodeRef) (s : TileJsonIndex) :
  recurse baseUrl h node s
  = forOf (fun i child s => recurse baseUrl child (node ++ [i]) s)
      (childHeaders h) 0 (visitNode baseUrl node s).
Proof. destruct h as [r [l|]]; reflexivity. Qed.

(** The recursion visits the nodes in depth-first order. *)
Lemma recurse_fold (h : TileHeader) :
  forall node s,
    recurse baseUrl h node s
    = fold_left (fun s r => visitNode baseUrl r s) (preorder h node) s.
Proof.
  induction h as [h IH] using TileHeader_children_ind. intros node s.
  rewrite recurse_unfold, preorder_unfold. simpl fold_left.
  generalize (visitNode baseUrl node s) as s'. generalize 0%nat as i.
  induction IH as [|c l Hc _ IHl]; intros i s'; [reflexivity|].
  rewrite childrenPreorder_cons, fold_left_app. simpl forOf.
  now rewrite Hc, IHl.
Qed.

Lemma preorder_length (h : TileHeader) (node : NodeRef) :
  length (preorder h node) = headerSize h.
Proof.
  revert node. induction h as [h IH] using TileHeader_children_ind. intros node.
  rewrite preorder_unfold, headerSize_children. simpl. f_equal.
  generalize 0%nat as i.
  induction IH as [|c l Hc _ IHl]; intros i; [reflexivity|].
  rewrite childrenPreorder_cons, length_app, Hc, IHl.
  unfold headersSize. reflexivity.
Qed.

(** The references below a node extend the node's own reference. *)
Lemma preorder_below (h : TileHeader) :
  forall node r, In r (preorder h node) -> exists rel, r = node ++ rel.
Proof.
  induction h as [h IH] using TileHeader_children_ind. intros node r.
  rewrite preorder_unfold. intros [<-|Hin]; [exists []; now rewrite List.app_nil_r|].
  revert Hin. generalize 0%nat as i.
  induction IH as [|c l Hc _ IHl]; intros i Hin; [destruct Hin|].
  rewrite childrenPreorder_cons in Hin. apply List.in_app_or in Hin.
  destruct Hin as [Hin|Hin]; [|eapply IHl, Hin].
  destruct (Hc _ _ Hin) as [rel ->]. exists (i :: rel). now rewrite <- List.app_assoc.
Qed.

Lemma childrenPreorder_below (node : NodeRef) (l : list TileHeader) (i : nat)
    (r : NodeRef) :
  In r (childrenPreorder node l i) ->
  exists j rel, (i <= j)%nat /\ r = node ++ j :: rel.
Proof.
  revert i. induction l as [|c l IHl]; intros i Hin; [destruct Hin|].
  rewrite childrenPreorder_cons in Hin. apply List.in_app_or in Hin.
  destruct Hin as [Hin|Hin].
  - destruct (preorder_below c _ _ Hin) as [rel ->]. exists i, rel.
    split; [lia|]. now rewrite <- List.app_assoc.
  - destruct (IHl _ Hin) as (j & rel & Hj & ->). exists j, rel. split; [lia|reflexivity].
Qed.

(** No node of the document is visited twice. *)
Lemma preorder_NoDup (h : TileHeader) : forall node, List.NoDup (preorder h node).
Proof.
  induction h as [h IH] using TileHeader_children_ind. intros node.
  rewrite preorder_unfold. constructor.
  - intros Hin. apply childrenPreorder_below in Hin.
    destruct Hin as (j & rel & _ & Heq).
    apply (f_equal (@length nat)) in Heq. rewrite length_app in Heq. simpl in Heq. lia.
  - generalize 0%nat as i.
    induction IH as [|c l Hc _ IHl]; intros i; [constructor|].
    rewrite childrenPreorder_cons. apply List.NoDup_app; [apply Hc|apply IHl|].
    intros r Hin1 Hin2.
    destruct (preorder_below c _ _ Hin1) as [rel1 E1].
    destruct (childrenPreorder_below _ _ _ _ Hin2) as (j & rel2 & Hj & E2).
    rewrite E1, <- List.app_assoc in E2. apply List.app_inv_head in E2.
    simpl in E2. injection E2 as E2 _. lia.
Qed.

(** What a run of visits leaves behind. *)
Lemma visits_effect (refs : list NodeRef) :
  forall s,
    let s' := fold_left (fun s r => visitNode baseUrl r s) refs s in
    counter s' = (counter s + length refs)%nat
    /\ (forall k r, refs !! k = Some r -> index s' !! (counter s + k)%nat = Some r)
    /\ (forall k, (k < counter s \/ counter s + length refs <= k)%nat ->
                  index s' !! k = index s !! k)
    /\ (List.NoDup refs ->
        forall k r, refs !! k = Some r ->
                    node_tileId s' !! r = Some (counter s + k)%nat
                    /\ node_baseUrl s' !! r = Some baseUrl)
    /\ (forall r, ~ In r refs ->
                  node_tileId s' !! r = node_tileId s !! r
                  /\ node_baseUrl s' !! r = node_baseUrl s !! r).
Proof.
  induction refs as [|r0 refs IH]; intros s; cbv zeta.
  - simpl. split; [lia|]. split; [intros k r H; discriminate|].
    split; [reflexivity|]. split; [intros _ k r H; discriminate|]. split; reflexivity.
  - simpl fold_left. specialize (IH (visitNode baseUrl r0 s)). cbv zeta in IH.
    destruct IH as (Hc & Hi & Ho & Ht & Hn).
    set (s' := fold_left _ refs _) in *. simpl in Hc, Hi, Ho, Ht, Hn.
    split; [simpl; lia|]. split; [|split; [|split]].
    + intros [|k] r Hk; simpl in Hk.
      * injection Hk as ->. rewrite Ho by lia. rewrite Nat.add_0_r.
        apply lookup_insert_eq.
      * replace (counter s + S k)%nat with (S (counter s + k)) by lia.
        apply Hi, Hk.
    + intros k Hk. simpl in Hk. rewrite Ho by lia.
      apply lookup_insert_ne. lia.
    + intros Hnd [|k] r Hk; simpl in Hk.
      * injection Hk as ->. apply List.NoDup_cons_iff in Hnd. destruct Hnd as [Hnot _].
        destruct (Hn r Hnot) as [H1 H2]. rewrite H1, H2, Nat.add_0_r.
        split; apply lookup_insert_eq.
      * apply List.NoDup_cons_iff in Hnd. destruct Hnd as [_ Hnd].
        replace (counter s + S k)%nat with (S (counter s + k)) by lia.
        apply Ht; assumption.
    + intros r Hr. destruct (Hn r) as [H1 H2].
      { intros Hin. apply Hr. now right. }
      rewrite H1, H2. split; apply lookup_insert_ne; intros ->; apply Hr; now left.
Qed.

Lemma recurse_effect (h : TileHeader) (index_ : gmap nat NodeRef)
    (ids : gmap NodeRef nat) (urls : gmap NodeRef string) :
  let refs := preorder h [] in
  let s' := recurse baseUrl h [] (mkTileJsonIndex 0 index_ ids urls) in
  counter s' = headerSize h
  /\ (forall k r, refs !! k = Some r ->
        index s' !! k = Some r
        /\ node_tileId s' !! r = Some k
        /\ node_baseUrl s' !! r = Some baseUrl)
  /\ (forall k, (headerSize h <= k)%nat -> index s' !! k = index_ !! k)
  /\ (forall r, ~ In r refs ->
        node_tileId s' !! r = ids !! r
        /\ node_baseUrl s' !! r = urls !! r).
Proof.
  cbv zeta. rewrite recurse_fold.
  destruct (visits_effect (preorder h []) (mkTileJsonIndex 0 index_ ids urls))
    as (Hc & Hi & Ho & Ht & Hn).
  simpl in Hc, Hi, Ho, Ht, Hn. rewrite preorder_length in Hc, Ho.
  split; [exact Hc|]. split; [|split].
  - intros k r Hk. specialize (Ht (preorder_NoDup _ _) k r Hk).
    split; [apply Hi, Hk|exact Ht].
  - intros k Hk. apply Ho. now right.
  - exact Hn.
Qed.

(** Numbering a document that is numbered already writes what is there. *)
Lemma recurse_again (h : TileHeader) (index_ : gmap nat NodeRef)
    (ids : gmap NodeRef nat) (urls : gmap NodeRef string) :
  let s1 := recurse baseUrl h [] (mkTileJsonIndex 0 index_ ids urls) in
  let s2 := recurse baseUrl h []
              (mkTileJsonIndex 0 (index s1) (node_tileId s1) (node_baseUrl s1)) in
  index s2 = index s1 /\ node_tileId s2 = node_tileId s1
  /\ node_baseUrl s2 = node_baseUrl s1.
Proof.
  cbv zeta.
  set (s1 := recurse baseUrl h [] (mkTileJsonIndex 0 index_ ids urls)).
  destruct (recurse_effect h index_ ids urls) as (H1 & H2 & H3 & H4).
  destruct (recurse_effect h (index s1) (node_tileId s1) (node_baseUrl s1))
    as (K1 & K2 & K3 & K4).
  cbv zeta in *. fold s1 in H1, H2, H3, H4.
  set (s2 := recurse baseUrl h [] _) in *.
  set (refs := preorder h []) in *.
  assert (Hlen : length refs = headerSize h) by apply preorder_length.
  split; [|split].
  - apply map_eq. intros k.
    destruct (le_lt_dec (headerSize h) k) as [Hk|Hk].
    + now rewrite K3.
    + destruct (lookup_lt_is_Some_2 refs k ltac:(lia)) as [r Hr].
      destruct (H2 k r Hr) as (-> & _). now destruct (K2 k r Hr) as (-> & _).
  - apply map_eq; intros r.
    destruct (in_dec (List.list_eq_dec Nat.eq_dec) r refs) as [Hin|Hn].
    + apply In_lookup in Hin. destruct Hin as [k Hr].
      destruct (H2 k r Hr) as (_ & E1 & E2). destruct (K2 k r Hr) as (_ & F1 & F2).
      congruence.
    + now destruct (K4 r Hn) as [F1 F2].
  - apply map_eq; intros r.
    destruct (in_dec (List.list_eq_dec Nat.eq_dec) r refs) as [Hin|Hn].
    + apply In_lookup in Hin. destruct Hin as [k Hr].
      destruct (H2 k r Hr) as (_ & E1 & E2). destruct (K2 k r Hr) as (_ & F1 & F2).
      congruence.
    + now destruct (K4 r Hn) as [F1 F2].
Qed.

(** X10. [createTileJsonIndex] starts by reading [this.tileIndex.index].
    When [this.tileIndex] is undefined, as the constructor leaves it, the
    call throws a TypeError and writes nothing.  When it is an object, the
    call returns and has numbered the nodes of the tileset JSON in
    depth-first order, a node before its children and the children in
    array order, from 0: the node visited at position [k] has [tileId]
    [k] and the base URL, and [index[k]] refers to it; the entries of the
    index at or above the number of nodes are as they were, and no other
    node is written. *)
Theorem createTileJsonIndex_numbers_depth_first (tilesetJson : TilesetJson)
    (s : IndexedJson) :
  let refs := preorder (root tilesetJson) [] in
  match tileIndex s with
  | None =>
      createTileJsonIndex tilesetJson baseUrl s
      = Thrown (TypeError "Cannot read properties of undefined (reading 'index')") s
  | Some index_ =>
      exists s' index',
        createTileJsonIndex tilesetJson baseUrl s = Returned tt s'
        /\ tileIndex s' = Some index'
        /\ length refs = headerSize (root tilesetJson)
        /\ (forall k r, refs !! k = Some r ->
              index' !! k = Some r
              /\ json_tileId s' !! r = Some k
              /\ json_baseUrl s' !! r = Some baseUrl)
        /\ (forall k, (headerSize (root tilesetJson) <= k)%nat ->
              index' !! k = index_ !! k)
        /\ (forall r, ~ In r refs ->
              json_tileId s' !! r = json_tileId s !! r
              /\ json_baseUrl s' !! r = json_baseUrl s !! r)
  end.
Proof.
  cbv zeta. unfold createTileJsonIndex.
  destruct (tileIndex s) as [index_|]; [|reflexivity].
  destruct (recurse_effect (root tilesetJson) index_ (json_tileId s) (json_baseUrl s))
    as (H1 & H2 & H3 & H4).
  cbv zeta in *. eexists. eexists. split; [reflexivity|]. simpl.
  split; [reflexivity|]. split; [apply preorder_length|]. split; [exact H2|].
  split; [exact H3|exact H4].
Qed.

(** X11. A second call of [createTileJsonIndex] with the same tileset
    JSON and base URL ends as the first did and leaves what the first
    left: after a call that returned, every node keeps its [tileId] and
    base URL and the index its entries; after a call that threw, the
    second throws the same error. *)
Theorem createTileJsonIndex_twice (tilesetJson : TilesetJson) (s : IndexedJson) :
  createTileJsonIndex tilesetJson baseUrl
    (finalState (createTileJsonIndex tilesetJson baseUrl s))
  = createTileJsonIndex tilesetJson baseUrl s.
Proof.
  unfold createTileJsonIndex at 2 3.
  destruct (tileIndex s) as [index_|] eqn:Hs.
  - unfold createTileJsonIndex. simpl.
    destruct (recurse_again (root tilesetJson) index_ (json_tileId s) (json_baseUrl s))
      as (E1 & E2 & E3).
    cbv zeta in *. now rewrite E1, E2, E3.
  - simpl. unfold createTileJsonIndex. now rewrite Hs.
Qed.

End CreateTileJsonIndex.
(* ===================================================================== *)
(** * createFeatures                                                      *)
(* ===================================================================== *)

Lemma Cesium3DTileFeature_unbound :
  resolveIdentifier Batched3DModel3DTileContent_js_scope "Cesium3DTileFeature"
  = Some (ReferenceError "Cesium3DTileFeature is not defined").
Proof. reflexivity. Qed.

(** X12. [createFeatures] creates no feature.  The name
    [Cesium3DTileFeature] is not bound in the module, so a call that
    reaches the loop throws in its first turn, before [content._features]
    is assigned.  Every call ends with the content object as it found it:
    it returns when the features exist already or [featuresLength] is not
    greater than 0, and throws otherwise, a RangeError when
    [featuresLength] is not an array length and a ReferenceError when it
    is. *)
Theorem createFeatures_creates_no_feature (content_ : Batched3DModel3DTileContent) :
  finalState (createFeatures content_) = content_
  /\ (createFeatures content_ = Returned tt content_
      <-> _features content_ <> None
          \/ greaterThanZero (featuresLength content_) = false)
  /\ (forall e s, createFeatures content_ = Thrown e s ->
        (exists m, e = RangeError m /\ forall features,
                     Array_new (featuresLength content_) <> inr features)
        \/ (e = ReferenceError "Cesium3DTileFeature is not defined"
            /\ exists features, Array_new (featuresLength content_) = inr features)).
Proof.
  unfold createFeatures. cbv zeta. rewrite Cesium3DTileFeature_unbound.
  destruct (_features content_) as [f|]; simpl.
  - split; [reflexivity|]. split; [|discriminate].
    split; [intros _; left; discriminate|reflexivity].
  - destruct (greaterThanZero (featuresLength content_)) eqn:Hpos.
    + destruct (Array_new (featuresLength content_)) as [e0|features] eqn:Hnew; simpl.
      * split; [reflexivity|]. split.
        { split; [discriminate|]. intros [H|H]; [now contradiction H|discriminate]. }
        intros e s H. injection H as <- _. left.
        unfold Array_new in Hnew.
        destruct (featuresLength content_) as [[q| | |]|];
          try (injection Hnew as <-; eexists; split; [reflexivity|discriminate]).
        destruct (validArrayLength q); [discriminate|].
        injection Hnew as <-. eexists; split; [reflexivity|discriminate].
      * split; [reflexivity|]. split.
        { split; [discriminate|]. intros [H|H]; [now contradiction H|discriminate]. }
        intros e s H. injection H as <- _. right. split; [reflexivity|].
        now exists features.
    + split; [reflexivity|]. split; [|discriminate].
      split; [intros _; now right|reflexivity].
Qed.
(* ===================================================================== *)
(** * Further properties of isDataUri and of the setters                  *)
(* ===================================================================== *)

Section IsDataUriPrefix.
Import IsDataUri.
Variable unicodeUpper : CodeUnit -> CodeUnit.

(** X13. [isDataUri] looks at nothing beyond the first five code units of
    its argument: two strings that agree on them get the same answer, and
    a string of fewer than five code units is never a data URI. *)
Theorem isDataUri_first_five_code_units (u v : JSString) :
  (take 5 u = take 5 v -> isDataUri unicodeUpper u = isDataUri unicodeUpper v)
  /\ ((length u < 5)%nat -> isDataUri unicodeUpper u = false).
Proof.
  unfold isDataUri.
  rewrite !(test_anchored unicodeUpper dataUriRegex _ _ eq_refl).
  split.
  - intros H.
    destruct u as [|a0 [|a1 [|a2 [|a3 [|a4 u]]]]];
      destruct v as [|b0 [|b1 [|b2 [|b3 [|b4 v]]]]];
      simpl in H; try discriminate; try reflexivity;
      injection H; intros; subst; reflexivity.
  - intros H.
    destruct u as [|a0 [|a1 [|a2 [|a3 [|a4 u]]]]]; simpl in H; try lia;
      cbn; rewrite ?andb_false_r; reflexivity.
Qed.

End IsDataUriPrefix.
(* ===================================================================== *)
(** * The pending-request counter over a run                              *)
(* ===================================================================== *)

Section PendingCounter.
Variable ext : Collaborators.

(** *** Every change of the counter is a step of one *)

Lemma unitChanges_append (log new : list (TileRef * Z)) :
  unitChanges log -> unitChanges new -> unitChanges (log ++ new).
Proof. intros H1 H2. apply List.Forall_app. now split. Qed.

Lemma unitChanges_fold {A : Type} (f : World -> A -> World) (l : list A) (w : World) :
  (forall w x, unitChanges (pendingLog w) -> unitChanges (pendingLog (f w x))) ->
  unitChanges (pendingLog w) -> unitChanges (pendingLog (fold_left f l w)).
Proof.
  intros Hf. revert w. induction l as [|x l IH]; intros w Hw; simpl; [exact Hw|].
  apply IH, Hf, Hw.
Qed.

Lemma unitChanges_forUpTo (body : nat -> World -> World) (count start : nat) (w : World) :
  (forall i w, unitChanges (pendingLog w) -> unitChanges (pendingLog (body i w))) ->
  unitChanges (pendingLog w) -> unitChanges (pendingLog (forUpTo count start body w)).
Proof.
  intros Hb. revert start w. induction count as [|count IH]; intros start w Hw; simpl;
    [exact Hw|].
  apply IH, Hb, Hw.
Qed.

Lemma runContinuation_unitChanges (how : Settlement) (w : World) (c : Continuation) :
  unitChanges (pendingLog w) ->
  unitChanges (pendingLog (fst (runContinuation ext how w c))).
Proof.
  intros Hw. destruct c as [t|t|t]; unfold runContinuation.
  - cbn [fst]. destruct (addToProcessingQueue_view t w) as (_ & _ & -> & _).
    apply unitChanges_append; [exact Hw|]. constructor; [now right|constructor].
  - destruct (handleTileSuccess_samePipeline ext t w) as (_ & -> & _). exact Hw.
  - destruct how as [|error]; [exact Hw|]. cbn [fst].
    destruct (handleTileFailure_view t error w) as (_ & _ & -> & _).
    destruct (inQueue w t); [exact Hw|].
    apply unitChanges_append; [exact Hw|]. constructor; [now right|constructor].
Qed.

Lemma settleChain_unitChanges (how : Settlement) (w : World)
    (chain : Continuation * Continuation) :
  unitChanges (pendingLog w) -> unitChanges (pendingLog (settleChain ext how w chain)).
Proof.
  intros Hw. unfold settleChain. destruct how as [|error];
    [|now apply runContinuation_unitChanges].
  pose proof (runContinuation_unitChanges Resolved w (fst chain) Hw) as H1.
  destruct (runContinuation ext Resolved w (fst chain)) as [w1 [error|]];
    cbn [fst] in H1; [|exact H1].
  now apply runContinuation_unitChanges.
Qed.

Lemma requestContent_unitChanges (t : TileRef) (w : World) :
  unitChanges (pendingLog w) -> unitChanges (pendingLog (requestContent ext t w)).
Proof.
  intros Hw. destruct (requestGranted ext t w) eqn:G.
  - destruct (requestContent_granted ext t w G) as (_ & _ & _ & _ & _ & -> & _).
    apply unitChanges_append; [exact Hw|]. constructor; [now left|constructor].
  - destruct (requestContent_refused ext t w G) as (_ & -> & _). exact Hw.
Qed.

Lemma Tile_process_unitChanges (fs : FrameState) (t : TileRef) (w : World) :
  unitChanges (pendingLog w) -> unitChanges (pendingLog (Tile_process ext fs t w)).
Proof.
  intros Hw. unfold Tile_process.
  destruct (contentState_eqb _ _); [|exact Hw].
  destruct (processOutcome ext w fs t) as [|c|e]; [exact Hw| |].
  - unfold contentReady. apply unitChanges_fold; [|exact Hw].
    intros w0 x. apply settleChain_unitChanges.
  - unfold contentFailed. apply unitChanges_fold; [|exact Hw].
    intros w0 x. apply settleChain_unitChanges.
Qed.

Lemma updateFixedFrame_unitChanges (fs : FrameState) (w : World) :
  unitChanges (pendingLog w) -> unitChanges (pendingLog (updateFixedFrame ext fs w)).
Proof.
  intros Hw. unfold updateFixedFrame.
  destruct (negb (ready (tileset w)) || negb (visible (tileset w))); [exact Hw|].
  unfold processTiles. apply unitChanges_forUpTo.
  { intros i w0 H0. destruct (_ !! i); [now apply Tile_process_unitChanges|exact H0]. }
  destruct (filterProcessingQueue_view
              (requestTiles ext (selectTiles ext fs (with_tileset (with_requestedTiles []) w))))
    as (_ & _ & _ & -> & _).
  rewrite requestTiles_fold. apply unitChanges_fold.
  { intros w0 x. apply requestContent_unitChanges. }
  cbn [pendingLog with_tileset].
  destruct (selectTiles_samePipeline ext fs (with_tileset (with_requestedTiles []) w))
    as (_ & -> & _).
  exact Hw.
Qed.

Lemma Reachable_unitChanges (w : World) : Reachable ext w -> unitChanges (pendingLog w).
Proof.
  induction 1 as [tiles_ Hu|w w' _ IH Hstep]; [constructor|].
  destruct Hstep as [w fs|w t Hs|w t c Hs|w t e Hs].
  - now apply updateFixedFrame_unitChanges.
  - unfold contentAvailable. apply unitChanges_fold; [|exact IH].
    intros w0 x. apply runContinuation_unitChanges.
  - unfold contentReady. apply unitChanges_fold; [|exact IH].
    intros w0 x. apply settleChain_unitChanges.
  - unfold contentFailed. apply unitChanges_fold; [|exact IH].
    intros w0 x. apply settleChain_unitChanges.
Qed.

(** *** Counting a log of unit steps tile by tile *)

Lemma changesOf_cons (t : TileRef) (d : Z) (e : TileRef * Z) (log : list (TileRef * Z)) :
  changesOf t d (e :: log)
  = ((if Nat.eqb (fst e) t && Z.eqb (snd e) d then 1 else 0) + changesOf t d log)%nat.
Proof.
  unfold changesOf. destruct e as [a b]. cbn.
  destruct (Nat.eqb a t && Z.eqb b d); reflexivity.
Qed.

(** The balance of a tile in a log: increments less decrements. *)
Lemma balance_cons (ts : list TileRef) (e : TileRef * Z) (log : list (TileRef * Z)) :
  List.NoDup ts -> In (fst e) ts -> snd e = 1 \/ snd e = -1 ->
  fold_right Z.add 0
    (List.map (fun t => Z.of_nat (changesOf t 1 (e :: log))
                        - Z.of_nat (changesOf t (-1) (e :: log))) ts)
  = snd e
    + fold_right Z.add 0
        (List.map (fun t => Z.of_nat (changesOf t 1 log)
                            - Z.of_nat (changesOf t (-1) log)) ts).
Proof.
  destruct e as [r d]. simpl fst. simpl snd. intros Hnd Hin Hd.
  induction ts as [|t ts IH]; [destruct Hin|].
  apply List.NoDup_cons_iff in Hnd. destruct Hnd as [Hnot Hnd].
  simpl List.map. simpl fold_right. rewrite !changesOf_cons. simpl fst. simpl snd.
  destruct (Nat.eqb_spec r t) as [->|Hne].
  - assert (Hrest : fold_right Z.add 0
                      (List.map (fun t0 => Z.of_nat (changesOf t0 1 ((t, d) :: log))
                                           - Z.of_nat (changesOf t0 (-1) ((t, d) :: log))) ts)
                    = fold_right Z.add 0
                        (List.map (fun t0 => Z.of_nat (changesOf t0 1 log)
                                             - Z.of_nat (changesOf t0 (-1) log)) ts)).
    { clear IH Hin Hnd. induction ts as [|t0 ts IH]; [reflexivity|].
      simpl. rewrite !changesOf_cons. simpl fst.
      destruct (Nat.eqb_spec t t0) as [->|_]; [exfalso; apply Hnot; now left|].
      simpl. rewrite IH; [reflexivity|]. intros H. apply Hnot. now right. }
    rewrite Hrest. destruct Hd as [-> | ->]; simpl; lia.
  - destruct Hin as [->|Hin]; [contradiction|].
    rewrite (IH Hnd Hin). simpl. lia.
Qed.

Lemma logTotal_by_tile (log : list (TileRef * Z)) (ts : list TileRef) :
  unitChanges log -> List.NoDup ts -> (forall e, In e log -> In (fst e) ts) ->
  logTotal log
  = fold_right Z.add 0
      (List.map (fun t => Z.of_nat (changesOf t 1 log) - Z.of_nat (changesOf t (-1) log))
         ts).
Proof.
  intros Hu Hnd. induction Hu as [|e log He _ IH]; intros Hcov.
  - unfold logTotal, changesOf. simpl. clear. induction ts; simpl; lia.
  - rewrite (balance_cons ts e log Hnd (Hcov e (or_introl eq_refl)) He).
    rewrite <- IH by (intros e' He'; apply Hcov; now right).
    reflexivity.
Qed.

Lemma sum_inFlight (w : World) (ts : list TileRef) :
  fold_right Z.add 0 (List.map (fun t => Z.of_nat (inFlight w t)) ts)
  = Z.of_nat (length (List.filter
                        (fun t => contentState_eqb (stateOf w t) LOADING) ts)).
Proof.
  induction ts as [|t ts IH]; [reflexivity|].
  simpl. rewrite IH. unfold inFlight, stateOf.
  destruct (contentState_eqb (_contentState (tiles w t)) LOADING); simpl length; lia.
Qed.

(** X14. In every world a run can reach, [numberOfPendingRequests] is
    the number of tiles whose content state is [LOADING]: the tiles with a
    request in flight are all among the tiles ever requested, and the
    counter counts exactly those.  In particular it is never negative. *)
Theorem pending_requests_count_loading_tiles (w : World) :
  Reachable ext w ->
  numberOfPendingRequests (_statistics (tileset w)) = Z.of_nat (length (loadingTiles w))
  /\ (forall t, stateOf w t = LOADING <-> In t (loadingTiles w))
  /\ List.NoDup (loadingTiles w)
  /\ 0 <= numberOfPendingRequests (_statistics (tileset w)).
Proof.
  intros Hr.
  destruct (Reachable_betweenSteps ext w Hr) as (_ & _ & _ & Hacc & Hn).
  pose proof (Reachable_unitChanges w Hr) as Hu.
  assert (Hnd : List.NoDup (everRequested w)) by apply NoDup_nodup.
  assert (Hcov : forall e, In e (pendingLog w) -> In (fst e) (everRequested w)).
  { intros e He. apply nodup_In. now apply List.in_map. }
  assert (Hcount : pendingOf w = Z.of_nat (length (loadingTiles w))).
  { rewrite Hn, (logTotal_by_tile _ _ Hu Hnd Hcov). unfold loadingTiles.
    rewrite <- sum_inFlight. f_equal. apply List.map_ext. intros t.
    specialize (Hacc t). unfold pendingIncrements, pendingDecrements in Hacc. lia. }
  unfold pendingOf in Hcount. split; [exact Hcount|]. split; [|split].
  - intros t. unfold loadingTiles. rewrite List.filter_In. split.
    + intros Hs. split; [|now rewrite Hs].
      specialize (Hacc t). unfold pendingIncrements, pendingDecrements, inFlight in Hacc.
      fold (stateOf w t) in Hacc. rewrite Hs in Hacc. simpl in Hacc.
      apply nodup_In. unfold changesOf in Hacc.
      match type of Hacc with
      | length ?l = _ => destruct l as [|e l'] eqn:E
      end; [simpl in Hacc; lia|].
      assert (Hin : In e (e :: l')) by now left.
      rewrite <- E in Hin.
      apply List.filter_In in Hin. destruct Hin as [Hin Hcond].
      apply andb_true_iff in Hcond. destruct Hcond as [Ht _].
      apply Nat.eqb_eq in Ht. subst t. now apply List.in_map.
    + intros [_ Hs]. destruct (stateOf w t); simpl in Hs; congruence.
  - apply List.NoDup_filter, Hnd.
  - rewrite Hcount. lia.
Qed.

End PendingCounter.
(* ===================================================================== *)
(** * The processing counter over a run                                   *)
(* ===================================================================== *)

Section ProcessingCounter.
Variable ext : Collaborators.

(** No listener of the [tileLoad] event throws. *)
Hypothesis listeners_return : forall w t, tileLoadListener ext w t = None.

Lemma settleChain_listeners_return (t : TileRef) (w : World) :
  settleChain ext Resolved w (HandleTileSuccess t, HandleTileFailure t)
  = fst (handleTileSuccess ext t w).
Proof.
  unfold settleChain, runContinuation. cbn [fst snd].
  unfold handleTileSuccess. now rewrite listeners_return.
Qed.

Lemma isProcessing_iff (w : World) (t : TileRef) :
  isProcessing w t = true <-> stateOf w t = PROCESSING.
Proof.
  unfold isProcessing, stateOf. destruct (_contentState (tiles w t)); simpl;
    split; congruence.
Qed.

Lemma samePipeline_isProcessing (w w' : World) :
  samePipeline w w' -> forall t, isProcessing w' t = isProcessing w t.
Proof.
  intros (_ & _ & _ & Ht) t. destruct (Ht t) as (Hp & _).
  unfold isProcessing. fold (stateOf w' t) (stateOf w t).
  destruct (stateOf w' t), (stateOf w t); simpl in Hp; try discriminate; reflexivity.
Qed.

Lemma processingCounted_same (w w' : World) :
  queueOf w' = queueOf w ->
  (forall t, isProcessing w' t = isProcessing w t) ->
  processingOf w' = processingOf w ->
  processingCounted w -> processingCounted w'.
Proof.
  intros Hq Hp Hn [H1 H2]. unfold processingCounted, processingTiles in *.
  rewrite Hq, (List.filter_ext _ _ Hp), Hn. split; assumption.
Qed.

Lemma processingCounted_samePipeline (w w' : World) :
  samePipeline w w' -> processingOf w' = processingOf w ->
  processingCounted w -> processingCounted w'.
Proof.
  intros Hs Hn. apply processingCounted_same; [apply Hs| |exact Hn].
  now apply samePipeline_isProcessing.
Qed.

(** A tile enters processing at the end of the queue. *)
Lemma processingCounted_enter (t : TileRef) (w w' : World) :
  queueOf w' = queueOf w ++ [t] ->
  (forall r, isProcessing w' r = if Nat.eqb r t then true else isProcessing w r) ->
  ~ In t (queueOf w) ->
  processingOf w' = processingOf w + 1 ->
  processingCounted w -> processingCounted w'.
Proof.
  intros Hq Hp Hnot Hn [H1 H2].
  assert (Hl : processingTiles w' = processingTiles w ++ [t]).
  { unfold processingTiles. rewrite Hq, List.filter_app. f_equal.
    - apply List.filter_ext_in. intros r Hr. rewrite Hp.
      destruct (Nat.eqb_spec r t) as [->|_]; [contradiction|reflexivity].
    - simpl. now rewrite Hp, Nat.eqb_refl. }
  unfold processingCounted. rewrite Hl, Hn, H2, length_app. simpl. split; [|lia].
  apply List.NoDup_app; [exact H1|repeat constructor; intros []|].
  intros r Hr [<-|[]]. apply Hnot. unfold processingTiles in Hr.
  now apply List.filter_In in Hr.
Qed.

Lemma filter_out_length (t : TileRef) (l : list TileRef) :
  List.NoDup l -> In t l ->
  (length (List.filter (fun r => negb (Nat.eqb r t)) l) + 1 = length l)%nat.
Proof.
  induction l as [|x l IH]; intros Hnd Hin; [destruct Hin|].
  apply List.NoDup_cons_iff in Hnd. destruct Hnd as [Hnot Hnd]. simpl.
  destruct (Nat.eqb_spec x t) as [->|Hne]; simpl.
  - f_equal. rewrite Nat.add_1_r. f_equal.
    rewrite (filter_all_kept _ l); [reflexivity|].
    apply forallb_forall. intros r Hr. apply negb_true_iff, Nat.eqb_neq.
    intros ->. contradiction.
  - destruct Hin as [->|Hin]; [contradiction|]. rewrite <- (IH Hnd Hin). lia.
Qed.

(** A tile of the queue leaves processing. *)
Lemma processingCounted_leave (t : TileRef) (w w' : World) :
  queueOf w' = queueOf w ->
  (forall r, isProcessing w' r = if Nat.eqb r t then false else isProcessing w r) ->
  In t (processingTiles w) ->
  processingOf w' = processingOf w - 1 ->
  processingCounted w -> processingCounted w'.
Proof.
  intros Hq Hp Hin Hn [H1 H2].
  assert (Hl : processingTiles w'
               = List.filter (fun r => negb (Nat.eqb r t)) (processingTiles w)).
  { unfold processingTiles. rewrite Hq. clear Hq Hin H1 H2.
    induction (queueOf w) as [|x l IH]; [reflexivity|].
    simpl. rewrite Hp, IH.
    destruct (Nat.eqb_spec x t) as [->|Hne].
    - destruct (isProcessing w t); [simpl; now rewrite Nat.eqb_refl|reflexivity].
    - destruct (isProcessing w x); [simpl|reflexivity].
      destruct (Nat.eqb_spec x t); [contradiction|reflexivity]. }
  assert (Hlen : (length (processingTiles w') + 1 = length (processingTiles w))%nat)
    by (rewrite Hl; now apply filter_out_length).
  unfold processingCounted. rewrite Hn, H2. split; [|lia].
  rewrite Hl. apply List.NoDup_filter, H1.
Qed.

(** *** The completions of a load *)

Lemma contentAvailable_enters (t : TileRef) (w : World) :
  stateOf w t = LOADING -> betweenSteps w ->
  processingCounted w -> processingCounted (contentAvailable ext t w).
Proof.
  intros Hs (Hlq & _ & Hpa & _) Hj.
  destruct (Hpa t) as [Hp _]. destruct (Hp Hs) as [Hp1 _].
  assert (Heq : contentAvailable ext t w
                = addToProcessingQueue t (with_tile t (with_contentState PROCESSING) w)).
  { unfold contentAvailable. cbn [tiles with_tile]. rewrite Nat.eqb_refl.
    cbn [contentReadyToProcessPromise with_contentState]. rewrite Hp1. reflexivity. }
  rewrite Heq. apply (processingCounted_enter t w).
  - reflexivity.
  - intros r. unfold isProcessing. cbn. destruct (Nat.eqb r t); reflexivity.
  - apply inQueue_false_iff. now apply Hlq.
  - reflexivity.
  - exact Hj.
Qed.

Lemma handleTileSuccess_processing (t : TileRef) (w : World) :
  processingOf (fst (handleTileSuccess ext t w)) = processingOf w - 1.
Proof.
  unfold handleTileSuccess. destruct (negb (hasTilesetContent (tiles _ t))); reflexivity.
Qed.

Lemma handleTileFailure_processing (t : TileRef) (error : LoadError) (w : World) :
  processingOf (handleTileFailure t error w)
  = if inQueue w t then processingOf w - 1 else processingOf w.
Proof.
  unfold handleTileFailure, inQueue, queueOf.
  destruct (0 <=? indexOf (_processingQueue (tileset w)) t);
    match goal with
    | |- context [Nat.ltb 0 ?n] => destruct (Nat.ltb 0 n)
    end; reflexivity.
Qed.

Lemma processing_in_queue (w : World) (t : TileRef) :
  stateOf w t = PROCESSING -> betweenSteps w -> In t (processingTiles w).
Proof.
  intros Hs (_ & Hpq & _). unfold processingTiles. apply List.filter_In. split.
  - apply inQueue_iff. now apply Hpq.
  - now apply isProcessing_iff.
Qed.

Lemma contentReady_leaves (t : TileRef) (c : Content) (w : World) :
  stateOf w t = PROCESSING -> betweenSteps w ->
  processingCounted w -> processingCounted (contentReady ext t c w).
Proof.
  intros Hs Hb Hj. pose proof Hb as (_ & _ & Hpa & _).
  destruct (Hpa t) as [_ Hp]. specialize (Hp Hs).
  set (w1 := with_tile t (fun x => with_content c (with_contentState READY x)) w).
  assert (Heq : contentReady ext t c w = fst (handleTileSuccess ext t w1)).
  { unfold contentReady. fold w1. unfold w1 at 1. rewrite with_tile_same.
    cbn [contentReadyPromise with_content with_contentState]. rewrite Hp.
    cbn [fold_left]. apply settleChain_listeners_return. }
  rewrite Heq.
  apply (processingCounted_leave t w).
  - now destruct (handleTileSuccess_samePipeline ext t w1) as (-> & _).
  - intros r. rewrite (samePipeline_isProcessing w1 _ (handleTileSuccess_samePipeline ext t w1)).
    unfold isProcessing, w1. cbn. destruct (Nat.eqb r t); reflexivity.
  - now apply processing_in_queue.
  - rewrite handleTileSuccess_processing. reflexivity.
  - exact Hj.
Qed.

Lemma contentFailed_leaves (t : TileRef) (error : LoadError) (w : World) :
  stateOf w t = LOADING \/ stateOf w t = PROCESSING -> betweenSteps w ->
  processingCounted w -> processingCounted (contentFailed ext t error w).
Proof.
  intros Hs Hb Hj. pose proof Hb as (Hlq & Hpq & Hpa & _).
  assert (Hp : contentReadyPromise (tiles w t) = [(HandleTileSuccess t, HandleTileFailure t)]).
  { destruct (Hpa t) as [H1 H2]. destruct Hs as [Hs|Hs]; [apply H1|apply H2]; exact Hs. }
  set (w1 := with_tile t (with_contentState FAILED) w).
  assert (Heq : contentFailed ext t error w = handleTileFailure t error w1).
  { unfold contentFailed. fold w1. unfold w1 at 1. rewrite with_tile_same.
    cbn [contentReadyPromise with_contentState]. rewrite Hp. reflexivity. }
  rewrite Heq.
  destruct (handleTileFailure_view t error w1) as (Ht & Hq & _).
  pose proof (handleTileFailure_processing t error w1) as Hn.
  change (queueOf w1) with (queueOf w) in Hq.
  change (inQueue w1 t) with (inQueue w t) in Hn.
  change (processingOf w1) with (processingOf w) in Hn.
  assert (Hst : forall r, isProcessing (handleTileFailure t error w1) r
                          = if Nat.eqb r t then false else isProcessing w r).
  { intros r. unfold isProcessing. rewrite Ht. unfold w1. cbn.
    destruct (Nat.eqb r t); reflexivity. }
  destruct Hs as [Hs|Hs].
  - rewrite (Hlq t Hs) in Hn.
    apply (processingCounted_same w); [exact Hq| |exact Hn|exact Hj].
    intros r. rewrite Hst. destruct (Nat.eqb_spec r t) as [->|_]; [|reflexivity].
    symmetry. unfold isProcessing. fold (stateOf w t). now rewrite Hs.
  - rewrite (Hpq t Hs) in Hn.
    apply (processingCounted_leave t w); [exact Hq|exact Hst| |exact Hn|exact Hj].
    now apply processing_in_queue.
Qed.

(** *** The frame *)

Lemma selectTiles_statistics (fs : FrameState) (w : World) :
  _statistics (tileset (selectTiles ext fs w)) = _statistics (tileset w).
Proof.
  unfold selectTiles.
  assert (Hfold : forall (A : Type) (f : World -> A -> World) (l : list A) (w0 : World),
             (forall w x, _statistics (tileset (f w x)) = _statistics (tileset w)) ->
             _statistics (tileset (fold_left f l w0)) = _statistics (tileset w0)).
  { intros A f l. induction l as [|x l IH]; intros w0 Hf; simpl; [reflexivity|].
    now rewrite IH, Hf. }
  rewrite Hfold by reflexivity. cbn [tileset with_tileset].
  unfold with_hasMixedContent, with_emptyTiles, with_selectedTiles. cbn [_statistics].
  rewrite Hfold by reflexivity. rewrite Hfold by reflexivity. reflexivity.
Qed.

Lemma requestContent_processing (t : TileRef) (w : World) :
  processingCounted w -> processingCounted (requestContent ext t w).
Proof.
  intros Hj. destruct (requestContent_counts ext t w) as (_ & _ & _ & Hn & Hq).
  apply (processingCounted_same w); [exact Hq| |exact (f_equal id Hn)|exact Hj].
  intros r. destruct (requestGranted ext t w) eqn:G.
  - destruct (requestContent_granted ext t w G) as (Hother & Hst & _).
    destruct (Nat.eq_dec r t) as [->|Hne].
    + unfold isProcessing. fold (stateOf (requestContent ext t w) t) (stateOf w t).
      rewrite Hst. unfold requestGranted in G.
      apply andb_true_iff in G as [_ G]. apply andb_true_iff in G as [G _].
      destruct (stateOf w t); simpl in G; try discriminate; reflexivity.
    + unfold isProcessing. now rewrite (Hother r Hne).
  - now apply samePipeline_isProcessing, requestContent_refused.
Qed.

Lemma Tile_process_processing (fs : FrameState) (t : TileRef) (w : World) :
  betweenSteps w -> processingCounted w -> processingCounted (Tile_process ext fs t w).
Proof.
  intros Hb Hj. unfold Tile_process.
  destruct (contentState_eqb (_contentState (tiles w t)) PROCESSING) eqn:E; [|exact Hj].
  assert (Hs : stateOf w t = PROCESSING) by now apply isProcessing_iff.
  destruct (processOutcome ext w fs t) as [|c|e]; [exact Hj| |].
  - now apply contentReady_leaves.
  - apply contentFailed_leaves; [now right|exact Hb|exact Hj].
Qed.

Lemma updateFixedFrame_processing (fs : FrameState) (w : World) :
  betweenSteps w -> processingCounted w ->
  processingCounted (updateFixedFrame ext fs w).
Proof.
  intros Hb Hj. unfold updateFixedFrame.
  destruct (negb (ready (tileset w)) || negb (visible (tileset w))); [exact Hj|].
  set (w0 := with_tileset (with_requestedTiles []) w).
  set (w1 := selectTiles ext fs w0).
  set (w2 := requestTiles ext w1).
  assert (Hd1 : duringFrame w1).
  { apply (samePipeline_duringFrame w0); [apply selectTiles_samePipeline|].
    apply (samePipeline_duringFrame w); [|apply Hb].
    apply samePipeline_with_tileset. intros ts. split; reflexivity. }
  assert (Hj1 : processingCounted w1).
  { apply (processingCounted_samePipeline w0).
    - apply selectTiles_samePipeline.
    - unfold processingOf, w1. now rewrite selectTiles_statistics.
    - apply (processingCounted_samePipeline w); [|reflexivity|exact Hj].
      apply samePipeline_with_tileset. intros ts. split; reflexivity. }
  assert (Hd2 : duringFrame w2) by now apply requestTiles_duringFrame.
  assert (Hj2 : processingCounted w2).
  { unfold w2. rewrite requestTiles_fold.
    set (l := Array_sort _ _).
    assert (H0 : processingCounted (with_tileset (with_requestedTiles l) w1)).
    { apply (processingCounted_samePipeline w1); [|reflexivity|exact Hj1].
      apply samePipeline_with_tileset. intros ts. split; reflexivity. }
    revert H0. generalize (with_tileset (with_requestedTiles l) w1).
    induction l as [|t l IH]; intros w' H0; simpl; [exact H0|].
    apply IH. now apply requestContent_processing. }
  unfold processTiles.
  apply (forUpTo_invariant queueOf (Tile_process ext fs)
           (fun w => betweenSteps w /\ processingCounted w)).
  - intros t s [Hbs Hjs]. destruct (Tile_process_betweenSteps ext fs t s Hbs) as [H1 H2].
    split; [split; [exact H1|]|exact H2]. now apply Tile_process_processing.
  - split; [now apply filterProcessingQueue_betweenSteps|].
    destruct (filterProcessingQueue_view w2) as (Hq & Ht & _ & _ & Hst & _).
    destruct Hj2 as [K1 K2].
    assert (Hl : processingTiles (filterProcessingQueue w2) = processingTiles w2).
    { unfold processingTiles, queueOf. rewrite Hq.
      rewrite (List.filter_ext (isProcessing (filterProcessingQueue w2)) (isProcessing w2))
        by (intros r; unfold isProcessing; now rewrite Ht).
      apply filter_filter_same. }
    unfold processingCounted, processingOf. rewrite Hl, Hst. split; assumption.
Qed.

Lemma Reachable_processingCounted (w : World) :
  Reachable ext w -> processingCounted w.
Proof.
  induction 1 as [tiles_ Hu|w w' Hr IH Hstep].
  - split; [constructor|reflexivity].
  - pose proof (Reachable_betweenSteps ext w Hr) as Hb.
    destruct Hstep as [w fs|w t Hs|w t c Hs|w t e Hs].
    + now apply updateFixedFrame_processing.
    + now apply contentAvailable_enters.
    + now apply contentReady_leaves.
    + now apply contentFailed_leaves.
Qed.

(** X15. As long as no listener of the [tileLoad] event throws, in every
    world a run can reach the processing queue holds every tile whose
    content state is [PROCESSING], each exactly once, and holds no tile
    whose state is [LOADING]; [numberOfTilesProcessing] is the number of
    tiles in processing, and so is never negative.  A listener that
    throws makes the promise returned by [then] reject, which runs the
    failure handler after the success handler, and the counter goes down
    twice for the one tile. *)
Theorem processing_counter_counts_queue (w : World) :
  Reachable ext w ->
  numberOfTilesProcessing (_statistics (tileset w))
  = Z.of_nat (length (processingTiles w))
  /\ List.NoDup (processingTiles w)
  /\ (forall t, stateOf w t = PROCESSING <-> In t (processingTiles w))
  /\ (forall t, stateOf w t = LOADING -> ~ In t (queueOf w))
  /\ 0 <= numberOfTilesProcessing (_statistics (tileset w)).
Proof.
  intros Hr.
  pose proof (Reachable_betweenSteps ext w Hr) as Hb.
  destruct (Reachable_processingCounted w Hr) as [Hnd Hn].
  unfold processingOf in Hn.
  split; [exact Hn|]. split; [exact Hnd|]. split; [|split].
  - intros t. split; [intros Hs; now apply processing_in_queue|].
    intros Hin. unfold processingTiles in Hin. apply List.filter_In in Hin.
    now apply isProcessing_iff.
  - intros t Hs. apply inQueue_false_iff. destruct Hb as (Hlq & _). now apply Hlq.
  - rewrite Hn. lia.
Qed.

End ProcessingCounter.
(* ===================================================================== *)
(** * The further properties on the scenarios                             *)
(* ===================================================================== *)


Example loadTileset_versioned_base_path :
  let versioned :=
    mkTilesetJson (Some (mkAsset "1.0" (Some "7"%string))) (root Scenario.json) in
  _basePath (loading (finalState (loadTileset Scenario.refineRule versioned None
                                    (mkLoadState [] []
                                       (with_basePath (Some "http://host/tiles/"%string)
                                          Tileset_new)))))
  = Some "http://host/tiles/?v=7"%string
  /\ _basePath (loading (finalState (loadTileset Scenario.refineRule versioned None
                                       Scenario.emptyLoadState)))
     = Some "undefined?v=7"%string
  /\ _basePath (loading (finalState (loadTileset Scenario.refineRule Scenario.json None
                                       Scenario.emptyLoadState)))
     = None.
Proof. vm_compute. repeat split. Qed.

(** The scenario's tileset JSON loaded once, and then once more below the
    tile at position 1, as an external tileset is. *)
Lemma loadTileset_links_children_witness :
  let st1 := finalState (loadTileset Scenario.refineRule Scenario.json None
                           Scenario.emptyLoadState) in
  let parentTile := (1%nat, mkNewTile (mkTileHeader (Some "ADD"%string) None) ADD 1
                              (Some 0%nat)) in
  let st2 := finalState (loadTileset Scenario.refineRule Scenario.json (Some parentTile)
                           st1) in
  exists more,
    childrenTileLinks st2 = childrenTileLinks st1 ++ [(1%nat, 4%nat)] ++ more
    /\ List.map snd more = [5; 6; 7]%nat
    /\ (forall p i, In (p, i) more ->
          (4 <= p < i)%nat
          /\ exists pt t,
               arena st2 !! p = Some pt /\ arena st2 !! i = Some t
               /\ _depth t = _depth pt + 1
               /\ In (_header t) (childHeaders (_header pt))).
Proof.
  cbv zeta.
  destruct (loadTileset_links_children Scenario.refineRule Scenario.json
              (Some (1%nat, mkNewTile (mkTileHeader (Some "ADD"%string) None) ADD 1
                              (Some 0%nat)))
              (finalState (loadTileset Scenario.refineRule Scenario.json None
                             Scenario.emptyLoadState))
              (finalState (loadTileset Scenario.refineRule Scenario.json
                             (Some (1%nat, mkNewTile (mkTileHeader (Some "ADD"%string) None)
                                             ADD 1 (Some 0%nat)))
                             (finalState (loadTileset Scenario.refineRule Scenario.json None
                                            Scenario.emptyLoadState))))
              4%nat)
    as (more & H1 & H2 & H3 & _).
  - vm_compute. reflexivity.
  - intros p Hp. injection Hp as <-. vm_compute. reflexivity.
  - exists more. split; [exact H1|]. split; [exact H2|exact H3].
Defined.

Example loadTileset_scenario_links :
  let st' := finalState (loadTileset Scenario.refineRule Scenario.json None
                           Scenario.emptyLoadState) in
  childrenTileLinks st' = [(0, 1); (0, 2); (2, 3)]%nat
  /\ List.map _depth (arena st') = [0; 1; 1; 2].
Proof. vm_compute. split; reflexivity. Qed.

(** After the first frame of the scenario the request of tile 0 is in
    flight. *)
Lemma pending_requests_count_loading_tiles_witness :
  let w := updateFixedFrame Scenario.ext (Scenario.frame 1) (World_new Scenario.tiles0) in
  numberOfPendingRequests (_statistics (tileset w)) = Z.of_nat (length (loadingTiles w))
  /\ (forall t, stateOf w t = LOADING <-> In t (loadingTiles w))
  /\ List.NoDup (loadingTiles w)
  /\ 0 <= numberOfPendingRequests (_statistics (tileset w)).
Proof.
  cbv zeta.
  apply (pending_requests_count_loading_tiles Scenario.ext).
  apply (reach_step Scenario.ext (World_new Scenario.tiles0)); [|apply step_frame].
  apply reach_new. reflexivity.
Defined.

Example pending_requests_scenario :
  let w1 := updateFixedFrame Scenario.ext (Scenario.frame 1) (World_new Scenario.tiles0) in
  loadingTiles w1 = [0%nat]
  /\ numberOfPendingRequests (_statistics (tileset w1)) = 1
  /\ loadingTiles Scenario.resident = []
  /\ numberOfPendingRequests (_statistics (tileset Scenario.resident)) = 0.
Proof. vm_compute. repeat split. Qed.

Example createTileJsonIndex_scenario :
  let s := finalState (createTileJsonIndex Scenario.json "tiles/"
                         (mkIndexedJson (Some (<[7%nat := [5%nat]]> ∅)) ∅ ∅)) in
  List.map (fun k => tileIndex s ≫= fun index_ => index_ !! k) [0; 1; 2; 3; 4; 7]%nat
  = [Some []; Some [0]; Some [1]; Some [1; 0]; None; Some [5]]%nat
  /\ List.map (fun r => json_tileId s !! r) [[]; [0]; [1]; [1; 0]; [2]]%nat
     = [Some 0; Some 1; Some 2; Some 3; None]%nat
  /\ json_baseUrl s !! [1; 0]%nat = Some "tiles/"%string.
Proof. vm_compute. repeat split. Qed.

(** On a tileset as the constructor leaves it the call throws, and the
    tileset JSON is not numbered. *)
Example createTileJsonIndex_on_constructed_tileset :
  createTileJsonIndex Scenario.json "tiles/" IndexedJson_new
  = Thrown (TypeError "Cannot read properties of undefined (reading 'index')")
      IndexedJson_new.
Proof. reflexivity. Qed.

Example createFeatures_scenario :
  createFeatures (mkBatched3DModel3DTileContent (Some (Finite 3)) None)
  = Thrown (ReferenceError "Cesium3DTileFeature is not defined")
      (mkBatched3DModel3DTileContent (Some (Finite 3)) None)
  /\ createFeatures (mkBatched3DModel3DTileContent (Some (Finite (5 # 2))) None)
     = Thrown (RangeError "Invalid array length")
         (mkBatched3DModel3DTileContent (Some (Finite (5 # 2))) None)
  /\ createFeatures (mkBatched3DModel3DTileContent (Some PositiveInfinity) None)
     = Thrown (RangeError "Invalid array length")
         (mkBatched3DModel3DTileContent (Some PositiveInfinity) None)
  /\ createFeatures Batched3DModel3DTileContent_new
     = Returned tt Batched3DModel3DTileContent_new
  /\ createFeatures (mkBatched3DModel3DTileContent (Some (Finite 3)) (Some []))
     = Returned tt (mkBatched3DModel3DTileContent (Some (Finite 3)) (Some [])).
Proof. vm_compute. repeat split. Qed.

Example updateTiles_without_stencil_buffer :
  commandList (fst (updateTiles Scenario.ext
                      (mkFrameState 9 [DrawCommand 100%nat 0%nat] false) Scenario.mixed))
  = [DrawCommand 100 0; DrawCommand 3 0; DrawCommand 4 0; DrawCommand 7 0]%nat
  /\ raised (snd (updateTiles Scenario.ext Scenario.drawing Scenario.mixed))
     = [TileVisible 3; TileVisible 4; TileVisible 7]%nat.
Proof. split; reflexivity. Qed.

(** After the first frame and the arrival of its raw content, tile 0 of
    the scenario is in processing. *)
Lemma processing_counter_counts_queue_witness :
  let w := contentAvailable Scenario.ext 0%nat
             (updateFixedFrame Scenario.ext (Scenario.frame 1)
                (World_new Scenario.tiles0)) in
  numberOfTilesProcessing (_statistics (tileset w))
  = Z.of_nat (length (processingTiles w))
  /\ List.NoDup (processingTiles w)
  /\ (forall t, stateOf w t = PROCESSING <-> In t (processingTiles w))
  /\ (forall t, stateOf w t = LOADING -> ~ In t (queueOf w))
  /\ 0 <= numberOfTilesProcessing (_statistics (tileset w)).
Proof.
  cbv zeta.
  apply (processing_counter_counts_queue Scenario.ext);
    [intros w t; reflexivity|].
  set (w0 := World_new Scenario.tiles0).
  set (w1 := updateFixedFrame Scenario.ext (Scenario.frame 1) w0).
  apply (reach_step Scenario.ext w1); [|apply step_available; reflexivity].
  apply (reach_step Scenario.ext w0); [|apply step_frame].
  apply reach_new. reflexivity.
Defined.

Example processing_counter_scenario :
  let w2 := contentAvailable Scenario.ext 0%nat
              (updateFixedFrame Scenario.ext (Scenario.frame 1)
                 (World_new Scenario.tiles0)) in
  processingTiles w2 = [0%nat]
  /\ numberOfTilesProcessing (_statistics (tileset w2)) = 1
  /\ processingTiles Scenario.resident = []
  /\ queueOf Scenario.resident = [0%nat]
  /\ numberOfTilesProcessing (_statistics (tileset Scenario.resident)) = 0.
Proof. vm_compute. repeat split. Qed.

(** The same run with a [tileLoad] listener that throws: when the content
    of tile 0 is ready, the success handler and then the failure handler
    run, and the processing counter ends below zero with the tile still
    in the queue. *)
Example processing_counter_with_throwing_listener :
  let w2 := contentAvailable throwingListener 0%nat
              (updateFixedFrame throwingListener (Scenario.frame 1)
                 (World_new Scenario.tiles0)) in
  let w3 := contentReady throwingListener 0%nat (mkContent 1 2 3) w2 in
  Reachable throwingListener w3
  /\ numberOfTilesProcessing (_statistics (tileset w2)) = 1
  /\ numberOfTilesProcessing (_statistics (tileset w3)) = -1
  /\ queueOf w3 = [0%nat]
  /\ processingTiles w3 = [].
Proof.
  cbv zeta. split.
  - set (w0 := World_new Scenario.tiles0).
    set (w1 := updateFixedFrame throwingListener (Scenario.frame 1) w0).
    set (w2 := contentAvailable throwingListener 0%nat w1).
    apply (reach_step throwingListener w2); [|apply step_ready; reflexivity].
    apply (reach_step throwingListener w1); [|apply step_available; reflexivity].
    apply (reach_step throwingListener w0); [|apply step_frame].
    apply reach_new. reflexivity.
  - vm_compute. repeat split.
Qed.
